(** * YATSM: Yet Another Time Series Model

    A shallow embedding of [yatsm/yatsm.py]: the multitemporal mask, the
    Lasso model wrapper, the [YATSM] segment state machine ([train],
    [update_model], [monitor], [run], [reset]) and the robust refit
    ([robust_record]).

    Conventions.
    - Python floats and NumPy float64 values are IEEE binary64 numbers,
      modelled by [spec_float] with the operations of [SpecFloat] at
      precision 53; float32 fields are binary64 values rounded to
      precision 24 when they are stored.
    - Python integers are [Z]; integer indexing follows NumPy (negative
      indices count from the end, anything else out of range raises).
    - Exceptions are an explicit [result] type.
    - Numerical library routines (cosine, sine, ceiling, vector norm and
      sum, the robust regression of statsmodels, the Lasso solvers of
      glmnet and scikit-learn) are parameters of the development. *)

From Stdlib Require Import ZArith List Bool Lia Sorted.
From Stdlib Require Import Floats.SpecFloat.
Import ListNotations.
Local Open Scope Z_scope.

(** ** Binary64 arithmetic *)

Definition float := spec_float.

Definition prec : Z := 53.
Definition emax : Z := 1024.

Definition fadd : float -> float -> float := SFadd prec emax.
Definition fsub : float -> float -> float := SFsub prec emax.
Definition fmul : float -> float -> float := SFmul prec emax.
Definition fdiv : float -> float -> float := SFdiv prec emax.
Definition fsqrt : float -> float := SFsqrt prec emax.
Definition fabs : float -> float := SFabs.
Definition fneg : float -> float := SFopp.

(** Comparisons; every comparison with NaN is false, except [!=]. *)
Definition flt (a b : float) : bool := SFltb a b.
Definition fle (a b : float) : bool := SFleb a b.
Definition fgt (a b : float) : bool := SFltb b a.
Definition fge (a b : float) : bool := SFleb b a.
Definition fne (a b : float) : bool := negb (SFeqb a b).

(** A genuine binary64 value. *)
Definition is_float (x : float) : Prop := valid_binary prec emax x = true.

(** Conversion of a Python integer to a float. *)
Definition of_int (z : Z) : float := binary_normalize prec emax z 0 false.

(** The float [m * 2^e], correctly rounded. *)
Definition of_dyadic (m e : Z) : float := binary_normalize prec emax m e false.

Definition f0 : float := S754_zero false.

(** [int(x)] of a finite float: truncation toward zero. *)
Definition f_trunc (x : float) : option Z :=
  match x with
  | S754_zero _ => Some 0
  | S754_finite s m e =>
      Some (cond_Zopp s (if 0 <=? e then Zpos m * 2 ^ e else Zpos m / 2 ^ (- e)))
  | _ => None
  end.

(** Storing a float into an ['i4'] field: truncation; a value that does
    not fit (or NaN, or an infinity) becomes the "integer indefinite"
    value of the conversion instruction. *)
Definition int32_min : Z := - 2 ^ 31.

Definition to_i4 (x : float) : Z :=
  match f_trunc x with
  | Some z => if (int32_min <=? z) && (z <? 2 ^ 31) then z else int32_min
  | None => int32_min
  end.

(** Storing a float into a ['float32'] field. *)
Definition f32 (x : float) : float :=
  match x with
  | S754_finite s m e => binary_round 24 128 s m e
  | _ => x
  end.

(** Python's builtin [max(a, b)]: the second argument is returned only
    when it compares greater than the first. *)
Definition pymax (a b : float) : float := if fgt b a then b else a.

(** Module constant [ndays = 365.25]. *)
Definition ndays : float := of_dyadic 1461 (-2).

(** [sys.float_info.min], the smallest positive normal binary64, 2^-1022. *)
Definition float_info_min : float := S754_finite false (2 ^ 52) (-1074).

(** [np.pi] *)
Definition np_pi : float := S754_finite false 7074237752028440 (-51).

(** ** Exceptions *)

Inductive exn : Type :=
| IndexError
| ValueError
| NotEnoughObservations.

Inductive result (A : Type) : Type :=
| Ok (a : A)
| Raise (e : exn).

Arguments Ok {A} a.
Arguments Raise {A} e.

Definition bind {A B : Type} (r : result A) (k : A -> result B) : result B :=
  match r with
  | Ok a => k a
  | Raise e => Raise e
  end.

Notation "x <- r ;; k" := (bind r (fun x => k))
  (at level 61, r at next level, right associativity).

Fixpoint mapM {A B : Type} (f : A -> result B) (l : list A) : result (list B) :=
  match l with
  | [] => Ok []
  | a :: l' => b <- f a ;; bs <- mapM f l' ;; Ok (b :: bs)
  end.

(** ** NumPy indexing *)

Definition len {A : Type} (l : list A) : Z := Z.of_nat (length l).

(** [l[i]] *)
Definition getitem {A : Type} (l : list A) (i : Z) : result A :=
  let j := if i <? 0 then i + len l else i in
  if j <? 0 then Raise IndexError
  else match nth_error l (Z.to_nat j) with
       | Some a => Ok a
       | None => Raise IndexError
       end.

(** [l[i] = v] *)
Fixpoint replace_nth {A : Type} (n : nat) (v : A) (l : list A) : list A :=
  match l, n with
  | [], _ => []
  | _ :: t, O => v :: t
  | a :: t, S n' => a :: replace_nth n' v t
  end.

Definition setitem {A : Type} (l : list A) (i : Z) (v : A) : result (list A) :=
  let j := if i <? 0 then i + len l else i in
  if (j <? 0) || (len l <=? j) then Raise IndexError
  else Ok (replace_nth (Z.to_nat j) v l).

(** [np.arange(a, b)] *)
Definition arange (a b : Z) : list Z :=
  map (fun k => a + Z.of_nat k) (seq 0 (Z.to_nat (b - a))).

(** [np.arange(a, b, dtype=np.uint16)]: the entries are computed in 16-bit
    unsigned arithmetic. *)
Definition arange_uint16 (a b : Z) : list Z :=
  map (fun i => i mod 65536) (arange a b).

(** [l[index]] for an integer index array. *)
Definition take {A : Type} (l : list A) (index : list Z) : result (list A) :=
  mapM (getitem l) index.

(** [l[index] = vals] for an integer index array, entry by entry. *)
Fixpoint put {A : Type} (l : list A) (index : list Z) (vals : list A)
  : result (list A) :=
  match index, vals with
  | [], [] => Ok l
  | i :: index', v :: vals' => l' <- setitem l i v ;; put l' index' vals'
  | _, _ => Raise ValueError
  end.

(** The values assigned to [n] selected entries: a single value is
    repeated, otherwise the shapes must agree. *)
Definition broadcast {A : Type} (v : list A) (n : nat) : result (list A) :=
  match v with
  | [a] => Ok (repeat a n)
  | _ => if Nat.eqb (length v) n then Ok v else Raise ValueError
  end.

(** [l[mask]] for a boolean mask. *)
Fixpoint compress_aux {A : Type} (mask : list bool) (l : list A) : list A :=
  match mask, l with
  | b :: mask', a :: l' =>
      if b then a :: compress_aux mask' l' else compress_aux mask' l'
  | _, _ => []
  end.

Definition compress {A : Type} (mask : list bool) (l : list A) : result (list A) :=
  if Nat.eqb (length mask) (length l) then Ok (compress_aux mask l)
  else Raise IndexError.

(** [l[:-c]] *)
Definition slice_to_neg {A : Type} (l : list A) (c : Z) : list A :=
  if 0 <? c then firstn (Z.to_nat (len l - c)) l
  else firstn (Z.to_nat (- c)) l.

(** [mask.sum()] *)
Definition count_true (mask : list bool) : Z :=
  len (filter (fun b => b) mask).

(** [np.where(mask)[0]] *)
Fixpoint where_aux (i : Z) (mask : list bool) : list Z :=
  match mask with
  | [] => []
  | b :: mask' => if b then i :: where_aux (i + 1) mask' else where_aux (i + 1) mask'
  end.

Definition np_where (mask : list bool) : list Z := where_aux 0 mask.

(** Matrices are lists of rows. [X] has one row per observation, [Y] one
    row per band. *)
Definition matrix := list (list float).

(** [M[i, j]] *)
Definition getitem2 (M : matrix) (i j : Z) : result float :=
  row <- getitem M i ;; getitem row j.

(** [M[:, j]] *)
Definition column (M : matrix) (j : Z) : result (list float) :=
  mapM (fun row => getitem row j) M.

(** [M[:, index]] *)
Definition take_columns (M : matrix) (index : list Z) : result matrix :=
  mapM (fun row => take row index) M.

(** [M[:, mask]] *)
Definition compress_columns (M : matrix) (mask : list bool) : result matrix :=
  mapM (fun row => compress mask row) M.

(** [M.shape[0]] and [M.shape[1]] (of a rectangular matrix). *)
Definition shape0 (M : matrix) : Z := len M.
Definition shape1 (M : matrix) : Z :=
  match M with
  | [] => 0
  | row :: _ => len row
  end.

(** [M.T] *)
Fixpoint transpose_aux (n : nat) (M : matrix) : matrix :=
  match n with
  | O => []
  | S n' => transpose_aux n' M ++ [map (fun row => nth n' row f0) M]
  end.

Definition transpose (M : matrix) : matrix :=
  transpose_aux (Z.to_nat (shape1 M)) M.

(** ** Numerical libraries

    The routines of NumPy, statsmodels, glmnet and scikit-learn that the
    program calls and whose floating-point results are not determined by
    the program text. *)
Record numlib : Type := {
  (** [np.cos], [np.sin], [np.ceil] on one value *)
  np_cos : float -> float;
  np_sin : float -> float;
  np_ceil : float -> float;
  (** [np.sum] and [np.linalg.norm] of a vector *)
  np_sum : list float -> float;
  np_linalg_norm : list float -> float;
  (** [sm.RLM(endog, exog, M=TukeyBiweight()).fit()]: [.resid] and [.params] *)
  rlm_resid : list float -> matrix -> list float;
  rlm_params : list float -> matrix -> list float;
  (** [elastic_net(X, y, 1, lambdas)]: the dense coefficient vector
      [coef_] (active coefficients scattered into zeros) and [intercept_] *)
  glmnet_coef_ : matrix -> list float -> float -> list float;
  glmnet_intercept_ : matrix -> list float -> float -> float;
  (** [LassoLarsIC(criterion='bic').fit(X, y)]: [coef_] and [intercept_] *)
  lars_coef_ : matrix -> list float -> list float;
  lars_intercept_ : matrix -> list float -> float;
  (** [predict] of a linear model with the given [coef_] and [intercept_]
      on one design row *)
  linear_predict : list float -> float -> list float -> float
}.

(** Column indices of the green and first shortwave-infrared bands. *)
Definition green_band : Z := 1.
Definition swir1_band : Z := 4.

(** [math.sqrt]: a negative argument is a domain error. *)
Definition math_sqrt (x : float) : result float :=
  if flt x f0 then Raise ValueError else Ok (fsqrt x).

(** [np.logical_and(a, b)] of two vectors of equal length. *)
Fixpoint logical_and (a b : list bool) : result (list bool) :=
  match a, b with
  | [], [] => Ok []
  | x :: a', y :: b' => r <- logical_and a' b' ;; Ok ((x && y) :: r)
  | _, _ => Raise ValueError
  end.

(** A fitted Lasso model, as the program leaves it after [fit]. *)
Record lasso : Type := {
  coef_ : list float;
  intercept_ : float;
  coef : list float;
  nobs : Z;
  fittedvalues : list float;
  rss : float;
  rmse : float
}.

Section Program.

Variable L : numlib.

(** *** [multitemp_mask] *)

(** The five-column design of the mask, one row per observation. *)
Definition mask_design (x : list float) (n_year : float) : matrix :=
  let n_year := np_ceil L n_year in
  let w := fdiv (fmul (of_dyadic 2 0) np_pi) ndays in
  transpose
    [ map (fun _ => of_int 1) x;
      map (fun t => np_cos L (fmul w t)) x;
      map (fun t => np_sin L (fmul w t)) x;
      map (fun t => np_cos L (fmul (fdiv w n_year) t)) x;
      map (fun t => np_sin L (fmul (fdiv w n_year) t)) x ].

Definition multitemp_mask (x : list float) (Y : matrix) (n_year : float)
    (crit : float) (green swir1 : Z) : result (list bool) :=
  let X := mask_design x n_year in
  y_green <- getitem Y green ;;
  let green_RLM := rlm_resid L y_green X in
  y_swir1 <- getitem Y swir1 ;;
  let swir1_RLM := rlm_resid L y_swir1 X in
  logical_and (map (fun r => flt r crit) green_RLM)
              (map (fun r => fgt r (fneg crit)) swir1_RLM).

(** The default critical value, [crit=400]. *)
Definition crit_default : float := of_int 400.

(** *** Model fitting *)

(** [predict] of a fitted model on one design row. *)
Definition predict (m : lasso) (x : list float) : float :=
  linear_predict L (coef_ m) (intercept_ m) x.

(** The attributes both fitting strategies derive from the solver output:
    the intercept folded into coefficient 0, the fitted values, the
    residual sum of squares and the RMSE. *)
Definition finish_fit (c_ : list float) (i_ : float) (X : matrix)
    (y : list float) : result lasso :=
  c0 <- getitem c_ 0 ;;
  c <- setitem c_ 0 (fadd c0 i_) ;;
  let n := len y in
  let fitted := map (linear_predict L c_ i_) X in
  let sq := map (fun d => fmul d d) (map (fun p => fsub (fst p) (snd p)) (combine y fitted)) in
  let rss_ := np_sum L sq in
  r <- math_sqrt (fdiv rss_ (of_int n)) ;;
  Ok {| coef_ := c_; intercept_ := i_; coef := c; nobs := n;
        fittedvalues := fitted; rss := rss_; rmse := r |}.

(** [GLMLasso().fit(X, y, lambdas=20)] *)
Definition GLMLasso_fit (X : matrix) (y : list float) (lambdas : float)
  : result lasso :=
  finish_fit (glmnet_coef_ L X y lambdas) (glmnet_intercept_ L X y lambdas) X y.

(** The body of the loop of [fit_models_LassoCV]. *)
Definition LassoLarsIC_fit (X : matrix) (y : list float) : result lasso :=
  finish_fit (lars_coef_ L X y) (lars_intercept_ L X y) X y.

Definition fit_models_GLMnet (X Y : matrix) (index : list Z) (bands : list Z)
  : result (list lasso) :=
  mapM (fun b =>
          Xi <- take X index ;;
          yb <- getitem Y b ;;
          yi <- take yb index ;;
          GLMLasso_fit Xi yi (of_int 20)) bands.

Definition fit_models_LassoCV (X Y : matrix) (index : list Z) (bands : list Z)
  : result (list lasso) :=
  mapM (fun b =>
          Xi <- take X index ;;
          yb <- getitem Y b ;;
          yi <- take yb index ;;
          LassoLarsIC_fit Xi yi) bands.


(** ** The YATSM object *)

(** One entry of the record store (the structured dtype of
    [record_template]); [px] and [py] are the pixel location. *)
Record segment : Type := {
  seg_start : Z;
  seg_end : Z;
  seg_break : Z;
  seg_coef : matrix;
  seg_rmse : list float;
  px : Z;
  py : Z
}.

(** Attributes assigned once by [__init__]. *)
Record config : Type := {
  lassocv : bool;
  fit_indices : list Z;
  test_indices : list Z;
  n_band : Z;
  n_coef : Z;
  consecutive : Z;
  threshold : float;
  min_obs : Z;
  min_rmse : float;
  record_template : segment
}.

(** NumPy arrays are mutable buffers that several names may share.  The
    arrays of store entries live in a heap, an array being named by its
    address (its position in the heap); [np.copy] and [np.append]
    allocate a new array, an indexed assignment writes into an existing
    one. *)
Definition heap_t := list (list segment).

(** The instance: configuration and mutable attributes; [record] is the
    address of the record array in [heap]. *)
Record yatsm : Type := {
  cfg : config;
  heap : heap_t;
  X : matrix;
  Y : matrix;
  start : Z;
  here : Z;
  _here : Z;
  monitoring : bool;
  ran : bool;
  models : list lasso;
  n_record : Z;
  record : nat;
  trained_date : float;
  _X : matrix;
  _Y : matrix
}.

Definition set_XY (vX vY : matrix) (s : yatsm) : yatsm :=
  {| cfg := cfg s; heap := heap s; X := vX; Y := vY; start := start s; here := here s;
     _here := _here s; monitoring := monitoring s; ran := ran s;
     models := models s; n_record := n_record s; record := record s;
     trained_date := trained_date s; _X := _X s; _Y := _Y s |}.

Definition set__XY (vX vY : matrix) (s : yatsm) : yatsm :=
  {| cfg := cfg s; heap := heap s; X := X s; Y := Y s; start := start s; here := here s;
     _here := _here s; monitoring := monitoring s; ran := ran s;
     models := models s; n_record := n_record s; record := record s;
     trained_date := trained_date s; _X := vX; _Y := vY |}.

Definition set_start (v : Z) (s : yatsm) : yatsm :=
  {| cfg := cfg s; heap := heap s; X := X s; Y := Y s; start := v; here := here s;
     _here := _here s; monitoring := monitoring s; ran := ran s;
     models := models s; n_record := n_record s; record := record s;
     trained_date := trained_date s; _X := _X s; _Y := _Y s |}.

Definition set_here (v : Z) (s : yatsm) : yatsm :=
  {| cfg := cfg s; heap := heap s; X := X s; Y := Y s; start := start s; here := v;
     _here := _here s; monitoring := monitoring s; ran := ran s;
     models := models s; n_record := n_record s; record := record s;
     trained_date := trained_date s; _X := _X s; _Y := _Y s |}.

Definition set__here (v : Z) (s : yatsm) : yatsm :=
  {| cfg := cfg s; heap := heap s; X := X s; Y := Y s; start := start s; here := here s;
     _here := v; monitoring := monitoring s; ran := ran s;
     models := models s; n_record := n_record s; record := record s;
     trained_date := trained_date s; _X := _X s; _Y := _Y s |}.

Definition set_monitoring (v : bool) (s : yatsm) : yatsm :=
  {| cfg := cfg s; heap := heap s; X := X s; Y := Y s; start := start s; here := here s;
     _here := _here s; monitoring := v; ran := ran s;
     models := models s; n_record := n_record s; record := record s;
     trained_date := trained_date s; _X := _X s; _Y := _Y s |}.

Definition set_ran (v : bool) (s : yatsm) : yatsm :=
  {| cfg := cfg s; heap := heap s; X := X s; Y := Y s; start := start s; here := here s;
     _here := _here s; monitoring := monitoring s; ran := v;
     models := models s; n_record := n_record s; record := record s;
     trained_date := trained_date s; _X := _X s; _Y := _Y s |}.

Definition set_models (v : list lasso) (s : yatsm) : yatsm :=
  {| cfg := cfg s; heap := heap s; X := X s; Y := Y s; start := start s; here := here s;
     _here := _here s; monitoring := monitoring s; ran := ran s;
     models := v; n_record := n_record s; record := record s;
     trained_date := trained_date s; _X := _X s; _Y := _Y s |}.

Definition set_n_record (v : Z) (s : yatsm) : yatsm :=
  {| cfg := cfg s; heap := heap s; X := X s; Y := Y s; start := start s; here := here s;
     _here := _here s; monitoring := monitoring s; ran := ran s;
     models := models s; n_record := v; record := record s;
     trained_date := trained_date s; _X := _X s; _Y := _Y s |}.

Definition set_record (v : nat) (s : yatsm) : yatsm :=
  {| cfg := cfg s; heap := heap s; X := X s; Y := Y s; start := start s; here := here s;
     _here := _here s; monitoring := monitoring s; ran := ran s;
     models := models s; n_record := n_record s; record := v;
     trained_date := trained_date s; _X := _X s; _Y := _Y s |}.

Definition set_heap (v : heap_t) (s : yatsm) : yatsm :=
  {| cfg := cfg s; heap := v; X := X s; Y := Y s; start := start s; here := here s;
     _here := _here s; monitoring := monitoring s; ran := ran s;
     models := models s; n_record := n_record s; record := record s;
     trained_date := trained_date s; _X := _X s; _Y := _Y s |}.

Definition set_trained_date (v : float) (s : yatsm) : yatsm :=
  {| cfg := cfg s; heap := heap s; X := X s; Y := Y s; start := start s; here := here s;
     _here := _here s; monitoring := monitoring s; ran := ran s;
     models := models s; n_record := n_record s; record := record s;
     trained_date := v; _X := _X s; _Y := _Y s |}.

(** The array an address names. *)
Definition load (h : heap_t) (p : nat) : list segment := nth p h [].

(** Overwriting the contents of the array at an address. *)
Definition write (h : heap_t) (p : nat) (a : list segment) : heap_t :=
  replace_nth p a h.

(** Allocating a new array: the heap and the new address. *)
Definition alloc (h : heap_t) (a : list segment) : heap_t * nat :=
  (h ++ [a], length h).

(** [self.record], the array. *)
Definition the_record (s : yatsm) : list segment := load (heap s) (record s).

(** [self.record = a] for a newly created array [a]. *)
Definition bind_record (a : list segment) (s : yatsm) : yatsm :=
  let '(h, p) := alloc (heap s) a in
  set_record p (set_heap h s).

(** Field updates of one store entry. *)
Definition set_seg_start (v : Z) (r : segment) : segment :=
  {| seg_start := v; seg_end := seg_end r; seg_break := seg_break r;
     seg_coef := seg_coef r; seg_rmse := seg_rmse r; px := px r; py := py r |}.

Definition set_seg_end (v : Z) (r : segment) : segment :=
  {| seg_start := seg_start r; seg_end := v; seg_break := seg_break r;
     seg_coef := seg_coef r; seg_rmse := seg_rmse r; px := px r; py := py r |}.

Definition set_seg_break (v : Z) (r : segment) : segment :=
  {| seg_start := seg_start r; seg_end := seg_end r; seg_break := v;
     seg_coef := seg_coef r; seg_rmse := seg_rmse r; px := px r; py := py r |}.

Definition set_seg_coef (v : matrix) (r : segment) : segment :=
  {| seg_start := seg_start r; seg_end := seg_end r; seg_break := seg_break r;
     seg_coef := v; seg_rmse := seg_rmse r; px := px r; py := py r |}.

Definition set_seg_rmse (v : list float) (r : segment) : segment :=
  {| seg_start := seg_start r; seg_end := seg_end r; seg_break := seg_break r;
     seg_coef := seg_coef r; seg_rmse := v; px := px r; py := py r |}.

(** [np.zeros] of the record dtype for [n_coef] coefficients and [n_fit]
    fitted bands. *)
Definition zero_segment (n_coef n_fit : Z) : segment :=
  {| seg_start := 0; seg_end := 0; seg_break := 0;
     seg_coef := repeat (repeat f0 (Z.to_nat n_fit)) (Z.to_nat n_coef);
     seg_rmse := repeat f0 (Z.to_nat n_fit);
     px := 0; py := 0 |}.

(** ** Construction *)

(** The keyword arguments of [__init__]; [None] is the default of the
    optional ones. *)
Record args : Type := {
  arg_consecutive : Z;
  arg_threshold : float;
  arg_min_obs : option Z;
  arg_min_rmse : option float;
  arg_fit_indices : option (list Z);
  arg_test_indices : option (list Z);
  arg_lassocv : bool
}.

(** [consecutive=5, threshold=2.56] and nothing else given. *)
Definition default_args : args :=
  {| arg_consecutive := 5;
     arg_threshold := S754_finite false 5764607523034235 (-51);
     arg_min_obs := None; arg_min_rmse := None;
     arg_fit_indices := None; arg_test_indices := None;
     arg_lassocv := false |}.

(** [max(l)] of a sequence of integers. *)
Definition max_of (l : list Z) : result Z :=
  match l with
  | [] => Raise ValueError
  | a :: t => Ok (fold_left Z.max t a)
  end.

(** The check of [fit_indices] and of [test_indices]. *)
Definition check_indices (given : option (list Z)) (bands : Z)
  : result (list Z) :=
  match given with
  | None => Ok (arange 0 bands)
  | Some idx =>
      m <- max_of idx ;;
      if m <? bands then Ok idx else Raise IndexError
  end.

(** Truth value of an optional float ([if min_rmse:]). *)
Definition truthy (x : option float) : bool :=
  match x with
  | None => false
  | Some v => fne v f0
  end.

(** [int(x)] *)
Definition py_int (x : float) : result Z :=
  match f_trunc x with
  | Some z => Ok z
  | None => Raise ValueError
  end.

(** [self.min_obs]: the argument, or [int(self.n_coef * 1.5)]. *)
Definition effective_min_obs (a : args) (vX : matrix) : result Z :=
  match arg_min_obs a with
  | None => py_int (fmul (of_int (shape1 vX)) (of_dyadic 3 (-1)))
  | Some m => Ok m
  end.

(** [self.min_rmse]: the argument when it is true, or [sys.float_info.min]. *)
Definition effective_min_rmse (a : args) : float :=
  match arg_min_rmse a with
  | Some v => if truthy (arg_min_rmse a) then v else float_info_min
  | None => float_info_min
  end.

Definition init (a : args) (vX vY : matrix) : result yatsm :=
  fit <- check_indices (arg_fit_indices a) (shape0 vY) ;;
  test <- check_indices (arg_test_indices a) (shape0 vY) ;;
  let n_band_ := shape0 vY in
  let n_coef_ := shape1 vX in
  min_obs_ <- effective_min_obs a vX ;;
  let min_rmse_ := effective_min_rmse a in
  let here_ := min_obs_ in
  if shape0 vX <? here_ + arg_consecutive a then Raise NotEnoughObservations
  else
    let template := zero_segment n_coef_ (len fit) in
    Ok {| heap := [[template]];
          cfg := {| lassocv := arg_lassocv a; fit_indices := fit;
                    test_indices := test; n_band := n_band_; n_coef := n_coef_;
                    consecutive := arg_consecutive a;
                    threshold := arg_threshold a; min_obs := min_obs_;
                    min_rmse := min_rmse_; record_template := template |};
          X := vX; Y := vY; start := 0; here := here_; _here := here_;
          monitoring := false; ran := false; models := []; n_record := 0;
          record := 0%nat; trained_date := f0; _X := []; _Y := [] |}.

(** [reset] *)
Definition reset (s : yatsm) : yatsm :=
  set_ran false
    (set__here (min_obs (cfg s))
       (set_here (min_obs (cfg s))
          (set_start 0
             (bind_record [record_template (cfg s)]
                (set_n_record 0 s))))).

(** ** The segment state machine *)

(** [fit_models]: the strategy chosen at construction, with
    [index = np.arange(self.start, self.here + 1)]. *)
Definition fit_models (s : yatsm) (vX vY : matrix) (bands : list Z)
  : result (list lasso) :=
  let index := arange (start s) (here s + 1) in
  if lassocv (cfg s) then fit_models_LassoCV vX vY index bands
  else fit_models_GLMnet vX vY index bands.

(** Properties [span_time], [span_index], [running], [can_monitor]. *)
Definition span_time (s : yatsm) : result float :=
  a <- getitem2 (X s) (here s) 1 ;;
  b <- getitem2 (X s) (start s) 1 ;;
  Ok (fabs (fsub a b)).

Definition span_index (s : yatsm) : Z := here s - start s.

Definition running (s : yatsm) : bool := here s <? shape0 (X s).

Definition can_monitor (s : yatsm) : bool :=
  here s <? shape0 (X s) - consecutive (cfg s) - 1.

(** The denominator of every normalized residual. *)
Definition denominator (s : yatsm) (m : lasso) : float :=
  pymax (min_rmse (cfg s)) (rmse m).

(** [np.abs(Y[b, i] - m.predict(X[i, :])) / max(self.min_rmse, m.rmse)] *)
Definition normalized_residual (s : yatsm) (vX vY : matrix) (m : lasso)
    (b i : Z) : result float :=
  y <- getitem2 vY b i ;;
  x <- getitem vX i ;;
  Ok (fdiv (fabs (fsub y (predict m x))) (denominator s m)).

(** The window mask of [train]: [mask[index] = multitemp_mask(...)] on a
    mask of ones, together with [index]. *)
Definition train_mask (s : yatsm) (span : float) : result (list bool * list Z) :=
  let mask := repeat true (Z.to_nat (shape0 (X s))) in
  let index := arange_uint16 (start s) (here s + consecutive (cfg s)) in
  rows <- take (X s) index ;;
  x <- mapM (fun row => getitem row 1) rows ;;
  Yw <- take_columns (Y s) index ;;
  m <- multitemp_mask x Yw span crit_default green_band swir1_band ;;
  m' <- broadcast m (length index) ;;
  mask' <- put mask index m' ;;
  Ok (mask', index).

(** The stability test of [train] on the masked window, for the state in
    which [here] has been moved: the two endpoint norms against
    [threshold]. *)
Definition unstable (s : yatsm) (ms : list lasso) : result bool :=
  let pairs := combine (test_indices (cfg s)) ms in
  start_resid <- mapM (fun bm => normalized_residual s (_X s) (_Y s) (snd bm)
                                   (fst bm) (start s)) pairs ;;
  end_resid <- mapM (fun bm => normalized_residual s (_X s) (_Y s) (snd bm)
                                 (fst bm) (here s)) pairs ;;
  Ok (fgt (np_linalg_norm L start_resid) (threshold (cfg s))
      || fgt (np_linalg_norm L end_resid) (threshold (cfg s))).

(** The part of [train] after the first test: multitemporal noise
    removal, then the model fit and the stability test. *)
Definition train_masking (s : yatsm) (span : float) : result yatsm :=
  mi <- train_mask s span ;;
  let '(mask, index) := mi in
  window <- take mask index ;;
  let _span_index := count_true (slice_to_neg window (consecutive (cfg s))) in
  if _span_index <? min_obs (cfg s) then Ok s
  else
    mX <- compress mask (X s) ;;
    mY <- compress_columns (Y s) mask ;;
    let s1 := set__XY mX mY s in
    let s2 := set__here (here s1) s1 in
    let s3 := set_here (start s2 + _span_index - 1) s2 in
    span' <- span_time s3 ;;
    if flt span' ndays then Ok (set_here (_here s3) s3)
    else
      ms <- fit_models s3 (_X s3) (_Y s3) (test_indices (cfg s3)) ;;
      u <- unstable s3 ms ;;
      if u then Ok (set_here (_here s3) (set_start (start s3 + 1) s3))
      else Ok (set_monitoring true (set_XY (_X s3) (_Y s3) s3)).

Definition train (s : yatsm) : result yatsm :=
  span <- span_time s ;;
  if fle span ndays || (span_index s <? n_coef (cfg s)) then Ok s
  else train_masking s span.

(** [self.record[self.n_record][field] = v] *)
Definition update_open_record (f : segment -> result segment) (s : yatsm)
  : result yatsm :=
  r <- getitem (the_record s) (n_record s) ;;
  r' <- f r ;;
  rs <- setitem (the_record s) (n_record s) r' ;;
  Ok (set_heap (write (heap s) (record s) rs) s).

(** [coef[:, i] = v] with the values stored as float32. *)
Definition set_column (M : matrix) (i : Z) (v : list float) : result matrix :=
  v' <- broadcast v (length M) ;;
  mapM (fun rv => setitem (fst rv) i (f32 (snd rv))) (combine M v').

(** The loop of [update_model] that copies the models into a record. *)
Fixpoint store_models (i : Z) (ms : list lasso) (r : segment) : result segment :=
  match ms with
  | [] => Ok r
  | m :: ms' =>
      c <- set_column (seg_coef r) i (coef m) ;;
      e <- setitem (seg_rmse r) i (f32 (rmse m)) ;;
      store_models (i + 1) ms' (set_seg_rmse e (set_seg_coef c r))
  end.

Definition update_model (s : yatsm) : result yatsm :=
  d <- getitem2 (X s) (here s) 1 ;;
  if fgt (fabs (fsub d (trained_date s))) ndays then
    ms <- fit_models s (X s) (Y s) (fit_indices (cfg s)) ;;
    let s1 := set_models ms s in
    d0 <- getitem2 (X s1) (start s1) 1 ;;
    s2 <- update_open_record (fun r => Ok (set_seg_start (to_i4 d0) r)) s1 ;;
    s3 <- update_open_record (fun r => Ok (set_seg_end (to_i4 d) r)) s2 ;;
    s4 <- update_open_record (store_models 0 (models s3)) s3 ;;
    Ok (set_trained_date d s4)
  else
    update_open_record (fun r => Ok (set_seg_end (to_i4 d) r)) s.

(** The [scores] matrix of [monitor], one row per future observation. *)
Definition scores (s : yatsm) : result matrix :=
  if consecutive (cfg s) <? 0 then Raise ValueError
  else
    mapM (fun i =>
            mapM (fun b =>
                    m <- getitem (models s) b ;;
                    r <- normalized_residual s (X s) (Y s) m b (here s + i) ;;
                    Ok (f32 r))
                 (test_indices (cfg s)))
         (arange 0 (consecutive (cfg s))).

(** [mag = np.linalg.norm(scores, axis=1)]: [scores] is a float32 array,
    and so is the array of its norms. *)
Definition magnitudes (s : yatsm) : result (list float) :=
  sc <- scores s ;;
  Ok (map (fun row => f32 (np_linalg_norm L row)) sc).

(** [np.all(mag > self.threshold)]: [mag] is a float32 array and
    [threshold] a Python float, so the comparison is made in float32, with
    the threshold converted to float32. *)
Definition all_exceed (mag : list float) (thr : float) : bool :=
  forallb (fun m => fgt m (f32 thr)) mag.

Definition monitor (s : yatsm) : result yatsm :=
  mag <- magnitudes s ;;
  if all_exceed mag (threshold (cfg s)) then
    d <- getitem2 (X s) (here s + 1) 1 ;;
    s1 <- update_open_record (fun r => Ok (set_seg_break (to_i4 d) r)) s ;;
    let s2 := bind_record (the_record s1 ++ [record_template (cfg s1)]) s1 in
    let s3 := set_n_record (n_record s2 + 1) s2 in
    let s4 := set_start (here s3 + 1) s3 in
    Ok (set_monitoring false s4)
  else Ok s.

(** *** [run]

    The nested loops of [run] as a transition system.  A control point
    names the loop test that is evaluated next. *)
Inductive control : Type :=
| AtRunning      (** [while self.running] *)
| AtTrain        (** [while not self.monitoring and self.can_monitor] *)
| AtMonitor      (** [while self.monitoring and self.can_monitor] *)
| AtAdvance      (** the [self.here += 1] that ends the outer loop body *)
| Returned.      (** after [self.ran = True] *)

Definition incr_here (s : yatsm) : yatsm := set_here (here s + 1) s.

Definition step (c : control) (s : yatsm) : result (control * yatsm) :=
  match c with
  | AtRunning =>
      if running s then Ok (AtTrain, s) else Ok (Returned, set_ran true s)
  | AtTrain =>
      if negb (monitoring s) && can_monitor s then
        s' <- train s ;; Ok (AtTrain, incr_here s')
      else Ok (AtMonitor, s)
  | AtMonitor =>
      if monitoring s && can_monitor s then
        s1 <- update_model s ;;
        s2 <- monitor s1 ;;
        Ok (AtMonitor, incr_here s2)
      else Ok (AtAdvance, s)
  | AtAdvance => Ok (AtRunning, incr_here s)
  | Returned => Ok (Returned, s)
  end.

(** [fuel] transitions from a control point; [None] when the fuel runs out
    before [run] returns or raises. *)
Fixpoint run_from (fuel : nat) (c : control) (s : yatsm)
  : option (result yatsm) :=
  match c with
  | Returned => Some (Ok s)
  | _ =>
      match fuel with
      | O => None
      | S fuel' =>
          match step c s with
          | Raise e => Some (Raise e)
          | Ok (c', s') => run_from fuel' c' s'
          end
      end
  end.

(** [run]: [self.trained_date = 0], then the loops. *)
Definition run (fuel : nat) (s : yatsm) : option (result yatsm) :=
  run_from fuel AtRunning (set_trained_date (of_int 0) s).

(** *** [robust_record] *)

Fixpoint foldM {A B : Type} (f : A -> B -> result A) (l : list B) (a : A)
  : result A :=
  match l with
  | [] => Ok a
  | b :: l' => a' <- f a b ;; foldM f l' a'
  end.

(** [enumerate(l)] *)
Definition enumerate {A : Type} (l : list A) : list (Z * A) :=
  combine (arange 0 (len l)) l.

(** [M[rows, j] = vals] with the values stored as float32. *)
Definition put_column (M : matrix) (rows : list Z) (j : Z) (vals : list float)
  : result matrix :=
  vals' <- broadcast vals (length rows) ;;
  foldM (fun M' kv =>
           row <- getitem M' (fst kv) ;;
           row' <- setitem row j (f32 (snd kv)) ;;
           setitem M' (fst kv) row')
        (combine rows vals') M.

(** One pass of the loop over [fit_indices], for entry [i] of the array
    at address [rr]. *)
Definition refit_band (vX vY : matrix) (n_index : Z) (rr : nat) (i : Z)
    (h : heap_t) (ib : Z * Z) : result heap_t :=
  let '(i_b, b) := ib in
  r <- getitem (load h rr) i ;;
  col <- column (seg_coef r) i_b ;;
  let nonzero := np_where (map (fun c => fne c f0) col) in
  if len nonzero =? 0 then Ok h
  else
    y <- getitem vY b ;;
    Xnz <- take_columns vX nonzero ;;
    let params := rlm_params L y Xnz in
    let resid := rlm_resid L y Xnz in
    c' <- put_column (seg_coef r) nonzero i_b params ;;
    rs1 <- setitem (load h rr) i (set_seg_coef c' r) ;;
    let h1 := write h rr rs1 in
    let rss_ := np_sum L (map (fun e => fmul e e) resid) in
    v <- math_sqrt (fdiv rss_ (of_int n_index)) ;;
    r2 <- getitem (load h1 rr) i ;;
    e' <- setitem (seg_rmse r2) i_b (f32 v) ;;
    rs2 <- setitem (load h1 rr) i (set_seg_rmse e' r2) ;;
    Ok (write h1 rr rs2).

(** One pass of the loop over the entries of the array at address [rr]. *)
Definition refit_record (s : yatsm) (rr : nat) (h : heap_t) (i : Z)
  : result heap_t :=
  r <- getitem (load h rr) i ;;
  dates <- column (X s) 1 ;;
  let lo := of_int (Z.min (seg_start r) (seg_end r)) in
  let hi := of_int (Z.max (seg_end r) (seg_start r)) in
  let index := np_where (map (fun d => fge d lo && fle d hi) dates) in
  vX <- take (X s) index ;;
  vY <- take_columns (Y s) index ;;
  foldM (refit_band vX vY (len index) rr i) (enumerate (fit_indices (cfg s))) h.

(** The property [robust_record]: [None] before a run, otherwise the
    address of the refitted array. *)
Definition robust_record (s : yatsm) : result (option nat * yatsm) :=
  if negb (ran s) then Ok (None, s)
  else
    let '(h, rr) := alloc (heap s) (the_record s) in
    h' <- foldM (refit_record s rr) (arange 0 (len (load h rr))) h ;;
    Ok (Some rr, set_heap h' s).

End Program.

(** ** A reference instance of the numerical libraries

    Executable stand-ins used to run the program on concrete series.  They
    return what the real routines return on the series of the examples
    below, in which every fitted window is constant: the Lasso solution
    for a constant response is the zero coefficient vector with the
    constant as intercept, and the robust regression of a constant
    response leaves zero residuals. *)

(** [ceil] of a float of magnitude below 2^53. *)
Definition ceil_float (x : float) : float :=
  match f_trunc x with
  | Some z => if flt (of_int z) x then of_int (z + 1) else of_int z
  | None => x
  end.

(** Sum from left to right. *)
Definition sum_float (v : list float) : float := fold_left fadd v f0.

(** Square root of the sum of squares. *)
Definition norm_float (v : list float) : float :=
  fsqrt (sum_float (map (fun a => fmul a a) v)).

(** Dot product plus intercept. *)
Definition affine_float (c : list float) (i : float) (x : list float) : float :=
  fadd (sum_float (map (fun p => fmul (fst p) (snd p)) (combine x c))) i.

Definition head_float (y : list float) : float := hd f0 y.

Definition reference_lib : numlib :=
  {| np_cos := fun _ => of_int 1;
     np_sin := fun _ => f0;
     np_ceil := ceil_float;
     np_sum := sum_float;
     np_linalg_norm := norm_float;
     rlm_resid := fun y _ => map (fun v => fsub v (head_float y)) y;
     rlm_params := fun y vX => head_float y :: repeat f0 (Z.to_nat (shape1 vX) - 1);
     glmnet_coef_ := fun vX _ _ => repeat f0 (Z.to_nat (shape1 vX));
     glmnet_intercept_ := fun _ y _ => head_float y;
     lars_coef_ := fun vX _ => repeat f0 (Z.to_nat (shape1 vX));
     lars_intercept_ := fun _ y => head_float y;
     linear_predict := affine_float |}.

(** A series of [n] observations, 100 days apart from day 730000, with
    design rows [[1, date]] and five bands; band 0 jumps from 0 to 1000 at
    observation [shift], the other bands are constantly 0. *)
Definition example_X (n : nat) : matrix :=
  map (fun i => [of_int 1; of_int (730000 + 100 * Z.of_nat i)]) (seq 0 n).

Definition example_Y (n : nat) (shift : nat) : matrix :=
  map (fun i => if Nat.leb shift i then of_int 1000 else f0) (seq 0 n)
  :: repeat (repeat f0 n) 4.


(** The same series with observations a quarter of a year (91.3125 days)
    apart. *)
Definition quarterly_X (n : nat) : matrix :=
  map (fun i => [of_int 1; of_dyadic (11680000 + 1461 * Z.of_nat i) (-4)]) (seq 0 n).

(** An instance with no data, the value of a failed construction in the
    examples. *)
Definition blank : yatsm :=
  {| cfg := {| lassocv := false; fit_indices := []; test_indices := [];
               n_band := 0; n_coef := 0; consecutive := 0; threshold := f0;
               min_obs := 0; min_rmse := f0;
               record_template := zero_segment 0 0 |};
     heap := []; X := []; Y := []; start := 0; here := 0; _here := 0;
     monitoring := false; ran := false; models := []; n_record := 0;
     record := 0%nat; trained_date := f0; _X := []; _Y := [] |}.

Definition value_of (r : result yatsm) : yatsm :=
  match r with
  | Ok s => s
  | Raise _ => blank
  end.

(** The state after [n] transitions of [run]. *)
Fixpoint steps (L : numlib) (n : nat) (c : control) (s : yatsm)
  : control * yatsm :=
  match n with
  | O => (c, s)
  | S n' =>
      match step L c s with
      | Ok (c', s') => steps L n' c' s'
      | Raise _ => (c, s)
      end
  end.

(** Fifteen observations with the jump at observation 8, default
    arguments. *)
Definition example_init : yatsm :=
  value_of (init default_args (example_X 15) (example_Y 15 8)).

Definition example_at (n : nat) : yatsm :=
  snd (steps reference_lib n AtRunning (set_trained_date (of_int 0) example_init)).

(** The quarterly series with the cursor one year after the start. *)
Definition quarterly_year : yatsm :=
  set_here 4 (value_of (init default_args (quarterly_X 15) (example_Y 15 8))).

(** The same series run with [threshold=0.1] and [min_rmse=10000]: the
    binary64 value of 0.1 is below its float32 value.  [tenth_at n] is the
    instance after [n] transitions of [run]. *)
Definition tenth : float := fdiv (of_int 1) (of_int 10).

Definition tenth_args : args :=
  {| arg_consecutive := 5; arg_threshold := tenth;
     arg_min_obs := None; arg_min_rmse := Some (of_int 10000);
     arg_fit_indices := None; arg_test_indices := None;
     arg_lassocv := false |}.

Definition tenth_at (n : nat) : yatsm :=
  snd (steps reference_lib n AtRunning
         (set_trained_date (of_int 0)
            (value_of (init tenth_args (example_X 15) (example_Y 15 8))))).

(** Default arguments with index sets that contain negative indices. *)
Definition negative_index_args : args :=
  {| arg_consecutive := 5; arg_threshold := arg_threshold default_args;
     arg_min_obs := None; arg_min_rmse := None;
     arg_fit_indices := Some [-3; 0; -7]; arg_test_indices := Some [-1];
     arg_lassocv := false |}.

(** Fifteen observations, all bands constantly 0 except for one
    contaminated green value at observation 2. *)
Definition noisy_Y : matrix :=
  [ repeat f0 15;
    [f0; f0; of_int 1000] ++ repeat f0 12;
    repeat f0 15; repeat f0 15; repeat f0 15 ].

Definition noisy_at (n : nat) : yatsm :=
  snd (steps reference_lib n AtRunning
         (set_trained_date (of_int 0)
            (value_of (init default_args (example_X 15) noisy_Y)))).

(** Fifteen observations with band 0 constantly 7 and the other bands
    constantly 0, and the instance after a complete run on them. *)
Definition level_Y : matrix := repeat (of_int 7) 15 :: repeat (repeat f0 15) 4.

Definition level_final : yatsm :=
  snd (steps reference_lib 100 AtRunning
         (set_trained_date (of_int 0)
            (value_of (init default_args (example_X 15) level_Y)))).

(** ** Operations on an instance

    One call of a method, or one step of the cursor, taking an instance to
    the next. *)
Inductive operation (L : numlib) : yatsm -> yatsm -> Prop :=
| op_train s t : train L s = Ok t -> operation L s t
| op_update_model s t : update_model L s = Ok t -> operation L s t
| op_monitor s t : monitor L s = Ok t -> operation L s t
| op_advance s : operation L s (incr_here s)
| op_run_step c c' s t : step L c s = Ok (c', t) -> operation L s t
| op_robust_record s t p : robust_record L s = Ok (p, t) -> operation L s t
| op_reset s : operation L s (reset s).

(** Any number of operations. *)
Inductive operations (L : numlib) : yatsm -> yatsm -> Prop :=
| ops_none s : operations L s s
| ops_more s t u : operations L s t -> operation L t u -> operations L s u.

(** [X', Y'] is obtained from [X, Y] by removing observations with
    boolean masks, any number of times. *)
Inductive reduction : matrix -> matrix -> matrix -> matrix -> Prop :=
| reduction_none vX vY : reduction vX vY vX vY
| reduction_mask vX vY mX mY vX' vY' mask :
    reduction vX vY mX mY ->
    compress mask mX = Ok vX' -> compress_columns mY mask = Ok vY' ->
    reduction vX vY vX' vY'.

(** ** Positions written by the robust refit *)

(** The position an integer index denotes in a list. *)
Definition index_pos {A : Type} (l : list A) (i : Z) : nat :=
  Z.to_nat (if i <? 0 then i + len l else i).

(** [M'] has the shape of [M] and its entries, except possibly at the
    positions in [W]. *)
Definition same_off (W : nat -> nat -> Prop) (M M' : matrix) : Prop :=
  length M' = length M /\
  forall j row, nth_error M j = Some row ->
    exists row', nth_error M' j = Some row' /\ length row' = length row /\
                 forall k, ~ W j k -> nth_error row' k = nth_error row k.

(** The entries of [M] that are zero are entries of [M'], with the same
    value, and the two matrices have the same shape. *)
Definition zeros_kept (M M' : matrix) : Prop :=
  length M' = length M /\
  forall j row, nth_error M j = Some row ->
    exists row', nth_error M' j = Some row' /\ length row' = length row /\
                 forall k c, nth_error row k = Some c -> fne c f0 = false ->
                             nth_error row' k = Some c.

(** An array of refitted entries against the original array: entry by
    entry, the dates are the same and the zero coefficients are kept. *)
Definition refit_entry (o c : segment) : Prop :=
  zeros_kept (seg_coef o) (seg_coef c) /\
  seg_start c = seg_start o /\ seg_end c = seg_end o /\ seg_break c = seg_break o.

Definition refit_of (orig cur : list segment) : Prop := Forall2 refit_entry orig cur.

(** The state of the heap during [robust_record]: the arrays that existed
    before are as they were, and the new array at address [rr] is a refit
    of [orig]. *)
Definition refit_heap (h0 : heap_t) (orig : list segment) (h : heap_t) : Prop :=
  length h = S (length h0) /\
  (forall p, (p < length h0)%nat -> load h p = load h0 p) /\
  refit_of orig (load h (length h0)).

(** ** A measure for [run]

    Between two bounds [lo] and [hi] for the segment start and the cursor,
    every transition of [run] decreases, in lexicographic order: the room
    left for the segment start (counted twice, plus one while
    accumulating), the room left for the cursor, and the rank of the
    control point. *)
Definition rank (c : control) : Z :=
  match c with
  | AtRunning => 4
  | AtTrain => 3
  | AtMonitor => 2
  | AtAdvance => 1
  | Returned => 0
  end.

Definition measure (lo hi : Z) (c : control) (s : yatsm) : Z :=
  ((2 * (hi - start s) + (if monitoring s then 0 else 1)) * (hi - lo + 1)
   + (hi - here s)) * 5 + rank c.

(** The bounds taken from the instance on which [run] is called. *)
Definition lower_bound (s : yatsm) : Z := Z.min (here s) (start s).

Definition upper_bound (s : yatsm) : Z :=
  Z.max (Z.max (here s) (start s))
        (Z.max (shape0 (X s)) (shape0 (X s) - consecutive (cfg s))).

(** What holds of the cursor at every control point of [run]. *)
Definition cursor_inv (cf : config) (lo hi : Z) (c : control) (s : yatsm) : Prop :=
  cfg s = cf /\ 0 <= n_coef cf /\
  shape0 (X s) <= hi /\ shape0 (X s) - consecutive cf <= hi /\
  lo <= start s <= hi /\ lo <= here s <= hi /\
  (monitoring s = true -> start s <= here s) /\
  match c with
  | AtTrain | AtMonitor | AtAdvance => here s < hi
  | _ => True
  end.

(** ** Observation dates

    [X[:, 1]] holds the dates; a row without that column has no date. *)
Definition date_column (vX : matrix) : list float :=
  map (fun row => nth 1 row S754_nan) vX.

(** An ordinal day count that fits an ['i4'] field: a genuine binary64
    value from 1 up to, not including, 2^31. *)
Definition ordinal (d : float) : Prop :=
  is_float d /\ fle (of_int 1) d = true /\ flt d (of_int (2 ^ 31)) = true.

(** The observations are in chronological order, with valid dates. *)
Definition dates_ok (vX : matrix) : Prop :=
  Forall ordinal (date_column vX) /\
  StronglySorted (fun a b => fle a b = true) (date_column vX).

(** The dates as they are stored into the ['i4'] fields of a record. *)
Definition idates (vX : matrix) : list Z := map to_i4 (date_column vX).

(** ** The record store during a run *)

(** The starts are in order as far as they have been written: a record
    whose start is not 0 starts no earlier than every record before it. *)
Definition starts_ordered (rs : list segment) : Prop :=
  forall i j a b, (i < j)%nat -> nth_error rs i = Some a -> nth_error rs j = Some b ->
                  seg_start b = 0 \/ seg_start a <= seg_start b.

(** The starts are in non-decreasing order. *)
Definition starts_sorted (rs : list segment) : Prop :=
  forall i j a b, (i < j)%nat -> nth_error rs i = Some a -> nth_error rs j = Some b ->
                  seg_start a <= seg_start b.

(** Every record but the last carries a break date. *)
Definition all_but_last_closed (rs : list segment) : Prop :=
  forall i r, nth_error rs i = Some r -> (S i < length rs)%nat -> 1 <= seg_break r.

(** The properties of the record store that hold throughout a run. *)
Definition store_ok (rs : list segment) : Prop :=
  (forall r, In r rs -> seg_start r <= seg_end r) /\
  all_but_last_closed rs /\
  (forall i r, nth_error rs i = Some r -> seg_break r = 0 -> S i = length rs) /\
  starts_ordered rs.

(** What holds of an instance between the transitions of [run]. *)
Definition store_inv (s : yatsm) : Prop :=
  seg_start (record_template (cfg s)) = 0 /\
  seg_end (record_template (cfg s)) = 0 /\
  (record s < length (heap s))%nat /\
  n_record s = len (the_record s) - 1 /\
  (forall r, In r (the_record s) -> seg_start r <= seg_end r) /\
  all_but_last_closed (the_record s) /\
  starts_ordered (the_record s) /\
  (forall r j z, In r (the_record s) -> start s <= Z.of_nat j ->
                 nth_error (idates (X s)) j = Some z -> seg_start r <= z) /\
  0 <= start s /\
  (monitoring s = true -> start s <= here s) /\
  Forall (fun z => 1 <= z) (idates (X s)) /\
  StronglySorted Z.le (idates (X s)).

(** ** The order of binary64 values

    [SFcompare] is the lexicographic comparison of a key made of a sign
    class, the exponent and the mantissa; the order facts follow from the
    order of integers. *)

Definition key (x : float) : option (Z * Z * Z) :=
  match x with
  | S754_nan => None
  | S754_infinity false => Some (2, 0, 0)
  | S754_infinity true => Some (-2, 0, 0)
  | S754_zero _ => Some (0, 0, 0)
  | S754_finite false m e => Some (1, e, Zpos m)
  | S754_finite true m e => Some (-1, - e, Zneg m)
  end.

Definition key_lt (k1 k2 : Z * Z * Z) : Prop :=
  let '(a1, b1, c1) := k1 in
  let '(a2, b2, c2) := k2 in
  a1 < a2 \/ (a1 = a2 /\ (b1 < b2 \/ (b1 = b2 /\ c1 < c2))).

Definition key_le (k1 k2 : Z * Z * Z) : Prop := key_lt k1 k2 \/ k1 = k2.


(** ** The design matrix, [make_X]

    An array is a vector or a matrix (a list of rows); [make_X] returns
    the one-dimensional [x] itself when no row is stacked on it. *)
Inductive ndarray : Type :=
| Vector (v : list float)
| Matrix (M : matrix).

(** [np.atleast_2d] *)
Definition atleast_2d (a : ndarray) : matrix :=
  match a with
  | Vector v => [v]
  | Matrix M => M
  end.

(** [np.vstack([a, B])]: the rows of [B] below those of [a]; the two must
    have as many columns. *)
Definition vstack (a : ndarray) (B : matrix) : result matrix :=
  let A := atleast_2d a in
  if shape1 A =? shape1 B then Ok (A ++ B) else Raise ValueError.

(** The two rows stacked for the frequency [f]:
    [np.array([np.cos(f * w * x), np.sin(f * w * x)])]. *)
Definition harmonic_rows (L : numlib) (w : float) (x : list float) (f : Z) : matrix :=
  [ map (fun t => np_cos L (fmul (fmul (of_int f) w) t)) x;
    map (fun t => np_sin L (fmul (fmul (of_int f) w) t)) x ].

(** The loop [for f in freq]. *)
Fixpoint stack_harmonics (L : numlib) (w : float) (x : list float)
    (freq : list Z) (a : ndarray) : result ndarray :=
  match freq with
  | [] => Ok a
  | f :: freq' =>
      M <- vstack a (harmonic_rows L w x f) ;;
      stack_harmonics L w x freq' (Matrix M)
  end.

(** [w = 2 * np.pi / ndays] *)
Definition omega : float := fdiv (fmul (of_int 2) np_pi) ndays.

Definition make_X (L : numlib) (x : list float) (freq : list Z)
    (intercept : bool) : result ndarray :=
  let a := if intercept
           then Matrix [map (fun _ => of_int 1) x; x]
           else Vector x in
  stack_harmonics L omega x freq a.

(** ** Shapes of the data of an instance *)

(** Every row of [M] has [n] entries. *)
Definition rows_of_length (n : Z) (M : matrix) : Prop :=
  Forall (fun row => len row = n) M.

(** ** Fitted models *)

(** The externally friendly coefficients: [coef_] with the intercept added
    to coefficient 0. *)
Definition intercept_folded (m : lasso) : Prop :=
  length (coef m) = length (coef_ m) /\
  nth_error (coef m) 0
  = option_map (fun c => fadd c (intercept_ m)) (nth_error (coef_ m) 0) /\
  forall k, (0 < k)%nat -> nth_error (coef m) k = nth_error (coef_ m) k.

(** Arguments with which only bands 3 and 4 are fitted and tested. *)
Definition bands_3_4_args : args :=
  {| arg_consecutive := 5; arg_threshold := arg_threshold default_args;
     arg_min_obs := None; arg_min_rmse := None;
     arg_fit_indices := Some [3; 4]; arg_test_indices := Some [3; 4];
     arg_lassocv := false |}.

(** Arguments with [consecutive=0], and the example series with three
    bands only. *)
Definition consecutive_0_args : args :=
  {| arg_consecutive := 0; arg_threshold := arg_threshold default_args;
     arg_min_obs := None; arg_min_rmse := None;
     arg_fit_indices := None; arg_test_indices := None;
     arg_lassocv := false |}.

Definition three_band_Y : matrix := repeat (repeat f0 15) 3.

(** ** The record store during a run *)

(** The record array is allocated and [n_record] indexes its last
    entry. *)
Definition open_last (s : yatsm) : Prop :=
  (record s < length (heap s))%nat /\
  0 <= n_record s /\ n_record s = len (the_record s) - 1.

(** [rs'] continues [rs]: the entries of [rs] before its last are the
    first entries of [rs'], unchanged, and [rs'] has at least one entry
    after them. *)
Definition continues (rs rs' : list segment) : Prop :=
  exists more, more <> [] /\ rs' = removelast rs ++ more.
(** * Properties *)

(** ** Order of binary64 values *)

Lemma key_lt_trans k1 k2 k3 : key_lt k1 k2 -> key_lt k2 k3 -> key_lt k1 k3.
Proof.
  destruct k1 as [[a1 b1] c1], k2 as [[a2 b2] c2], k3 as [[a3 b3] c3].
  unfold key_lt. lia.
Qed.

Lemma key_lt_irrefl k : ~ key_lt k k.
Proof. destruct k as [[a b] c]. unfold key_lt. lia. Qed.

Lemma key_lt_total k1 k2 : key_lt k1 k2 \/ k1 = k2 \/ key_lt k2 k1.
Proof.
  destruct k1 as [[a1 b1] c1], k2 as [[a2 b2] c2]. unfold key_lt.
  destruct (Z.lt_trichotomy a1 a2) as [?|[?|?]];
    destruct (Z.lt_trichotomy b1 b2) as [?|[?|?]];
    destruct (Z.lt_trichotomy c1 c2) as [?|[?|?]]; subst; auto; lia.
Qed.

Lemma SFcompare_key x y :
  SFcompare x y =
  match key x, key y with
  | Some k1, Some k2 =>
      Some (match fst (fst k1) ?= fst (fst k2) with
            | Eq => match snd (fst k1) ?= snd (fst k2) with
                    | Eq => snd k1 ?= snd k2
                    | r => r
                    end
            | r => r
            end)
  | _, _ => None
  end.
Proof.
  destruct x as [[|]|[|]| |[|] m e], y as [[|]|[|]| |[|] m' e']; simpl; try reflexivity.
  rewrite Z.compare_opp, (Z.compare_antisym e e').
  destruct (e ?= e'); reflexivity.
Qed.

Lemma flt_key a b :
  flt a b = true <-> exists ka kb, key a = Some ka /\ key b = Some kb /\ key_lt ka kb.
Proof.
  unfold flt, SFltb. rewrite SFcompare_key.
  destruct (key a) as [[[a1 b1] c1]|], (key b) as [[[a2 b2] c2]|]; simpl;
    try (split; [discriminate | intros (? & ? & ? & ? & ?); discriminate]).
  destruct (Z.compare_spec a1 a2); destruct (Z.compare_spec b1 b2);
    destruct (Z.compare_spec c1 c2);
    (split; [intros Hc; try discriminate; do 2 eexists; repeat split; unfold key_lt; lia
            | intros (ka & kb & Ha & Hb & Hl); inversion Ha; inversion Hb; subst;
              unfold key_lt in Hl; try reflexivity; lia]).
Qed.

Lemma fle_key a b :
  fle a b = true <-> exists ka kb, key a = Some ka /\ key b = Some kb /\ key_le ka kb.
Proof.
  unfold fle, SFleb. rewrite SFcompare_key.
  destruct (key a) as [[[a1 b1] c1]|], (key b) as [[[a2 b2] c2]|]; simpl;
    try (split; [discriminate | intros (? & ? & ? & ? & ?); discriminate]).
  destruct (Z.compare_spec a1 a2); destruct (Z.compare_spec b1 b2);
    destruct (Z.compare_spec c1 c2);
    (split; [intros Hc; try discriminate; do 2 eexists;
             (split; [reflexivity|]); (split; [reflexivity|]);
             unfold key_le, key_lt; first [right; subst; reflexivity | left; lia]
            | intros (ka & kb & Ha & Hb & Hl); inversion Ha; inversion Hb; subst;
              unfold key_le, key_lt in Hl; try reflexivity;
              try (destruct Hl as [Hl|Hl]; [lia | inversion Hl; lia])]).
Qed.

Lemma fle_not_fgt a b : fle a b = true -> fgt a b = false.
Proof.
  intros H. destruct (fgt a b) eqn:G; [|reflexivity]. exfalso.
  apply fle_key in H. destruct H as (ka & kb & Ha & Hb & Hl).
  unfold fgt in G. fold (flt b a) in G. apply flt_key in G.
  destruct G as (kb' & ka' & Hb' & Ha' & Hl').
  rewrite Ha in Ha'. rewrite Hb in Hb'. inversion Ha'; inversion Hb'; subst.
  destruct Hl as [Hl|Hl].
  - exact (key_lt_irrefl _ (key_lt_trans _ _ _ Hl Hl')).
  - subst. exact (key_lt_irrefl _ Hl').
Qed.

Lemma fgt_not_fle a b : fgt a b = true -> fle a b = false.
Proof.
  intros H. destruct (fle a b) eqn:G; [|reflexivity].
  apply fle_not_fgt in G. congruence.
Qed.

Lemma flt_fle_trans a b c : flt a b = true -> fle b c = true -> flt a c = true.
Proof.
  intros H1 H2. apply flt_key in H1. apply fle_key in H2. apply flt_key.
  destruct H1 as (ka & kb & Ha & Hb & Hl). destruct H2 as (kb' & kc & Hb' & Hc & Hl').
  rewrite Hb in Hb'. inversion Hb'; subst. exists ka, kc. repeat split; auto.
  destruct Hl' as [Hl'|Hl']; [eapply key_lt_trans; eauto | subst; auto].
Qed.

Lemma fle_flt_trans a b c : fle a b = true -> flt b c = true -> flt a c = true.
Proof.
  intros H1 H2. apply fle_key in H1. apply flt_key in H2. apply flt_key.
  destruct H1 as (ka & kb & Ha & Hb & Hl). destruct H2 as (kb' & kc & Hb' & Hc & Hl').
  rewrite Hb in Hb'. inversion Hb'; subst. exists ka, kc. repeat split; auto.
  destruct Hl as [Hl|Hl]; [eapply key_lt_trans; eauto | subst; auto].
Qed.

Lemma fle_trans a b c : fle a b = true -> fle b c = true -> fle a c = true.
Proof.
  intros H1 H2. apply fle_key in H1. apply fle_key in H2. apply fle_key.
  destruct H1 as (ka & kb & Ha & Hb & Hl). destruct H2 as (kb' & kc & Hb' & Hc & Hl').
  rewrite Hb in Hb'. inversion Hb'; subst. exists ka, kc. repeat split; auto.
  destruct Hl as [Hl|Hl]; destruct Hl' as [Hl'|Hl']; subst;
    unfold key_le; eauto using key_lt_trans.
Qed.

Lemma flt_fle a b : flt a b = true -> fle a b = true.
Proof.
  intros H. apply flt_key in H. apply fle_key.
  destruct H as (ka & kb & Ha & Hb & Hl). exists ka, kb. unfold key_le. auto.
Qed.

Lemma fle_fneg a b : fle a b = true -> fle (fneg b) (fneg a) = true.
Proof.
  intros H. apply fle_key in H. apply fle_key.
  destruct H as (ka & kb & Ha & Hb & Hl).
  destruct a as [[|]|[|]| |[|] m e], b as [[|]|[|]| |[|] m' e']; simpl in *;
    try discriminate; inversion Ha; inversion Hb; subst;
    do 2 eexists; (split; [reflexivity|]); (split; [reflexivity|]);
    unfold key_le, key_lt in *;
    (destruct Hl as [Hl|Hl];
     [left; lia
     | inversion Hl; subst; right;
       try reflexivity; replace e with e' by lia; reflexivity]).
Qed.

(** ** Exceptions, lists and the heap *)

Lemma bind_ok {A B : Type} (r : result A) (k : A -> result B) (b : B) :
  bind r k = Ok b -> exists a, r = Ok a /\ k a = Ok b.
Proof. destruct r as [a|e]; simpl; [eauto | discriminate]. Qed.

Ltac bind_inv H :=
  let a := fresh "v" in
  let E := fresh "E" in
  apply bind_ok in H; destruct H as (a & E & H).

Lemma mapM_length {A B : Type} (f : A -> result B) (l : list A) (r : list B) :
  mapM f l = Ok r -> length r = length l.
Proof.
  revert r. induction l as [|a l IH]; simpl; intros r H.
  - inversion H. reflexivity.
  - bind_inv H. bind_inv H. inversion H; subst. simpl. f_equal. auto.
Qed.

Lemma mapM_In {A B : Type} (f : A -> result B) (l : list A) (r : list B) (b : B) :
  mapM f l = Ok r -> In b r -> exists a, In a l /\ f a = Ok b.
Proof.
  revert r. induction l as [|a l IH]; simpl; intros r H Hin.
  - inversion H; subst. destruct Hin.
  - bind_inv H. bind_inv H. inversion H; subst. destruct Hin as [->|Hin].
    + eauto.
    + destruct (IH _ E0 Hin) as (a' & ? & ?). eauto.
Qed.

Lemma length_arange a b : length (arange a b) = Z.to_nat (b - a).
Proof. unfold arange. rewrite length_map, length_seq. reflexivity. Qed.

Lemma length_replace_nth {A : Type} n (v : A) l :
  length (replace_nth n v l) = length l.
Proof.
  revert n. induction l as [|a l IH]; intros [|n]; simpl; auto.
Qed.

Lemma nth_replace_nth_same {A : Type} n (v d : A) l :
  (n < length l)%nat -> nth n (replace_nth n v l) d = v.
Proof.
  revert n. induction l as [|a l IH]; intros [|n]; simpl; intros H;
    try lia; auto. apply IH. lia.
Qed.

Lemma nth_replace_nth_other {A : Type} n k (v d : A) l :
  n <> k -> nth k (replace_nth n v l) d = nth k l d.
Proof.
  revert n k. induction l as [|a l IH]; intros [|n] [|k]; simpl; intros H;
    try congruence; auto.
Qed.

Lemma load_alloc h a : load (fst (alloc h a)) (snd (alloc h a)) = a.
Proof. unfold load, alloc. simpl. rewrite nth_middle. reflexivity. Qed.

Lemma load_alloc_old h a p :
  (p < length h)%nat -> load (fst (alloc h a)) p = load h p.
Proof. intros H. unfold load, alloc. simpl. apply app_nth1. exact H. Qed.

Lemma load_write_same h p a : (p < length h)%nat -> load (write h p a) p = a.
Proof. apply nth_replace_nth_same. Qed.

Lemma load_write_other h p q a : p <> q -> load (write h p a) q = load h q.
Proof. apply nth_replace_nth_other. Qed.

Lemma length_write h p a : length (write h p a) = length h.
Proof. apply length_replace_nth. Qed.

Lemma getitem_nil {A : Type} (i : Z) : getitem (@nil A) i = Raise IndexError.
Proof.
  unfold getitem. simpl. destruct (i <? 0); destruct (_ <? 0); try reflexivity;
    destruct (Z.to_nat _); reflexivity.
Qed.

(** An array that can be indexed lives at an allocated address. *)
Lemma getitem_load_valid h p i r :
  getitem (load h p) i = Ok r -> (p < length h)%nat.
Proof.
  intros H. destruct (Nat.lt_ge_cases p (length h)) as [?|G]; [assumption|].
  unfold load in H. rewrite nth_overflow in H by exact G.
  rewrite getitem_nil in H. discriminate.
Qed.

Lemma all_exceed_Forall mag thr :
  all_exceed mag thr = true <-> Forall (fun m => fgt m (f32 thr) = true) mag.
Proof.
  unfold all_exceed. rewrite forallb_forall, Forall_forall. reflexivity.
Qed.

(** ** The monitoring test *)

Lemma magnitudes_length L s mag :
  magnitudes L s = Ok mag -> len mag = consecutive (cfg s).
Proof.
  unfold magnitudes, scores. intros H. bind_inv H. inversion H; subst.
  destruct (consecutive (cfg s) <? 0) eqn:C; [discriminate|].
  apply mapM_length in E. unfold len. rewrite length_map, E, length_arange.
  apply Z.ltb_ge in C. lia.
Qed.




(** The values at that point: the cursor, the threshold and its float32
    value, and the norms. *)
Example monitor_threshold_rounded_values :
  let s := value_of (update_model reference_lib (tenth_at 8)) in
  here s = 8 /\ monitoring s = true /\
  threshold (cfg s) = S754_finite false 7205759403792794 (-56) /\
  f32 (threshold (cfg s)) = S754_finite false 13421773 (-27) /\
  magnitudes reference_lib s = Ok (repeat (S754_finite false 13421773 (-27)) 5) /\
  map seg_break (the_record (value_of (monitor reference_lib s))) = [0].
Proof. vm_compute. repeat split; reflexivity. Qed.

(** The example does declare a break, and the step before it does not. *)
Example monitor_example_break :
  n_record (value_of (monitor reference_lib
                        (value_of (update_model reference_lib (example_at 8))))) = 1
  /\ monitor reference_lib (value_of (update_model reference_lib (example_at 7)))
     = Ok (value_of (update_model reference_lib (example_at 7))).
Proof. split; vm_compute; reflexivity. Qed.

(** ** The first test of [train] *)



(** A window of more than a year is passed on to the masking stage. *)
Example train_first_test_proceeds :
  let s := set_here 5 quarterly_year in
  exists span, span_time s = Ok span /\ fgt span ndays = true /\
               n_coef (cfg s) <= span_index s /\
               train reference_lib s = train_masking reference_lib s span.
Proof.
  eexists. split; [vm_compute; reflexivity|].
  split; [vm_compute; reflexivity|]. split; [vm_compute; discriminate|].
  vm_compute; reflexivity.
Qed.


(** ** Construction *)

(** C8. With index sets that pass their check, construction raises the
    not-enough-observations exception exactly when the number of
    observations is below [min_obs + consecutive], and succeeds
    otherwise. *)
Theorem init_not_enough_observations (a : args) (vX vY : matrix)
    (fit test : list Z) (m : Z) :
  check_indices (arg_fit_indices a) (shape0 vY) = Ok fit ->
  check_indices (arg_test_indices a) (shape0 vY) = Ok test ->
  effective_min_obs a vX = Ok m ->
  (init a vX vY = Raise NotEnoughObservations <->
   shape0 vX < m + arg_consecutive a) /\
  (m + arg_consecutive a <= shape0 vX ->
   exists s, init a vX vY = Ok s /\ min_obs (cfg s) = m /\ here s = m /\
             consecutive (cfg s) = arg_consecutive a /\ X s = vX /\ Y s = vY).
Proof.
  intros Hf Ht Hm. unfold init. rewrite Hf, Ht, Hm. simpl.
  destruct (shape0 vX <? m + arg_consecutive a) eqn:C.
  - apply Z.ltb_lt in C. split; [split; auto|]. intros; lia.
  - apply Z.ltb_ge in C. split.
    + split; [discriminate | intros; lia].
    + intros _. eexists. split; [reflexivity|]. simpl. auto.
Qed.

Lemma init_not_enough_observations_witness :
  check_indices (arg_fit_indices default_args) (shape0 (example_Y 15 8)) = Ok (arange 0 5) /\
  check_indices (arg_test_indices default_args) (shape0 (example_Y 15 8)) = Ok (arange 0 5) /\
  effective_min_obs default_args (example_X 15) = Ok 3 /\
  (init default_args (example_X 15) (example_Y 15 8) = Raise NotEnoughObservations <->
   shape0 (example_X 15) < 3 + arg_consecutive default_args) /\
  (3 + arg_consecutive default_args <= shape0 (example_X 15) ->
   exists s, init default_args (example_X 15) (example_Y 15 8) = Ok s /\
             min_obs (cfg s) = 3 /\ here s = 3 /\
             consecutive (cfg s) = arg_consecutive default_args /\
             X s = example_X 15 /\ Y s = example_Y 15 8).
Proof.
  assert (H1 : check_indices (arg_fit_indices default_args) (shape0 (example_Y 15 8))
               = Ok (arange 0 5)) by reflexivity.
  assert (H2 : check_indices (arg_test_indices default_args) (shape0 (example_Y 15 8))
               = Ok (arange 0 5)) by reflexivity.
  assert (H3 : effective_min_obs default_args (example_X 15) = Ok 3)
    by (vm_compute; reflexivity).
  split; [exact H1|]. split; [exact H2|]. split; [exact H3|].
  exact (init_not_enough_observations default_args (example_X 15) (example_Y 15 8)
           (arange 0 5) (arange 0 5) 3 H1 H2 H3).
Defined.

(** Seven observations are too few for the defaults, eight are enough. *)
Example init_boundary :
  init default_args (example_X 7) (example_Y 7 8) = Raise NotEnoughObservations
  /\ exists s, init default_args (example_X 8) (example_Y 8 8) = Ok s.
Proof. split; [vm_compute; reflexivity | eexists; vm_compute; reflexivity]. Qed.

(** C10. The check of an index set compares only its maximum with the
    number of bands: a non-empty set whose maximum is below the number of
    bands is taken as it is, whatever its other elements, so that
    construction does not raise the index error; negative indices are not
    looked at. *)
Theorem init_accepts_indices_below_band_count (a : args) (vX vY : matrix)
    (fi ti : list Z) (mf mt : Z) :
  arg_fit_indices a = Some fi -> arg_test_indices a = Some ti ->
  max_of fi = Ok mf -> mf < shape0 vY ->
  max_of ti = Ok mt -> mt < shape0 vY ->
  check_indices (Some fi) (shape0 vY) = Ok fi /\
  check_indices (Some ti) (shape0 vY) = Ok ti /\
  init a vX vY <> Raise IndexError /\
  (forall s, init a vX vY = Ok s ->
             fit_indices (cfg s) = fi /\ test_indices (cfg s) = ti).
Proof.
  intros Hf Ht Mf Lf Mt Lt.
  assert (Cf : check_indices (Some fi) (shape0 vY) = Ok fi).
  { unfold check_indices. rewrite Mf. simpl. apply Z.ltb_lt in Lf. rewrite Lf. reflexivity. }
  assert (Ct : check_indices (Some ti) (shape0 vY) = Ok ti).
  { unfold check_indices. rewrite Mt. simpl. apply Z.ltb_lt in Lt. rewrite Lt. reflexivity. }
  split; [exact Cf|]. split; [exact Ct|].
  unfold init. rewrite Hf, Ht, Cf, Ct. simpl.
  destruct (effective_min_obs a vX) as [m|e] eqn:M; simpl.
  - destruct (shape0 vX <? m + arg_consecutive a).
    + split; [discriminate | intros s H; discriminate].
    + split; [discriminate|]. intros s H. inversion H; subst. simpl. auto.
  - split; [|intros s H; discriminate].
    unfold effective_min_obs in M. destruct (arg_min_obs a); [discriminate|].
    unfold py_int in M. destruct (f_trunc _); inversion M. discriminate.
Qed.

Lemma init_accepts_indices_witness :
  check_indices (Some [-3; 0; -7]) (shape0 (example_Y 15 8)) = Ok [-3; 0; -7] /\
  check_indices (Some [-1]) (shape0 (example_Y 15 8)) = Ok [-1] /\
  init negative_index_args (example_X 15) (example_Y 15 8) <> Raise IndexError /\
  (forall s, init negative_index_args (example_X 15) (example_Y 15 8) = Ok s ->
             fit_indices (cfg s) = [-3; 0; -7] /\ test_indices (cfg s) = [-1]).
Proof.
  apply (init_accepts_indices_below_band_count negative_index_args
           (example_X 15) (example_Y 15 8) [-3; 0; -7] [-1] 0 (-1));
    try reflexivity.
Defined.

(** ** The multitemporal mask *)

Lemma logical_and_combine a b r :
  logical_and a b = Ok r ->
  length a = length b /\ r = map (fun p => fst p && snd p) (combine a b).
Proof.
  revert b r. induction a as [|x a IH]; intros [|y b] r H; simpl in H;
    try discriminate.
  - inversion H. auto.
  - bind_inv H. inversion H; subst. destruct (IH _ _ E) as [Hl Hr].
    simpl. split; [congruence | rewrite <- Hr; reflexivity].
Qed.

Lemma combine_maps {A B C D : Type} (f : A -> C) (g : B -> D) a b :
  combine (map f a) (map g b) = map (fun p => (f (fst p), g (snd p))) (combine a b).
Proof.
  revert b. induction a as [|x a IH]; intros [|y b]; simpl; auto.
  f_equal. apply IH.
Qed.

Lemma logical_and_monotone (g sw : list float) (c1 c2 : float) m1 :
  fle c1 c2 = true ->
  logical_and (map (fun r => flt r c1) g) (map (fun r => fgt r (fneg c1)) sw) = Ok m1 ->
  exists m2,
    logical_and (map (fun r => flt r c2) g) (map (fun r => fgt r (fneg c2)) sw) = Ok m2 /\
    Forall2 (fun b1 b2 => b1 = true -> b2 = true) m1 m2.
Proof.
  intros Hc. revert sw m1. induction g as [|x g IH]; intros [|y sw] m1 H;
    simpl in H; try discriminate.
  - inversion H; subst. exists []. split; [reflexivity | constructor].
  - bind_inv H. inversion H; subst. destruct (IH _ _ E) as (m2 & E2 & F).
    exists ((flt x c2 && fgt y (fneg c2)) :: m2). simpl. rewrite E2. simpl.
    split; [reflexivity|]. constructor; [|exact F].
    intros B. apply andb_true_iff in B. destruct B as [B1 B2].
    apply andb_true_iff. split.
    + eapply flt_fle_trans; eauto.
    + unfold fgt in *. fold (flt (fneg c1) y) in B2. fold (flt (fneg c2) y).
      eapply fle_flt_trans; [apply fle_fneg; exact Hc | exact B2].
Qed.

(** C7. For one window of times and responses, the residuals of the two
    robust regressions do not depend on the critical value; an
    observation is retained exactly when its green residual is below
    [crit] and its shortwave-infrared residual is above [-crit]; hence
    every observation retained with [c1] is retained with any [c2] at
    least [c1]. *)
Theorem multitemp_mask_monotone (L : numlib) (x : list float) (vY : matrix)
    (n_year c1 c2 : float) (green swir1 : Z) (m1 : list bool) :
  fle c1 c2 = true ->
  multitemp_mask L x vY n_year c1 green swir1 = Ok m1 ->
  exists green_resid swir1_resid m2,
    multitemp_mask L x vY n_year c2 green swir1 = Ok m2 /\
    m1 = map (fun p => flt (fst p) c1 && fgt (snd p) (fneg c1))
             (combine green_resid swir1_resid) /\
    m2 = map (fun p => flt (fst p) c2 && fgt (snd p) (fneg c2))
             (combine green_resid swir1_resid) /\
    Forall2 (fun b1 b2 => b1 = true -> b2 = true) m1 m2.
Proof.
  intros Hc H. unfold multitemp_mask in *.
  bind_inv H. rename v into yg. bind_inv H. rename v into ys.
  rewrite E, E0. simpl.
  destruct (logical_and_monotone _ _ _ _ _ Hc H) as (m2 & E2 & F).
  exists (rlm_resid L yg (mask_design L x n_year)),
         (rlm_resid L ys (mask_design L x n_year)), m2.
  split; [exact E2|].
  apply logical_and_combine in H. apply logical_and_combine in E2.
  destruct H as [_ H], E2 as [_ E2]. rewrite combine_maps in H, E2.
  rewrite map_map in H, E2. simpl in H, E2. auto.
Qed.

Lemma multitemp_mask_monotone_witness :
  let x := [of_int 730000; of_int 730100; of_int 730200] in
  let vY := [ repeat f0 3; [f0; of_int 450; of_int 100]; repeat f0 3; repeat f0 3;
              [f0; f0; of_int (-450)] ] in
  fle (of_int 400) (of_int 500) = true /\
  multitemp_mask reference_lib x vY (of_int 1) (of_int 400) green_band swir1_band
  = Ok [true; false; false] /\
  exists green_resid swir1_resid m2,
    multitemp_mask reference_lib x vY (of_int 1) (of_int 500) green_band swir1_band = Ok m2 /\
    [true; false; false]
    = map (fun p => flt (fst p) (of_int 400) && fgt (snd p) (fneg (of_int 400)))
          (combine green_resid swir1_resid) /\
    m2 = map (fun p => flt (fst p) (of_int 500) && fgt (snd p) (fneg (of_int 500)))
             (combine green_resid swir1_resid) /\
    Forall2 (fun b1 b2 => b1 = true -> b2 = true) [true; false; false] m2.
Proof.
  intros x vY.
  assert (H1 : fle (of_int 400) (of_int 500) = true) by (vm_compute; reflexivity).
  assert (H2 : multitemp_mask reference_lib x vY (of_int 1) (of_int 400)
                 green_band swir1_band = Ok [true; false; false])
    by (vm_compute; reflexivity).
  split; [exact H1|]. split; [exact H2|].
  exact (multitemp_mask_monotone reference_lib x vY (of_int 1) (of_int 400)
           (of_int 500) green_band swir1_band [true; false; false] H1 H2).
Defined.

(** ** The denominator of the normalized residuals *)

(** Rounding never lowers the exponent and never leaves it below [emin]. *)
Lemma shr_exponent mrs e n : e <= snd (shr mrs e n).
Proof. destruct n; simpl; lia. Qed.

Lemma shr_fexp_exponent p em m e l :
  e <= snd (shr_fexp p em m e l) /\ emin p em <= snd (shr_fexp p em m e l).
Proof.
  unfold shr_fexp. split; [apply shr_exponent|].
  unfold shr, fexp.
  destruct (Z.max (Zdigits2 m + e - p) (emin p em) - e) eqn:D; simpl; lia.
Qed.

Lemma binary_round_aux_exponent p em sx mx ex lx s m e :
  binary_round_aux p em sx mx ex lx = S754_finite s m e ->
  ex <= e /\ emin p em <= e.
Proof.
  unfold binary_round_aux.
  destruct (shr_fexp p em mx ex lx) as [mrs' e'] eqn:S1.
  destruct (shr_fexp p em _ e' loc_Exact) as [mrs'' e''] eqn:S2.
  pose proof (shr_fexp_exponent p em mx ex lx) as [A1 _]. rewrite S1 in A1.
  pose proof (shr_fexp_exponent p em
                (round_nearest_even (shr_m mrs') (loc_of_shr_record mrs'))
                e' loc_Exact) as [A2 B2].
  rewrite S2 in A2, B2. simpl in *.
  destruct (shr_m mrs''); try discriminate.
  destruct (e'' <=? em - p); intros H; inversion H; subst. lia.
Qed.

(** The exponent of a finite quotient is at least -1074. *)
Lemma fdiv_exponent a b s m e : fdiv a b = S754_finite s m e -> -1074 <= e.
Proof.
  unfold fdiv, SFdiv.
  destruct a as [?|?| |sa ma ea], b as [?|?| |sb mb eb]; try discriminate.
  destruct (SFdiv_core_binary prec emax (Z.pos ma) ea (Z.pos mb) eb) as [[mz ez] lz].
  intros H. apply binary_round_aux_exponent in H. unfold emin, prec, emax in H. lia.
Qed.

(** The square root of a float whose exponent is at least -1074 is zero,
    NaN, infinite, or has an exponent of at least -589. *)
Lemma fsqrt_exponent x s m e :
  (forall sx mx ex, x = S754_finite sx mx ex -> -1074 <= ex) ->
  fsqrt x = S754_finite s m e -> -589 <= e.
Proof.
  intros Hx. unfold fsqrt, SFsqrt.
  destruct x as [?|[|]| |[|] mx ex]; try discriminate.
  specialize (Hx false mx ex eq_refl).
  unfold SFsqrt_core_binary.
  set (e' := Z.min _ _).
  assert (He' : -589 <= e').
  { subst e'. unfold fexp, emin, prec, emax. rewrite !Z.div2_div.
    assert (0 < Zdigits2 (Z.pos mx)) by (simpl; lia).
    assert (-536 <= (Zdigits2 (Z.pos mx) + ex + 1) / 2)
      by (apply Z.div_le_lower_bound; lia).
    assert (-537 <= ex / 2) by (apply Z.div_le_lower_bound; lia).
    lia. }
  destruct (Z.sqrtrem _) as [q r].
  intros H. apply binary_round_aux_exponent in H. lia.
Qed.

(** A positive finite float with an exponent above -1074, or the positive
    infinity, is greater than [sys.float_info.min]. *)
Lemma above_float_info_min x :
  flt f0 x = true ->
  (forall s m e, x = S754_finite s m e -> -1074 < e) ->
  fgt x float_info_min = true.
Proof.
  intros Hp He. destruct x as [?|[|]| |[|] m e]; try discriminate; try reflexivity.
  specialize (He false m e eq_refl).
  unfold fgt, float_info_min, SFltb, SFcompare.
  apply Z.compare_lt_iff in He. rewrite He. reflexivity.
Qed.

(** The RMSE of a fitted model, when positive, exceeds the default floor. *)
Lemma finish_fit_rmse L c_ i_ vX y m :
  finish_fit L c_ i_ vX y = Ok m ->
  flt f0 (rmse m) = true -> fgt (rmse m) float_info_min = true.
Proof.
  intros H Hp. unfold finish_fit in H.
  bind_inv H. bind_inv H. bind_inv H. inversion H; subst m; clear H.
  simpl in *. unfold math_sqrt in E1.
  destruct (flt _ f0); [discriminate|]. inversion E1; subst v1; clear E1.
  apply above_float_info_min; [exact Hp|].
  intros s m e Hs. apply fsqrt_exponent in Hs; [lia|].
  intros sx mx ex Hd. eapply fdiv_exponent; eauto.
Qed.

Lemma fit_models_rmse L s vX vY bands ms m :
  fit_models L s vX vY bands = Ok ms -> In m ms ->
  flt f0 (rmse m) = true -> fgt (rmse m) float_info_min = true.
Proof.
  unfold fit_models, fit_models_LassoCV, fit_models_GLMnet.
  intros H Hin. destruct (lassocv (cfg s));
    (destruct (mapM_In _ _ _ _ H Hin) as (b & _ & Hb);
     bind_inv Hb; bind_inv Hb; bind_inv Hb;
     eapply finish_fit_rmse; eauto).
Qed.

Lemma fle_refl a : key a <> None -> fle a a = true.
Proof.
  intros H. apply fle_key. destruct (key a) as [k|] eqn:K; [|congruence].
  exists k, k. unfold key_le. auto.
Qed.

Lemma pymax_floor a b : key a <> None -> fle a (pymax a b) = true.
Proof.
  intros H. unfold pymax. destruct (fgt b a) eqn:G.
  - apply flt_fle. exact G.
  - apply fle_refl. exact H.
Qed.

Lemma mapM_Forall {A B : Type} (f : A -> result B) (P : B -> Prop) l r :
  mapM f l = Ok r ->
  (forall a b, In a l -> f a = Ok b -> P b) -> Forall P r.
Proof.
  intros H HP. apply Forall_forall. intros b Hb.
  destruct (mapM_In _ _ _ _ H Hb) as (a & Ha & Hf). eauto.
Qed.

Lemma getitem_In {A : Type} (l : list A) i a : getitem l i = Ok a -> In a l.
Proof.
  unfold getitem. destruct (_ <? 0); [discriminate|].
  destruct (nth_error l _) eqn:E; intros H; inversion H; subst.
  eapply nth_error_In; eauto.
Qed.

Lemma normalized_residual_denominator L s vX vY m b i r :
  normalized_residual L s vX vY m b i = Ok r ->
  exists num, r = fdiv num (pymax (min_rmse (cfg s)) (rmse m)).
Proof.
  unfold normalized_residual. intros H. bind_inv H. bind_inv H.
  inversion H; subst. eexists. reflexivity.
Qed.



(** The default floor at work: a model with RMSE zero is divided by
    [sys.float_info.min], one with a positive RMSE by its RMSE. *)
Example default_floor_examples :
  pymax float_info_min f0 = float_info_min /\
  pymax float_info_min (fsqrt (S754_finite false 1 (-1074)))
  = S754_finite false (2 ^ 52) (-589).
Proof. split; vm_compute; reflexivity. Qed.

(** ** The effect of each operation on the instance *)

Lemma update_open_record_heap f s s' :
  update_open_record f s = Ok s' ->
  exists r r' rs,
    getitem (the_record s) (n_record s) = Ok r /\ f r = Ok r' /\
    setitem (the_record s) (n_record s) r' = Ok rs /\
    s' = set_heap (write (heap s) (record s) rs) s.
Proof.
  unfold update_open_record. intros H. bind_inv H. bind_inv H. bind_inv H.
  inversion H; subst. eauto 8.
Qed.

(** The outcomes of [train]: nothing done; or the window has been masked
    and the attempt is given up for want of time, judged unstable, or
    judged stable. *)
Lemma train_cases L s s' :
  train L s = Ok s' ->
  s' = s \/
  exists span mask index window mX mY,
    span_time s = Ok span /\
    fle span ndays = false /\ n_coef (cfg s) <= span_index s /\
    train_mask L s span = Ok (mask, index) /\
    take mask index = Ok window /\
    let si := count_true (slice_to_neg window (consecutive (cfg s))) in
    min_obs (cfg s) <= si /\
    compress mask (X s) = Ok mX /\ compress_columns (Y s) mask = Ok mY /\
    let s3 := set_here (start s + si - 1) (set__here (here s) (set__XY mX mY s)) in
    (s' = set_here (here s) s3 \/
     s' = set_here (here s) (set_start (start s + 1) s3) \/
     s' = set_monitoring true (set_XY mX mY s3)).
Proof.
  unfold train. intros H. bind_inv H. rename v into span.
  destruct (fle span ndays) eqn:G1; simpl in H; [inversion H; auto|].
  destruct (span_index s <? n_coef (cfg s)) eqn:G2; [inversion H; auto|].
  apply Z.ltb_ge in G2.
  unfold train_masking in H. bind_inv H. destruct v as [mask index].
  bind_inv H. rename v into window.
  destruct (_ <? min_obs (cfg s)) eqn:G3; [inversion H; auto|].
  apply Z.ltb_ge in G3.
  bind_inv H. rename v into mX. bind_inv H. rename v into mY.
  bind_inv H. rename v into span'.
  right. exists span, mask, index, window, mX, mY.
  repeat (split; [assumption|]). simpl.
  destruct (flt span' ndays).
  - inversion H. left. reflexivity.
  - bind_inv H. bind_inv H. destruct v0; inversion H; auto.
Qed.

Lemma update_model_frame L s s' :
  update_model L s = Ok s' ->
  cfg s' = cfg s /\ X s' = X s /\ Y s' = Y s /\ start s' = start s /\
  here s' = here s /\ monitoring s' = monitoring s /\ ran s' = ran s /\
  n_record s' = n_record s /\ record s' = record s.
Proof.
  unfold update_model. intros H. bind_inv H.
  destruct (fgt _ ndays).
  - bind_inv H. bind_inv H. bind_inv H. bind_inv H. bind_inv H.
    inversion H; subst s'; clear H.
    apply update_open_record_heap in E2, E3, E4.
    destruct E2 as (? & ? & ? & _ & _ & _ & ->).
    destruct E3 as (? & ? & ? & _ & _ & _ & ->).
    destruct E4 as (? & ? & ? & _ & _ & _ & ->).
    simpl. repeat split; reflexivity.
  - apply update_open_record_heap in H.
    destruct H as (? & ? & ? & _ & _ & _ & ->). simpl. repeat split; reflexivity.
Qed.

Lemma monitor_frame L s s' :
  monitor L s = Ok s' ->
  cfg s' = cfg s /\ X s' = X s /\ Y s' = Y s /\ here s' = here s /\ ran s' = ran s.
Proof.
  unfold monitor. intros H. bind_inv H.
  destruct (all_exceed _ _); [|inversion H; subst; repeat split; reflexivity].
  bind_inv H. bind_inv H. inversion H; subst s'; clear H.
  apply update_open_record_heap in E1.
  destruct E1 as (? & ? & ? & _ & _ & _ & ->). simpl. repeat split; reflexivity.
Qed.

Lemma robust_record_frame L s s' p :
  robust_record L s = Ok (p, s') ->
  exists h, s' = set_heap h s.
Proof.
  unfold robust_record. intros H. destruct (negb (ran s)).
  - injection H as Hp Hs. subst s'. exists (heap s). destruct s; reflexivity.
  - simpl in H. bind_inv H. injection H as Hp Hs. subst s'. eauto.
Qed.

Lemma train_frame L s s' :
  train L s = Ok s' ->
  cfg s' = cfg s /\
  ((X s' = X s /\ Y s' = Y s /\ monitoring s' = monitoring s) \/
   (monitoring s' = true /\
    exists span mask index,
      span_time s = Ok span /\ train_mask L s span = Ok (mask, index) /\
      compress mask (X s) = Ok (X s') /\ compress_columns (Y s) mask = Ok (Y s'))).
Proof.
  intros H. apply train_cases in H. destruct H as [->|H]; [auto|].
  destruct H as (span & mask & index & window & mX & mY & Hs & _ & _ & Hm & _ & H).
  simpl in H. destruct H as (_ & HX & HY & [-> | [-> | ->]]); simpl;
    (split; [reflexivity|]); auto.
  right. split; [reflexivity|]. exists span, mask, index. auto.
Qed.

Lemma operation_reduction L s t :
  operation L s t ->
  cfg t = cfg s /\
  ((X t = X s /\ Y t = Y s) \/
   exists mask, compress mask (X s) = Ok (X t) /\ compress_columns (Y s) mask = Ok (Y t)).
Proof.
  assert (T : forall s t, train L s = Ok t ->
    cfg t = cfg s /\
    ((X t = X s /\ Y t = Y s) \/
     exists mask, compress mask (X s) = Ok (X t) /\ compress_columns (Y s) mask = Ok (Y t))).
  { intros a b H. apply train_frame in H. destruct H as [Hc [(? & ? & _)|(_ & H)]]; auto.
    destruct H as (? & mask & ? & _ & _ & ? & ?). split; [auto|]. right. eauto. }
  assert (U : forall s t, update_model L s = Ok t -> cfg t = cfg s /\ X t = X s /\ Y t = Y s).
  { intros a b H. apply update_model_frame in H. tauto. }
  assert (M : forall s t, monitor L s = Ok t -> cfg t = cfg s /\ X t = X s /\ Y t = Y s).
  { intros a b H. apply monitor_frame in H. tauto. }
  intros H. destruct H as [a b H|a b H|a b H|a|c c' a b H|a b p H|a].
  - auto.
  - apply U in H. tauto.
  - apply M in H. tauto.
  - simpl. auto.
  - destruct c; simpl in H.
    + destruct (running a); inversion H; subst; simpl; auto.
    + destruct (negb (monitoring a) && can_monitor a).
      * bind_inv H. inversion H; subst. simpl. auto.
      * inversion H; subst. auto.
    + destruct (monitoring a && can_monitor a).
      * bind_inv H. bind_inv H. inversion H; subst. simpl.
        apply U in E. apply M in E0.
        destruct E as (? & ? & ?), E0 as (? & ? & ?). split; [congruence|].
        left. split; congruence.
      * inversion H; subst. auto.
    + inversion H; subst. simpl. auto.
    + inversion H; subst. auto.
  - apply robust_record_frame in H. destruct H as (h & ->). simpl. auto.
  - simpl. auto.
Qed.

Lemma operations_reduction L s t :
  operations L s t -> cfg t = cfg s /\ reduction (X s) (Y s) (X t) (Y t).
Proof.
  induction 1 as [s|s t u _ [IHc IH] Hop].
  - split; [reflexivity | constructor].
  - apply operation_reduction in Hop. destruct Hop as [Hc [[HX HY]|(mask & HX & HY)]].
    + rewrite HX, HY. split; [congruence | exact IH].
    + split; [congruence|]. econstructor; eauto.
Qed.

(** ** The observations kept by the instance *)

(** C9. When [train] judges a window stable and switches to monitoring,
    the [X] and [Y] of the instance become their masked subsets.  Whatever
    is called afterwards works on what is stored then: [update_model],
    [monitor], [robust_record], [reset] and the cursor steps leave [X] and
    [Y] as they are, a later [train] can only mask them further, and
    [reset] puts back the cursor, the record store and the [ran] flag, not
    the observations. *)
Theorem train_replaces_observations (L : numlib) (s s' : yatsm) :
  train L s = Ok s' -> monitoring s = false -> monitoring s' = true ->
  (exists span mask index,
      span_time s = Ok span /\ train_mask L s span = Ok (mask, index) /\
      compress mask (X s) = Ok (X s') /\ compress_columns (Y s) mask = Ok (Y s')) /\
  (forall t, operations L s' t -> reduction (X s') (Y s') (X t) (Y t)) /\
  (forall t u, operations L s' t ->
     update_model L t = Ok u \/ monitor L t = Ok u \/
     (exists p, robust_record L t = Ok (p, u)) \/ u = incr_here t \/ u = reset t ->
     X u = X t /\ Y u = Y t) /\
  (forall t, operations L s' t ->
     X (reset t) = X t /\ Y (reset t) = Y t /\
     start (reset t) = 0 /\ here (reset t) = min_obs (cfg t) /\
     _here (reset t) = min_obs (cfg t) /\ n_record (reset t) = 0 /\
     the_record (reset t) = [record_template (cfg t)] /\ ran (reset t) = false).
Proof.
  intros H M0 M1. split; [|split; [|split]].
  - apply train_frame in H. destruct H as [_ [(_ & _ & E)|(_ & H)]]; [congruence|].
    exact H.
  - intros t Ht. apply operations_reduction in Ht. tauto.
  - intros t u _ [Hu|[Hu|[(p & Hu)|[->| ->]]]].
    + apply update_model_frame in Hu. tauto.
    + apply monitor_frame in Hu. tauto.
    + apply robust_record_frame in Hu. destruct Hu as (h & ->). simpl. auto.
    + simpl. auto.
    + simpl. auto.
  - intros t _. simpl. repeat split; try reflexivity.
    unfold the_record, reset, bind_record. simpl. unfold load. apply nth_middle.
Qed.

Lemma train_replaces_observations_witness :
  let s := noisy_at 4 in
  let s' := value_of (train reference_lib s) in
  train reference_lib s = Ok s' /\ monitoring s = false /\ monitoring s' = true /\
  len (X s) = 15 /\ len (X s') = 14 /\
  (exists span mask index,
      span_time s = Ok span /\ train_mask reference_lib s span = Ok (mask, index) /\
      compress mask (X s) = Ok (X s') /\ compress_columns (Y s) mask = Ok (Y s')) /\
  (forall t, operations reference_lib s' t -> reduction (X s') (Y s') (X t) (Y t)) /\
  (forall t u, operations reference_lib s' t ->
     update_model reference_lib t = Ok u \/ monitor reference_lib t = Ok u \/
     (exists p, robust_record reference_lib t = Ok (p, u)) \/
     u = incr_here t \/ u = reset t ->
     X u = X t /\ Y u = Y t) /\
  (forall t, operations reference_lib s' t ->
     X (reset t) = X t /\ Y (reset t) = Y t /\
     start (reset t) = 0 /\ here (reset t) = min_obs (cfg t) /\
     _here (reset t) = min_obs (cfg t) /\ n_record (reset t) = 0 /\
     the_record (reset t) = [record_template (cfg t)] /\ ran (reset t) = false).
Proof.
  intros s s'.
  assert (H1 : train reference_lib s = Ok s') by (vm_compute; reflexivity).
  assert (H2 : monitoring s = false) by (vm_compute; reflexivity).
  assert (H3 : monitoring s' = true) by (vm_compute; reflexivity).
  split; [exact H1|]. split; [exact H2|]. split; [exact H3|].
  split; [vm_compute; reflexivity|]. split; [vm_compute; reflexivity|].
  exact (train_replaces_observations reference_lib s s' H1 H2 H3).
Defined.

(** ** Indexed reads and writes *)

Lemma getitem_pos {A : Type} (l : list A) i a :
  getitem l i = Ok a -> nth_error l (index_pos l i) = Some a.
Proof.
  unfold getitem, index_pos. destruct (_ <? 0) eqn:N; [discriminate|].
  destruct (nth_error l _) eqn:E; intros H; inversion H; subst. reflexivity.
Qed.

Lemma setitem_pos {A : Type} (l : list A) i v l' :
  setitem l i v = Ok l' ->
  l' = replace_nth (index_pos l i) v l /\ (index_pos l i < length l)%nat.
Proof.
  unfold setitem, index_pos, len.
  destruct ((_ <? 0) || _) eqn:N; [discriminate|].
  apply orb_false_iff in N. destruct N as [N1 N2].
  apply Z.ltb_ge in N1. apply Z.leb_gt in N2.
  intros H; inversion H; subst. split; [reflexivity | lia].
Qed.

Lemma nth_error_replace_nth_same {A : Type} n (v : A) l :
  (n < length l)%nat -> nth_error (replace_nth n v l) n = Some v.
Proof.
  revert n. induction l as [|a l IH]; intros [|n]; simpl; intros H;
    try lia; auto. apply IH. lia.
Qed.

Lemma nth_error_replace_nth_other {A : Type} n k (v : A) l :
  n <> k -> nth_error (replace_nth n v l) k = nth_error l k.
Proof.
  revert n k. induction l as [|a l IH]; intros [|n] [|k]; simpl; intros H;
    try congruence; auto.
Qed.

Lemma index_pos_length {A B : Type} (l : list A) (l' : list B) i :
  length l' = length l -> index_pos l' i = index_pos l i.
Proof. unfold index_pos, len. intros ->. reflexivity. Qed.

Lemma same_off_refl W M : same_off W M M.
Proof. split; [reflexivity|]. intros j row H. exists row. auto. Qed.

Lemma same_off_trans W M1 M2 M3 :
  same_off W M1 M2 -> same_off W M2 M3 -> same_off W M1 M3.
Proof.
  intros [L1 H1] [L2 H2]. split; [congruence|].
  intros j row Hj. destruct (H1 _ _ Hj) as (row2 & Hj2 & Ll2 & E2).
  destruct (H2 _ _ Hj2) as (row3 & Hj3 & Ll3 & E3).
  exists row3. split; [exact Hj3|]. split; [congruence|].
  intros k Hk. rewrite E3, E2; auto.
Qed.

Lemma same_off_weaken (W W' : nat -> nat -> Prop) M M' :
  (forall j k, W j k -> W' j k) -> same_off W M M' -> same_off W' M M'.
Proof.
  intros HW [Hl H]. split; [exact Hl|]. intros j row Hj.
  destruct (H _ _ Hj) as (row' & ? & ? & E). exists row'. repeat split; auto.
Qed.

(** One write [M[j0][k0] = v]. *)
Lemma write_entry_same_off (M : matrix) j0 k0 v row row2 M2 :
  getitem M j0 = Ok row -> setitem row k0 v = Ok row2 ->
  setitem M j0 row2 = Ok M2 ->
  same_off (fun j k => j = index_pos M j0 /\ k = index_pos row k0) M M2.
Proof.
  intros Hg Hs Hm. apply getitem_pos in Hg.
  apply setitem_pos in Hs. destruct Hs as [-> Hk].
  apply setitem_pos in Hm. destruct Hm as [-> Hj].
  split; [apply length_replace_nth|].
  intros j r Hr. destruct (Nat.eq_dec (index_pos M j0) j) as [<-|N].
  - rewrite nth_error_replace_nth_same by exact Hj.
    rewrite Hg in Hr. inversion Hr; subst r.
    eexists. split; [reflexivity|]. split; [apply length_replace_nth|].
    intros k Hk'. apply nth_error_replace_nth_other. intros <-. apply Hk'. auto.
  - rewrite nth_error_replace_nth_other by exact N.
    exists r. auto.
Qed.

Lemma mapM_nth {A B : Type} (f : A -> result B) l r n b :
  mapM f l = Ok r -> nth_error r n = Some b ->
  exists a, nth_error l n = Some a /\ f a = Ok b.
Proof.
  revert r n. induction l as [|a l IH]; simpl; intros r n H Hn.
  - inversion H; subst. destruct n; discriminate.
  - bind_inv H. bind_inv H. inversion H; subst. destruct n as [|n]; simpl in *.
    + inversion Hn; subst. eauto.
    + eauto.
Qed.

Lemma where_aux_In j i mask :
  In j (where_aux i mask) ->
  exists n, j = i + Z.of_nat n /\ nth_error mask n = Some true.
Proof.
  revert i. induction mask as [|b mask IH]; simpl; intros i H; [destruct H|].
  destruct b.
  - destruct H as [<-|H].
    + exists 0%nat. split; [lia | reflexivity].
    + destruct (IH _ H) as (n & -> & Hn). exists (S n). split; [lia | exact Hn].
  - destruct (IH _ H) as (n & -> & Hn). exists (S n). split; [lia | exact Hn].
Qed.

Lemma index_pos_nonneg {A : Type} (l : list A) n : index_pos l (Z.of_nat n) = n.
Proof.
  unfold index_pos. destruct (Z.of_nat n <? 0) eqn:N; [apply Z.ltb_lt in N; lia|].
  apply Nat2Z.id.
Qed.

(** The writes of [put_column] fall on column [j] of the listed rows. *)
Lemma put_entries_same_off (j : Z) (kvs : list (Z * float)) (M M' : matrix) :
  foldM (fun M' kv =>
           row <- getitem M' (fst kv) ;;
           row' <- setitem row j (f32 (snd kv)) ;;
           setitem M' (fst kv) row') kvs M = Ok M' ->
  same_off (fun a b => exists jz row, In jz (map fst kvs) /\ a = index_pos M jz /\
                                      nth_error M a = Some row /\ b = index_pos row j)
           M M'.
Proof.
  revert M. induction kvs as [|kv kvs IH]; simpl; intros M H.
  - inversion H; subst. apply same_off_refl.
  - bind_inv H. rename v into M1. bind_inv E. rename v into row.
    bind_inv E. rename v into row2.
    pose proof (write_entry_same_off _ _ _ _ _ _ _ E0 E1 E) as S1.
    specialize (IH _ H).
    eapply same_off_trans.
    + eapply same_off_weaken; [|exact S1]. intros a b [-> ->].
      exists (fst kv), row. split; [left; reflexivity|]. split; [reflexivity|].
      split; [apply getitem_pos; exact E0 | reflexivity].
    + eapply same_off_weaken; [|exact IH]. intros a b (jz & row1 & Hin & -> & Hr & ->).
      destruct S1 as [Sl Sr].
      assert (Hlt : (index_pos M1 jz < length M)%nat).
      { rewrite <- Sl. apply nth_error_Some. congruence. }
      destruct (nth_error M (index_pos M1 jz)) as [row0|] eqn:R0;
        [|apply nth_error_None in R0; lia].
      destruct (Sr _ _ R0) as (row1' & Hr' & Hlen & _).
      rewrite Hr in Hr'. inversion Hr'; subst row1'.
      exists jz, row0. split; [right; exact Hin|].
      split; [apply index_pos_length; exact Sl|].
      split; [reflexivity | apply index_pos_length; exact Hlen].
Qed.

Lemma zeros_kept_refl M : zeros_kept M M.
Proof. split; [reflexivity|]. intros j row H. exists row. auto. Qed.

Lemma zeros_kept_trans M1 M2 M3 :
  zeros_kept M1 M2 -> zeros_kept M2 M3 -> zeros_kept M1 M3.
Proof.
  intros [L1 H1] [L2 H2]. split; [congruence|].
  intros j row Hj. destruct (H1 _ _ Hj) as (row2 & Hj2 & Ll2 & E2).
  destruct (H2 _ _ Hj2) as (row3 & Hj3 & Ll3 & E3).
  exists row3. split; [exact Hj3|]. split; [congruence|]. eauto.
Qed.

(** [coef[nonzero, i_b] = params] leaves the zero entries alone. *)
Lemma put_column_zeros_kept (M : matrix) (i_b : Z) col vals M' :
  column M i_b = Ok col ->
  put_column M (np_where (map (fun c => fne c f0) col)) i_b vals = Ok M' ->
  zeros_kept M M'.
Proof.
  intros Hc Hp. unfold put_column in Hp. bind_inv Hp.
  apply put_entries_same_off in Hp. destruct Hp as [Hl Hs].
  split; [exact Hl|]. intros j row Hj.
  destruct (Hs _ _ Hj) as (row' & Hj' & Hlen & Hoff).
  exists row'. split; [exact Hj'|]. split; [exact Hlen|].
  intros k c Hk Hz. rewrite Hoff; [exact Hk|].
  intros (jz & row0 & Hin & -> & Hr & ->).
  rewrite Hj in Hr. inversion Hr; subst row0; clear Hr.
  assert (Hin' : In jz (np_where (map (fun c => fne c f0) col))).
  { apply in_map_iff in Hin. destruct Hin as ([a b] & <- & Hin).
    eapply in_combine_l; eauto. }
  apply where_aux_In in Hin'. destruct Hin' as (n & -> & Hn). simpl in *.
  rewrite index_pos_nonneg in *.
  rewrite nth_error_map in Hn. destruct (nth_error col n) as [c'|] eqn:C; [|discriminate].
  simpl in Hn. inversion Hn as [Hne].
  unfold column in Hc. destruct (mapM_nth _ _ _ _ _ Hc C) as (row1 & Hr1 & Hg).
  rewrite Hj in Hr1. inversion Hr1; subst row1.
  apply getitem_pos in Hg. rewrite Hk in Hg. inversion Hg; subst c'. congruence.
Qed.

(** ** The robust refit *)

Lemma Forall2_replace_nth {A B : Type} (R : A -> B -> Prop) l l' n b b' :
  Forall2 R l l' -> nth_error l' n = Some b ->
  (forall a, nth_error l n = Some a -> R a b -> R a b') ->
  Forall2 R l (replace_nth n b' l').
Proof.
  intros F. revert n. induction F as [|a c l l' Hac F IH]; intros n Hn HR.
  - destruct n; discriminate.
  - destruct n as [|n]; simpl in *.
    + inversion Hn; subst. constructor; [apply HR; auto | exact F].
    + constructor; [exact Hac | apply IH; auto].
Qed.

Lemma refit_of_refl orig : refit_of orig orig.
Proof.
  induction orig as [|o orig IH]; constructor; [|exact IH].
  split; [apply zeros_kept_refl | auto].
Qed.

Lemma refit_heap_write h0 orig h rs :
  refit_heap h0 orig h -> refit_of orig rs ->
  refit_heap h0 orig (write h (length h0) rs).
Proof.
  intros (Hl & Ho & Hr) Hrs. split; [rewrite length_write; exact Hl|]. split.
  - intros p Hp. rewrite load_write_other by lia. auto.
  - rewrite load_write_same by lia. exact Hrs.
Qed.

Lemma refit_of_setitem orig cur i r r' rs :
  refit_of orig cur -> getitem cur i = Ok r -> setitem cur i r' = Ok rs ->
  (forall o, refit_entry o r -> refit_entry o r') ->
  refit_of orig rs.
Proof.
  intros F Hg Hs HR. apply getitem_pos in Hg. apply setitem_pos in Hs.
  destruct Hs as [-> _]. eapply Forall2_replace_nth; eauto.
Qed.

Lemma refit_band_heap L vX vY n h0 orig i h ib h' :
  refit_band L vX vY n (length h0) i h ib = Ok h' ->
  refit_heap h0 orig h -> refit_heap h0 orig h'.
Proof.
  unfold refit_band. destruct ib as [i_b b]. intros H I.
  bind_inv H. rename v into r. bind_inv H. rename v into col.
  destruct (len _ =? 0); [inversion H; subst; exact I|].
  bind_inv H. bind_inv H. bind_inv H. rename v1 into c'.
  bind_inv H. rename v1 into rs1. bind_inv H. bind_inv H. rename v2 into r2.
  bind_inv H. rename v2 into e'. bind_inv H. rename v2 into rs2.
  inversion H; subst h'; clear H.
  assert (I1 : refit_heap h0 orig (write h (length h0) rs1)).
  { apply refit_heap_write; [exact I|].
    destruct I as (_ & _ & F).
    eapply refit_of_setitem; [exact F | exact E | exact E4|].
    intros o (Z1 & D1 & D2 & D3). split; [|simpl; auto].
    simpl. eapply zeros_kept_trans; [exact Z1|].
    eapply put_column_zeros_kept; eauto. }
  apply refit_heap_write; [exact I1|].
  destruct I1 as (_ & _ & F).
  eapply refit_of_setitem; [exact F | exact E6 | exact E8|].
  intros o (Z1 & D1 & D2 & D3). split; simpl; auto.
Qed.

Lemma foldM_invariant {A B : Type} (P : A -> Prop) (f : A -> B -> result A) l a a' :
  (forall x b y, f x b = Ok y -> P x -> P y) ->
  foldM f l a = Ok a' -> P a -> P a'.
Proof.
  intros Hf. revert a. induction l as [|b l IH]; simpl; intros a H Pa.
  - inversion H; subst. exact Pa.
  - bind_inv H. eauto.
Qed.

Lemma refit_record_heap L s h0 orig h i h' :
  refit_record L s (length h0) h i = Ok h' ->
  refit_heap h0 orig h -> refit_heap h0 orig h'.
Proof.
  unfold refit_record. intros H I. bind_inv H. bind_inv H. bind_inv H. bind_inv H.
  eapply foldM_invariant; [|exact H | exact I].
  intros x ib y Hb Px. eapply refit_band_heap; eauto.
Qed.

(** C6. After a run, [robust_record] returns a newly allocated array
    whose entries have the dates of the entries of the record store and in
    which every coefficient that is zero in the store is the same zero:
    new values are written only where the fitted coefficient is not zero.
    Every array that existed before, the record store among them, is as
    it was. *)
Theorem robust_record_keeps_zeros (L : numlib) (s s' : yatsm) (rr : nat) :
  (record s < length (heap s))%nat ->
  robust_record L s = Ok (Some rr, s') ->
  rr = length (heap s) /\ rr <> record s /\
  the_record s' = the_record s /\
  (forall p, (p < length (heap s))%nat -> load (heap s') p = load (heap s) p) /\
  refit_of (the_record s) (load (heap s') rr) /\
  (forall i o c j row k z,
     nth_error (the_record s) i = Some o -> nth_error (load (heap s') rr) i = Some c ->
     nth_error (seg_coef o) j = Some row -> nth_error row k = Some z ->
     fne z f0 = false ->
     exists row', nth_error (seg_coef c) j = Some row' /\ nth_error row' k = Some z).
Proof.
  intros Hv H. unfold robust_record in H.
  destruct (negb (ran s)); [discriminate|]. simpl in H. bind_inv H.
  injection H as Hrr Hs. subst rr s'. rename v into h'.
  assert (I : refit_heap (heap s) (the_record s) h').
  { eapply foldM_invariant; [|exact E|].
    - intros x i y Hr Px. eapply refit_record_heap; eauto.
    - split; [rewrite length_app; simpl; lia|]. split.
      + intros p Hp. unfold load. apply app_nth1. exact Hp.
      + unfold load. rewrite nth_middle. apply refit_of_refl. }
  destruct I as (Hl & Ho & F).
  split; [reflexivity|]. split; [lia|]. simpl.
  split; [unfold the_record; simpl; apply Ho; exact Hv|].
  split; [exact Ho|]. split; [exact F|].
  intros i o c j row k z Hio Hic Hj Hk Hz.
  assert (R : refit_entry o c).
  { clear - F Hio Hic. revert i Hio Hic. unfold refit_of in F.
    induction F as [|a b l l' Hab F IH]; intros [|i] Hio Hic; simpl in *;
      try discriminate.
    - inversion Hio; inversion Hic; subst. exact Hab.
    - eauto. }
  destruct R as ((_ & Z1) & _). destruct (Z1 _ _ Hj) as (row' & Hr' & _ & Hz').
  exists row'. split; [exact Hr' | eauto].
Qed.

Lemma robust_record_keeps_zeros_witness :
  let s := level_final in
  let s' := snd (match robust_record reference_lib s with
                 | Ok r => r
                 | Raise _ => (None, blank)
                 end) in
  (record s < length (heap s))%nat /\
  robust_record reference_lib s = Ok (Some 1%nat, s') /\
  map seg_coef (the_record s) = [[[f32 (of_int 7); f0; f0; f0; f0]; [f0; f0; f0; f0; f0]]] /\
  1%nat = length (heap s) /\ 1%nat <> record s /\
  the_record s' = the_record s /\
  (forall p, (p < length (heap s))%nat -> load (heap s') p = load (heap s) p) /\
  refit_of (the_record s) (load (heap s') 1) /\
  (forall i o c j row k z,
     nth_error (the_record s) i = Some o -> nth_error (load (heap s') 1) i = Some c ->
     nth_error (seg_coef o) j = Some row -> nth_error row k = Some z ->
     fne z f0 = false ->
     exists row', nth_error (seg_coef c) j = Some row' /\ nth_error row' k = Some z).
Proof.
  intros s s'.
  assert (H1 : (record s < length (heap s))%nat) by (vm_compute; lia).
  assert (H2 : robust_record reference_lib s = Ok (Some 1%nat, s'))
    by (vm_compute; reflexivity).
  split; [exact H1|]. split; [exact H2|].
  split; [vm_compute; reflexivity|].
  exact (robust_record_keeps_zeros reference_lib s s' 1 H1 H2).
Defined.

(** ** Termination of [run] *)

Lemma monitor_cases L s s' :
  monitor L s = Ok s' ->
  s' = s \/
  exists d r rs,
    getitem2 (X s) (here s + 1) 1 = Ok d /\
    getitem (the_record s) (n_record s) = Ok r /\
    setitem (the_record s) (n_record s) (set_seg_break (to_i4 d) r) = Ok rs /\
    s' = set_monitoring false
           (set_start (here s + 1)
              (set_n_record (n_record s + 1)
                 (bind_record (rs ++ [record_template (cfg s)])
                    (set_heap (write (heap s) (record s) rs) s)))).
Proof.
  unfold monitor. intros H. bind_inv H.
  destruct (all_exceed _ _); [|inversion H; auto].
  bind_inv H. rename v0 into d. bind_inv H.
  apply update_open_record_heap in E1.
  destruct E1 as (r & r' & rs & Hg & Hr & Hs & ->). inversion Hr; subst r'.
  inversion H; subst s'; clear H. right. exists d, r, rs.
  repeat (split; [assumption|]).
  unfold the_record at 1. simpl.
  rewrite load_write_same by (eapply getitem_load_valid; eauto). reflexivity.
Qed.

Lemma compress_aux_length {A : Type} mask (l : list A) :
  (length (compress_aux mask l) <= length l)%nat.
Proof.
  revert l. induction mask as [|b mask IH]; intros [|a l]; simpl; try lia.
  specialize (IH l). destruct b; simpl; lia.
Qed.

Lemma compress_length {A : Type} mask (l l' : list A) :
  compress mask l = Ok l' -> len l' <= len l.
Proof.
  unfold compress, len. destruct (Nat.eqb _ _); [|discriminate].
  intros H; inversion H; subst. pose proof (compress_aux_length mask l). lia.
Qed.

Lemma count_true_bounds mask : 0 <= count_true mask <= len mask.
Proof.
  unfold count_true, len. pose proof (filter_length_le (fun b => b) mask). lia.
Qed.

Lemma slice_to_neg_length {A : Type} (l : list A) c :
  len (slice_to_neg l c) <= Z.max 0 (if 0 <? c then len l - c else len l).
Proof.
  unfold slice_to_neg, len. destruct (0 <? c); rewrite length_firstn; lia.
Qed.

(** The count of retained observations in [train] lies between 0 and the
    index span of the window. *)
Lemma train_window_count L s span mask index window :
  train_mask L s span = Ok (mask, index) ->
  take mask index = Ok window ->
  0 <= span_index s ->
  0 <= count_true (slice_to_neg window (consecutive (cfg s))) <= span_index s.
Proof.
  intros Hm Ht Hs.
  assert (Hi : index = arange_uint16 (start s) (here s + consecutive (cfg s))).
  { unfold train_mask in Hm. bind_inv Hm. bind_inv Hm. bind_inv Hm. bind_inv Hm.
    bind_inv Hm. bind_inv Hm. inversion Hm. reflexivity. }
  apply mapM_length in Ht.
  assert (Hl : len window = Z.max 0 (here s + consecutive (cfg s) - start s)).
  { unfold len. rewrite Ht, Hi. unfold arange_uint16.
    rewrite length_map, length_arange. lia. }
  pose proof (count_true_bounds (slice_to_neg window (consecutive (cfg s)))) as [C1 C2].
  pose proof (slice_to_neg_length window (consecutive (cfg s))) as C3.
  unfold span_index in *. split; [exact C1|].
  destruct (0 <? consecutive (cfg s)) eqn:P;
    [apply Z.ltb_lt in P | apply Z.ltb_ge in P]; lia.
Qed.

Lemma lex_decrease_first a a' b b' w :
  a' < a -> 0 <= b -> b' <= w -> 0 <= w ->
  a' * (w + 1) + b' < a * (w + 1) + b.
Proof. intros. nia. Qed.

#[local] Arguments Z.mul : simpl never.

(** One transition keeps the invariant and decreases the measure. *)
Lemma step_decreases L cf lo hi c s c' s' :
  cursor_inv cf lo hi c s -> c <> Returned ->
  step L c s = Ok (c', s') ->
  cursor_inv cf lo hi c' s' /\ measure lo hi c' s' < measure lo hi c s.
Proof.
  intros (Hcf & Hn & Hx & Hxc & Hst & Hh & Hm & Hc) NR H. subst cf.
  assert (Hw : 0 <= hi - lo) by lia. unfold shape0 in *.
  destruct c; simpl in H; try congruence.
  - (* while self.running *)
    destruct (running s) eqn:R; inversion H; subst c' s'; clear H.
    + unfold running, shape0 in R. apply Z.ltb_lt in R.
      split; [unfold cursor_inv; repeat split; auto; lia|].
      unfold measure. simpl. lia.
    + split; [unfold cursor_inv; simpl; repeat split; auto; lia|].
      unfold measure. simpl. lia.
  - (* the accumulating loop *)
    destruct (negb (monitoring s) && can_monitor s) eqn:G.
    + apply andb_true_iff in G. destruct G as [G1 G2].
      apply negb_true_iff in G1. unfold can_monitor, shape0 in G2.
      apply Z.ltb_lt in G2.
      bind_inv H. rename v into t. inversion H; subst c' s'; clear H.
      apply train_cases in E. destruct E as [->|E].
      * split; [unfold cursor_inv, shape0; simpl; repeat split; auto; try lia;
                intros; congruence|].
        unfold measure. simpl. lia.
      * destruct E as (span & mask & index & window & mX & mY & _ & _ & Hsp
                       & Hmask & Htake & E).
        simpl in E. destruct E as (_ & HX & _ & E).
        assert (Hsi : 0 <= span_index s) by lia.
        pose proof (train_window_count _ _ _ _ _ _ Hmask Htake Hsi) as [S1 S2].
        unfold span_index in *.
        apply compress_length in HX.
        destruct E as [->|[->| ->]].
        -- split; [unfold cursor_inv, shape0; simpl; repeat split; auto; try lia;
                   intros; congruence|].
           unfold measure. simpl. lia.
        -- split; [unfold cursor_inv, shape0; simpl; repeat split; auto; try lia;
                   intros; congruence|].
           unfold measure. simpl. rewrite G1.
           assert (D : (2 * (hi - (start s + 1)) + 1) * (hi - lo + 1) + (hi - (here s + 1))
                       < (2 * (hi - start s) + 1) * (hi - lo + 1) + (hi - here s))
             by (apply lex_decrease_first; lia).
           lia.
        -- split; [unfold cursor_inv, shape0; simpl; repeat split; auto; try lia|].
           unfold measure. simpl. rewrite G1.
           assert (D : (2 * (hi - start s) + 0) * (hi - lo + 1)
                       + (hi - (start s + count_true (slice_to_neg window (consecutive (cfg s))) - 1 + 1))
                       < (2 * (hi - start s) + 1) * (hi - lo + 1) + (hi - here s))
             by (apply lex_decrease_first; lia).
           lia.
    + inversion H; subst c' s'; clear H.
      split; [unfold cursor_inv; repeat split; auto; lia|].
      unfold measure. simpl. lia.
  - (* the monitoring loop *)
    destruct (monitoring s && can_monitor s) eqn:G.
    + apply andb_true_iff in G. destruct G as [G1 G2].
      unfold can_monitor, shape0 in G2. apply Z.ltb_lt in G2.
      bind_inv H. rename v into t. bind_inv H. rename v into u.
      inversion H; subst c' s'; clear H.
      apply update_model_frame in E.
      destruct E as (Tc & TX & TY & Ts & Th & Tm & _ & _ & _).
      specialize (Hm G1).
      apply monitor_cases in E0. destruct E0 as [->|(d & r & rs & _ & _ & _ & ->)].
      * split; [unfold cursor_inv, shape0; simpl; rewrite ?Tc, ?TX, ?Ts, ?Th, ?Tm;
                repeat split; auto; try lia|].
        unfold measure. simpl. rewrite Ts, Th, Tm. lia.
      * split; [unfold cursor_inv, shape0; simpl; rewrite ?Tc, ?TX, ?Ts, ?Th, ?Tm;
                repeat split; auto; try lia; intros; congruence|].
        unfold measure. simpl. rewrite Th, G1.
        assert (D : (2 * (hi - (here s + 1)) + 1) * (hi - lo + 1) + (hi - (here s + 1))
                    < (2 * (hi - start s) + 0) * (hi - lo + 1) + (hi - here s))
          by (apply lex_decrease_first; lia).
        lia.
    + inversion H; subst c' s'; clear H.
      split; [unfold cursor_inv; repeat split; auto; lia|].
      unfold measure. simpl. lia.
  - (* self.here += 1 *)
    inversion H; subst c' s'; clear H.
    split; [unfold cursor_inv, shape0; simpl; repeat split; auto; try lia;
            intros M; specialize (Hm M); lia|].
    unfold measure. simpl. lia.
Qed.

Lemma measure_nonneg cf lo hi c s :
  cursor_inv cf lo hi c s -> 0 <= measure lo hi c s /\ (c <> Returned -> 0 < measure lo hi c s).
Proof.
  intros (_ & _ & _ & _ & Hst & Hh & _ & _). unfold measure.
  assert (0 <= (2 * (hi - start s) + (if monitoring s then 0 else 1)) * (hi - lo + 1))
    by (apply Z.mul_nonneg_nonneg; destruct (monitoring s); lia).
  destruct c; simpl; split; try lia; congruence.
Qed.

Lemma run_from_bounded L cf lo hi (m : nat) :
  forall c s, cursor_inv cf lo hi c s -> measure lo hi c s <= Z.of_nat m ->
              exists r, run_from L (S m) c s = Some r.
Proof.
  induction m as [|m IH]; intros c s I Hm.
  - destruct (measure_nonneg _ _ _ _ _ I) as [_ P].
    destruct c; try (exfalso; assert (0 < measure lo hi _ s) by (apply P; congruence); lia).
    simpl. eauto.
  - destruct c; try (simpl; eauto; fail);
      (cbn [run_from];
       match goal with |- context [step L ?c s] =>
         destruct (step L c s) as [[c' s']|e] eqn:S; [|eauto];
         destruct (step_decreases _ _ _ _ _ _ _ _ I ltac:(congruence) S) as [I' D];
         apply IH; [exact I' | lia]
       end).
Qed.

Lemma run_from_more_fuel L n k c s r :
  run_from L n c s = Some r -> run_from L (n + k) c s = Some r.
Proof.
  revert c s. induction n as [|n IH]; intros c s H.
  - destruct c; try discriminate. destruct k; exact H.
  - destruct c; try exact H;
      (cbn [run_from Nat.add] in *;
       match goal with |- context [step L ?c s] =>
         destruct (step L c s) as [[c' s']|e]; [apply IH; exact H | exact H]
       end).
Qed.

Lemma init_cursor_inv a vX vY s :
  init a vX vY = Ok s ->
  let s0 := set_trained_date (of_int 0) s in
  cursor_inv (cfg s) (lower_bound s) (upper_bound s) AtRunning s0.
Proof.
  intros H. unfold init in H. bind_inv H. bind_inv H. bind_inv H.
  destruct (_ <? _); [discriminate|]. inversion H; subst s; clear H.
  unfold cursor_inv, lower_bound, upper_bound, shape0, shape1, len. simpl.
  repeat split; try lia; try discriminate.
  destruct vX; simpl; lia.
Qed.

(** The cursor after one pass through a loop body: one further, or, on
    the stable outcome of [train], at most where it was. *)
Lemma loop_body_cursor L c s c' s' :
  step L c s = Ok (c', s') -> c' = c -> c <> Returned ->
  here s' = here s + 1 \/
  (c = AtTrain /\ monitoring s = false /\ monitoring s' = true /\
   (0 <= n_coef (cfg s) -> here s' <= here s)).
Proof.
  intros H Hc NR. subst c'. destruct c; simpl in H; try congruence.
  - destruct (running s); inversion H.
  - destruct (negb (monitoring s) && can_monitor s) eqn:G; [|inversion H].
    apply andb_true_iff in G. destruct G as [G1 _]. apply negb_true_iff in G1.
    bind_inv H. inversion H; subst s'; clear H.
    apply train_cases in E. destruct E as [->|E]; [left; reflexivity|].
    destruct E as (span & mask & index & window & mX & mY & _ & _ & Hsp
                   & Hmask & Htake & E).
    simpl in E. destruct E as (_ & _ & _ & [->|[->| ->]]); simpl; auto.
    right. repeat split; auto. intros Hn.
    assert (Hsi : 0 <= span_index s) by lia.
    pose proof (train_window_count _ _ _ _ _ _ Hmask Htake Hsi) as [S1 S2].
    unfold span_index in *. lia.
  - destruct (monitoring s && can_monitor s); [|inversion H].
    bind_inv H. bind_inv H. inversion H; subst s'; clear H.
    apply update_model_frame in E. apply monitor_frame in E0. simpl. left.
    destruct E as (_ & _ & _ & _ & Hh & _). destruct E0 as (_ & _ & _ & Hh0 & _).
    rewrite Hh0, Hh. reflexivity.
Qed.

(** C2, as the program has it.  [run] on a constructed instance returns
    or raises after finitely many transitions, whatever the libraries
    compute.  The cursor is not increasing: each pass through a loop body
    moves it one observation further, except that the stable outcome of
    [train] leaves it at [start + _span_index], which is at most its value
    before the call. *)
Theorem run_terminates (L : numlib) (a : args) (vX vY : matrix) (s : yatsm) :
  init a vX vY = Ok s ->
  (exists fuel r, forall fuel', (fuel <= fuel')%nat -> run L fuel' s = Some r) /\
  (forall c t c' t',
     step L c t = Ok (c', t') -> c' = c -> c <> Returned ->
     here t' = here t + 1 \/
     (c = AtTrain /\ monitoring t = false /\ monitoring t' = true /\
      (0 <= n_coef (cfg t) -> here t' <= here t))).
Proof.
  intros H. split; [|apply loop_body_cursor].
  pose proof (init_cursor_inv _ _ _ _ H) as I. cbv zeta in I.
  set (m := Z.to_nat (measure (lower_bound s) (upper_bound s) AtRunning
                              (set_trained_date (of_int 0) s))).
  destruct (run_from_bounded L _ _ _ m _ _ I) as (r & Hr).
  { subst m. destruct (measure_nonneg _ _ _ _ _ I). lia. }
  exists (S m), r. intros fuel' Hf. unfold run.
  replace fuel' with (S m + (fuel' - S m))%nat by lia.
  apply run_from_more_fuel. exact Hr.
Qed.

Lemma run_terminates_witness :
  init default_args (example_X 15) noisy_Y
  = Ok (value_of (init default_args (example_X 15) noisy_Y)) /\
  (exists fuel r, forall fuel', (fuel <= fuel')%nat ->
     run reference_lib fuel' (value_of (init default_args (example_X 15) noisy_Y)) = Some r) /\
  (forall c t c' t',
     step reference_lib c t = Ok (c', t') -> c' = c -> c <> Returned ->
     here t' = here t + 1 \/
     (c = AtTrain /\ monitoring t = false /\ monitoring t' = true /\
      (0 <= n_coef (cfg t) -> here t' <= here t))).
Proof.
  assert (H : init default_args (example_X 15) noisy_Y
              = Ok (value_of (init default_args (example_X 15) noisy_Y)))
    by (vm_compute; reflexivity).
  split; [exact H|].
  exact (run_terminates reference_lib default_args (example_X 15) noisy_Y _ H).
Defined.

(** The run on the contaminated series returns, with [ran] set. *)
Example run_example :
  exists s, run reference_lib 60 (value_of (init default_args (example_X 15) noisy_Y))
            = Some (Ok s) /\ ran s = true /\ here s = 14 /\ shape0 (X s) = 14.
Proof. eexists. split; [vm_compute; reflexivity|]. repeat split. Qed.

(** C2 as stated fails: on the contaminated series the fifth transition
    of [run] is a pass through the accumulating loop that takes the cursor
    from 6 back to 5, so the cursor is not even weakly increasing. *)
Lemma run_cursor_moves_back :
  ~ (forall (L : numlib) (a : args) (vX vY : matrix) (s0 : yatsm)
            (n : nat) (c c' : control) (s s' : yatsm),
        init a vX vY = Ok s0 ->
        steps L n AtRunning (set_trained_date (of_int 0) s0) = (c, s) ->
        step L c s = Ok (c', s') -> c' = c -> c <> Returned ->
        here s <= here s').
Proof.
  intros H.
  specialize (H reference_lib default_args (example_X 15) noisy_Y
                (value_of (init default_args (example_X 15) noisy_Y))
                4%nat AtTrain AtTrain (noisy_at 4) (noisy_at 5)).
  assert (E : here (noisy_at 4) = 6 /\ here (noisy_at 5) = 5)
    by (split; vm_compute; reflexivity).
  destruct E as [E4 E5]. rewrite E4, E5 in H.
  assert (6 <= 5); [|lia].
  apply H; try (vm_compute; reflexivity). discriminate.
Qed.

(** ** Dates as integers *)

Lemma digits2_pos_bounds m :
  2 ^ (Zpos (digits2_pos m) - 1) <= Zpos m < 2 ^ Zpos (digits2_pos m).
Proof.
  induction m as [m IH|m IH|]; simpl digits2_pos.
  - rewrite Pos2Z.inj_succ.
    replace (Z.succ (Z.pos (digits2_pos m)) - 1) with (Z.succ (Z.pos (digits2_pos m) - 1)) by lia.
    rewrite !Z.pow_succ_r by lia. lia.
  - rewrite Pos2Z.inj_succ.
    replace (Z.succ (Z.pos (digits2_pos m)) - 1) with (Z.succ (Z.pos (digits2_pos m) - 1)) by lia.
    rewrite !Z.pow_succ_r by lia. lia.
  - simpl. lia.
Qed.

(** An ordinal date is a normal positive float with an exponent between
    -52 and -22. *)
Lemma ordinal_shape d :
  ordinal d ->
  exists m e, d = S754_finite false m e /\
              2 ^ 52 <= Zpos m < 2 ^ 53 /\ -52 <= e <= -22.
Proof.
  intros (V & H1 & H2).
  apply fle_key in H1. destruct H1 as (k1 & kd & K1 & Kd & L1).
  apply flt_key in H2. destruct H2 as (kd' & k2 & Kd' & K2 & L2).
  rewrite Kd in Kd'. inversion Kd'; subst kd'; clear Kd'.
  vm_compute in K1. inversion K1; subst k1; clear K1.
  vm_compute in K2. inversion K2; subst k2; clear K2.
  destruct d as [?|[|]| |[|] m e]; simpl in Kd; inversion Kd; subst kd; clear Kd;
    unfold key_le, key_lt in *;
    try (exfalso; destruct L1 as [L1|L1]; [lia | discriminate]);
    try (exfalso; lia).
  exists m, e. split; [reflexivity|].
  unfold is_float, valid_binary, bounded, canonical_mantissa, fexp, emin, prec, emax in V.
  apply andb_true_iff in V. destruct V as [V _]. apply Z.eqb_eq in V.
  pose proof (digits2_pos_bounds m) as B.
  assert (He : -52 <= e) by (destruct L1 as [L1|L1]; [lia | inversion L1; lia]).
  assert (Hd : Z.pos (digits2_pos m) = 53) by lia.
  rewrite Hd in B. simpl (53 - 1) in B.
  split; [exact B|]. split; [exact He|].
  assert (e <= -21) by lia.
  destruct (Z.eq_dec e (-21)); [|lia]. subst e. exfalso.
  change (2 ^ 52) with 4503599627370496 in *. lia.
Qed.

Lemma to_i4_ordinal m e :
  2 ^ 52 <= Zpos m < 2 ^ 53 -> -52 <= e <= -22 ->
  to_i4 (S754_finite false m e) = Zpos m / 2 ^ (- e) /\
  1 <= Zpos m / 2 ^ (- e) < 2 ^ 31.
Proof.
  intros Hm He.
  assert (P : 0 < 2 ^ (- e)) by (apply Z.pow_pos_nonneg; lia).
  assert (B : 1 <= Zpos m / 2 ^ (- e) < 2 ^ 31).
  { split.
    - apply Z.div_le_lower_bound; [exact P|].
      assert (2 ^ (- e) <= 2 ^ 52) by (apply Z.pow_le_mono_r; lia). lia.
    - apply Z.div_lt_upper_bound; [exact P|].
      assert (2 ^ 22 <= 2 ^ (- e)) by (apply Z.pow_le_mono_r; lia).
      assert (2 ^ 53 = 2 ^ 22 * 2 ^ 31) by reflexivity.
      nia. }
  split; [|exact B].
  unfold to_i4, f_trunc, int32_min. simpl cond_Zopp.
  destruct (0 <=? e) eqn:E; [apply Z.leb_le in E; lia|].
  assert (R1 : (- 2 ^ 31 <=? Z.pos m / 2 ^ (- e)) = true) by (apply Z.leb_le; lia).
  assert (R2 : (Z.pos m / 2 ^ (- e) <? 2 ^ 31) = true) by (apply Z.ltb_lt; lia).
  rewrite R1, R2. reflexivity.
Qed.

Lemma to_i4_ge1 d : ordinal d -> 1 <= to_i4 d.
Proof.
  intros H. destruct (ordinal_shape _ H) as (m & e & -> & Hm & He).
  destruct (to_i4_ordinal m e Hm He) as [-> B]. lia.
Qed.

Lemma to_i4_monotone a b :
  ordinal a -> ordinal b -> fle a b = true -> to_i4 a <= to_i4 b.
Proof.
  intros Ha Hb Hle.
  destruct (ordinal_shape _ Ha) as (ma & ea & -> & Hma & Hea).
  destruct (ordinal_shape _ Hb) as (mb & eb & -> & Hmb & Heb).
  destruct (to_i4_ordinal ma ea Hma Hea) as [-> _].
  destruct (to_i4_ordinal mb eb Hmb Heb) as [-> _].
  apply fle_key in Hle. destruct Hle as (ka & kb & Ka & Kb & L).
  simpl in Ka, Kb. inversion Ka; inversion Kb; subst ka kb; clear Ka Kb.
  assert (Pb : 0 < 2 ^ (- eb)) by (apply Z.pow_pos_nonneg; lia).
  assert (Pa : 0 < 2 ^ (- ea)) by (apply Z.pow_pos_nonneg; lia).
  assert (C : ea < eb \/ (ea = eb /\ Zpos ma <= Zpos mb)).
  { unfold key_le, key_lt in L. destruct L as [L|L]; [lia | inversion L; lia]. }
  destruct C as [C|[-> C]].
  - apply Z.div_le_lower_bound; [exact Pb|].
    (* the quotient on the left is below 2^(53+ea), at most 2^(52+eb) *)
    assert (Q : Zpos ma / 2 ^ (- ea) < 2 ^ (53 + ea)).
    { apply Z.div_lt_upper_bound; [exact Pa|].
      rewrite <- Z.pow_add_r by lia. replace (- ea + (53 + ea)) with 53 by lia. lia. }
    assert (R : 2 ^ (- eb) * 2 ^ (53 + ea) <= 2 ^ 52).
    { rewrite <- Z.pow_add_r by lia. apply Z.pow_le_mono_r; lia. }
    assert (0 <= Zpos ma / 2 ^ (- ea)) by (apply Z.div_pos; lia).
    nia.
  - apply Z.div_le_mono; [exact Pb | exact C].
Qed.

Lemma dates_ok_idates vX :
  dates_ok vX ->
  Forall (fun z => 1 <= z) (idates vX) /\ StronglySorted Z.le (idates vX).
Proof.
  unfold dates_ok, idates. generalize (date_column vX). intros ds [F S].
  induction S as [|d ds S IH Hd]; simpl.
  - split; constructor.
  - inversion F as [|? ? Fd Fds]; subst. destruct (IH Fds) as [I1 I2].
    split; constructor; auto.
    + apply to_i4_ge1. exact Fd.
    + rewrite Forall_forall in *. intros z Hz. apply in_map_iff in Hz.
      destruct Hz as (b & <- & Hb). apply to_i4_monotone; auto.
Qed.

(** ** Masking and the order of dates *)

Lemma compress_aux_map {A B : Type} (f : A -> B) mask l :
  compress_aux mask (map f l) = map f (compress_aux mask l).
Proof.
  revert l. induction mask as [|b mask IH]; intros [|a l]; simpl; auto.
  destruct b; simpl; rewrite IH; reflexivity.
Qed.

Lemma compress_aux_In {A : Type} mask (l : list A) x :
  In x (compress_aux mask l) -> In x l.
Proof.
  revert l. induction mask as [|b mask IH]; intros [|a l]; simpl; auto;
    try contradiction.
  destruct b; simpl; intros H; [destruct H|]; auto.
Qed.

Lemma compress_aux_Forall {A : Type} (P : A -> Prop) mask l :
  Forall P l -> Forall P (compress_aux mask l).
Proof.
  rewrite !Forall_forall. intros H x Hx. apply H. eapply compress_aux_In; eauto.
Qed.

Lemma compress_aux_sorted {A : Type} (R : A -> A -> Prop) mask l :
  StronglySorted R l -> StronglySorted R (compress_aux mask l).
Proof.
  intros S. revert mask. induction S as [|a l S IH Ha]; intros mask.
  - destruct mask; constructor.
  - destruct mask as [|b mask]; simpl; [constructor|].
    destruct b; [|apply IH]. constructor; [apply IH|].
    apply compress_aux_Forall. exact Ha.
Qed.

Lemma compress_aux_nth {A : Type} mask (l : list A) i a :
  nth_error (compress_aux mask l) i = Some a ->
  exists j, (i <= j)%nat /\ nth_error l j = Some a.
Proof.
  revert l i. induction mask as [|b mask IH]; intros [|x l] i H; simpl in H;
    try (destruct i; discriminate).
  destruct b.
  - destruct i as [|i]; simpl in H.
    + inversion H; subst. exists 0%nat. split; [lia | reflexivity].
    + destruct (IH _ _ H) as (j & Hj & Hn). exists (S j). split; [lia | exact Hn].
  - destruct (IH _ _ H) as (j & Hj & Hn). exists (S j). split; [lia | exact Hn].
Qed.

Lemma idates_compress mask vX mX :
  compress mask vX = Ok mX -> idates mX = compress_aux mask (idates vX).
Proof.
  unfold compress. destruct (Nat.eqb _ _); [|discriminate].
  intros H; inversion H; subst. unfold idates, date_column.
  rewrite !compress_aux_map. reflexivity.
Qed.

Lemma sorted_nth (l : list Z) i j a b :
  StronglySorted Z.le l -> (i <= j)%nat ->
  nth_error l i = Some a -> nth_error l j = Some b -> a <= b.
Proof.
  intros S. revert i j. induction S as [|x l S IH Hx]; intros i j Hij Hi Hj.
  - destruct i; discriminate.
  - destruct i as [|i], j as [|j]; simpl in *; try lia.
    + inversion Hi; inversion Hj; subst. lia.
    + inversion Hi; subst. rewrite Forall_forall in Hx. apply Hx.
      eapply nth_error_In; eauto.
    + eapply IH; [|exact Hi|exact Hj]. lia.
Qed.

Lemma getitem_nonneg {A : Type} (l : list A) i a :
  getitem l i = Ok a -> 0 <= i -> nth_error l (Z.to_nat i) = Some a.
Proof.
  intros H Hi. apply getitem_pos in H. unfold index_pos in H.
  destruct (i <? 0) eqn:N; [apply Z.ltb_lt in N; lia | exact H].
Qed.

Lemma getitem2_idate vX i d :
  getitem2 vX i 1 = Ok d -> 0 <= i ->
  nth_error (idates vX) (Z.to_nat i) = Some (to_i4 d).
Proof.
  unfold getitem2. intros H Hi. bind_inv H. rename v into row.
  apply getitem_nonneg in E; [|exact Hi]. apply getitem_nonneg in H; [|lia].
  unfold idates, date_column. rewrite !nth_error_map.
  unfold matrix, float in *. rewrite E. simpl.
  f_equal. f_equal. apply nth_error_nth. exact H.
Qed.

(** ** The open record is the last one *)

Lemma replace_nth_last {A : Type} (init : list A) x y :
  replace_nth (length init) y (init ++ [x]) = init ++ [y].
Proof. induction init as [|a init IH]; simpl; [reflexivity | rewrite IH; reflexivity]. Qed.

Lemma open_record_last (recs : list segment) n r :
  n = len recs - 1 -> getitem recs n = Ok r ->
  exists init, recs = init ++ [r] /\
               forall r', setitem recs n r' = Ok (init ++ [r']).
Proof.
  intros Hn Hg. destruct (exists_last (l := recs)) as (init & x & ->).
  { intros ->. rewrite getitem_nil in Hg. discriminate. }
  unfold len in Hn. rewrite length_app in Hn. simpl in Hn.
  assert (Hn' : n = Z.of_nat (length init)) by lia.
  apply getitem_nonneg in Hg; [|lia]. rewrite Hn', Nat2Z.id in Hg.
  rewrite nth_error_app2, Nat.sub_diag in Hg by lia. simpl in Hg.
  inversion Hg; subst x. exists init. split; [reflexivity|].
  intros r'. unfold setitem, len. rewrite length_app. simpl.
  destruct (n <? 0) eqn:N; [apply Z.ltb_lt in N; lia|].
  destruct ((n <? 0) || (Z.of_nat (length init + 1) <=? n)) eqn:O.
  - apply orb_true_iff in O. destruct O as [O|O];
      [apply Z.ltb_lt in O | apply Z.leb_le in O]; lia.
  - rewrite Hn', Nat2Z.id, replace_nth_last. reflexivity.
Qed.

Lemma update_open_record_last f s s' :
  (record s < length (heap s))%nat ->
  n_record s = len (the_record s) - 1 ->
  update_open_record f s = Ok s' ->
  exists init r r',
    the_record s = init ++ [r] /\ f r = Ok r' /\
    the_record s' = init ++ [r'] /\
    s' = set_heap (write (heap s) (record s) (init ++ [r'])) s /\
    (record s' < length (heap s'))%nat /\
    n_record s' = len (the_record s') - 1.
Proof.
  intros Hv Hn H. apply update_open_record_heap in H.
  destruct H as (r & r' & rs & Hg & Hf & Hs & ->).
  destruct (open_record_last _ _ _ Hn Hg) as (init & Hi & Hset).
  rewrite Hset in Hs. inversion Hs; subst rs; clear Hs.
  assert (T : the_record (set_heap (write (heap s) (record s) (init ++ [r'])) s)
              = init ++ [r']).
  { unfold the_record. simpl. apply load_write_same. exact Hv. }
  exists init, r, r'.
  split; [exact Hi|]. split; [exact Hf|]. split; [exact T|].
  split; [reflexivity|]. split.
  - simpl. rewrite length_write. exact Hv.
  - rewrite T. simpl. rewrite Hn, Hi. unfold len. rewrite !length_app. reflexivity.
Qed.

Lemma starts_ordered_last init r r' :
  starts_ordered (init ++ [r]) ->
  (seg_start r' = 0 \/ forall a, In a init -> seg_start a <= seg_start r') ->
  starts_ordered (init ++ [r']).
Proof.
  intros H Hr i j a b Hij Hi Hj.
  destruct (Nat.lt_ge_cases j (length init)) as [L|G].
  - rewrite nth_error_app1 in Hi, Hj by lia.
    apply (H i j a b Hij); rewrite nth_error_app1 by lia; assumption.
  - rewrite nth_error_app2 in Hj by lia.
    destruct (j - length init)%nat eqn:D; simpl in Hj; [|destruct n; discriminate].
    inversion Hj; subst b. rewrite nth_error_app1 in Hi by lia.
    destruct Hr as [Hr|Hr]; [left; exact Hr | right; apply Hr].
    eapply nth_error_In; eauto.
Qed.

Lemma starts_ordered_snoc rs t :
  starts_ordered rs -> seg_start t = 0 -> starts_ordered (rs ++ [t]).
Proof.
  intros H Ht i j a b Hij Hi Hj.
  destruct (Nat.lt_ge_cases j (length rs)) as [L|G].
  - rewrite nth_error_app1 in Hi, Hj by lia. exact (H i j a b Hij Hi Hj).
  - rewrite nth_error_app2 in Hj by lia.
    destruct (j - length rs)%nat eqn:D; simpl in Hj; [|destruct n; discriminate].
    inversion Hj; subst b. left. exact Ht.
Qed.

Lemma all_but_last_closed_last init r r' :
  all_but_last_closed (init ++ [r]) -> all_but_last_closed (init ++ [r']).
Proof.
  intros H i x Hi Hl. rewrite length_app in Hl. simpl in Hl.
  rewrite nth_error_app1 in Hi by lia.
  apply (H i x); [rewrite nth_error_app1 by lia; exact Hi|].
  rewrite length_app. simpl. exact Hl.
Qed.

Lemma all_but_last_closed_snoc init r r' t :
  all_but_last_closed (init ++ [r]) -> 1 <= seg_break r' ->
  all_but_last_closed ((init ++ [r']) ++ [t]).
Proof.
  intros H Hb i x Hi Hl. rewrite !length_app in Hl. simpl in Hl.
  rewrite nth_error_app1 in Hi by (rewrite length_app; simpl; lia).
  destruct (Nat.lt_ge_cases i (length init)) as [L|G].
  - rewrite nth_error_app1 in Hi by lia.
    apply (H i x); [rewrite nth_error_app1 by lia; exact Hi|].
    rewrite length_app. simpl. lia.
  - rewrite nth_error_app2 in Hi by lia.
    replace (i - length init)%nat with 0%nat in Hi by lia. simpl in Hi.
    inversion Hi; subst x. exact Hb.
Qed.

Lemma store_models_dates i ms r r' :
  store_models i ms r = Ok r' ->
  seg_start r' = seg_start r /\ seg_end r' = seg_end r /\ seg_break r' = seg_break r.
Proof.
  revert i r. induction ms as [|m ms IH]; simpl; intros i r H.
  - inversion H; subst. auto.
  - bind_inv H. bind_inv H. apply IH in H. simpl in H. exact H.
Qed.

(** ** The invariant of the record store *)

(** Changes that leave the store alone: the cursor moves, the segment
    start advances, observations are masked. *)
Lemma store_inv_cursor s s' :
  store_inv s ->
  cfg s' = cfg s -> heap s' = heap s -> record s' = record s ->
  n_record s' = n_record s -> start s <= start s' ->
  (monitoring s' = true -> start s' <= here s') ->
  (X s' = X s \/ exists mask, compress mask (X s) = Ok (X s')) ->
  store_inv s'.
Proof.
  intros (T1 & T2 & Hv & Hn & R3 & R4 & R5 & J & S0 & C & D1 & D2)
         Hc Hh Hr Hnr Hs Hm HX.
  assert (TR : the_record s' = the_record s) by (unfold the_record; congruence).
  assert (DX : forall j z, nth_error (idates (X s')) j = Some z ->
                 exists j', (j <= j')%nat /\ nth_error (idates (X s)) j' = Some z).
  { intros j z Hj. destruct HX as [HX|(mask & HX)].
    - rewrite HX in Hj. exists j. auto.
    - apply idates_compress in HX. rewrite HX in Hj.
      apply compress_aux_nth in Hj. exact Hj. }
  unfold store_inv. rewrite TR, Hc, Hh, Hr, Hnr.
  repeat (split; [assumption|]).
  split.
  { intros r j z Hin Hj Hz. destruct (DX _ _ Hz) as (j' & Hjj & Hz').
    apply (J r j' z Hin); [lia | exact Hz']. }
  split; [lia|]. split; [exact Hm|].
  destruct HX as [HX|(mask & HX)].
  - rewrite HX. auto.
  - apply idates_compress in HX. rewrite HX.
    split; [apply compress_aux_Forall; exact D1 | apply compress_aux_sorted; exact D2].
Qed.

(** Rewriting the open record. *)
Lemma store_inv_replace_last s s' init r r' :
  store_inv s ->
  the_record s = init ++ [r] -> the_record s' = init ++ [r'] ->
  cfg s' = cfg s -> X s' = X s -> start s' = start s -> here s' = here s ->
  monitoring s' = monitoring s -> n_record s' = n_record s ->
  (record s' < length (heap s'))%nat ->
  seg_start r' <= seg_end r' ->
  (seg_start r' = seg_start r \/
   ((forall j z, start s <= Z.of_nat j -> nth_error (idates (X s)) j = Some z ->
                 seg_start r' <= z) /\
    (forall a, In a init -> seg_start a <= seg_start r'))) ->
  store_inv s'.
Proof.
  intros (T1 & T2 & Hv & Hn & R3 & R4 & R5 & J & S0 & C & D1 & D2)
         Hi Hi' Hc HX Hs Hh Hm Hnr Hv' Hse Hst.
  rewrite Hi in *. unfold store_inv.
  rewrite Hi', Hc, HX, Hs, Hh, Hm, Hnr.
  split; [exact T1|]. split; [exact T2|]. split; [exact Hv'|].
  split; [rewrite Hn; unfold len; rewrite !length_app; reflexivity|].
  split.
  { intros x Hx. apply in_app_iff in Hx. destruct Hx as [Hx|[<-|[]]]; [|exact Hse].
    apply R3. apply in_app_iff. auto. }
  split; [eapply all_but_last_closed_last; eauto|].
  split.
  { eapply starts_ordered_last; [exact R5|].
    destruct Hst as [E|[_ Hst]]; [|right; exact Hst].
    destruct (Z.eq_dec (seg_start r) 0) as [Z0|NZ]; [left; congruence|].
    right. intros a Ha. apply In_nth_error in Ha. destruct Ha as (i & Ha).
    assert (Li : (i < length init)%nat) by (apply nth_error_Some; congruence).
    destruct (R5 i (length init) a r Li) as [E0|E1].
    - rewrite nth_error_app1 by lia. exact Ha.
    - rewrite nth_error_app2, Nat.sub_diag by lia. reflexivity.
    - contradiction.
    - rewrite E. exact E1. }
  split.
  { intros x j z Hx Hj Hz. apply in_app_iff in Hx. destruct Hx as [Hx|[<-|[]]].
    - apply (J x j z); auto. apply in_app_iff. auto.
    - destruct Hst as [E|[Hst _]]; [|eapply Hst; eauto].
      rewrite E. apply (J r j z); auto. apply in_app_iff. simpl. auto. }
  auto.
Qed.

Lemma update_model_inv L s s' :
  store_inv s -> monitoring s = true -> update_model L s = Ok s' -> store_inv s'.
Proof.
  intros I M H. pose proof I as (T1 & T2 & Hv & Hn & R3 & R4 & R5 & J & S0 & C & D1 & D2).
  specialize (C M). unfold update_model in H. bind_inv H. rename v into d.
  pose proof (getitem2_idate _ _ _ E ltac:(lia)) as Zh.
  destruct (fgt _ ndays).
  - bind_inv H. rename v into ms. bind_inv H. rename v into d0.
    simpl in E1. pose proof (getitem2_idate _ _ _ E1 S0) as Zs.
    bind_inv H. rename v into s2. bind_inv H. rename v into s3.
    bind_inv H. rename v into s4. inversion H; subst s'; clear H.
    apply update_open_record_last in E2; [|exact Hv|exact Hn].
    destruct E2 as (init & r & r1 & Hi & Hr1 & Hi2 & -> & Hv2 & Hn2).
    change (the_record s = init ++ [r]) in Hi.
    inversion Hr1; subst r1; clear Hr1.
    apply update_open_record_last in E3; [|exact Hv2|exact Hn2].
    destruct E3 as (init2 & r2 & r2' & Hj & Hr2 & Hi3 & -> & Hv3 & Hn3).
    rewrite Hi2 in Hj. apply app_inj_tail in Hj. destruct Hj as [<- <-].
    inversion Hr2; subst r2'; clear Hr2.
    apply update_open_record_last in E4; [|exact Hv3|exact Hn3].
    destruct E4 as (init3 & r3 & r3' & Hk & Hr3 & Hi4 & -> & Hv4 & Hn4).
    rewrite Hi3 in Hk. apply app_inj_tail in Hk. destruct Hk as [<- <-].
    apply store_models_dates in Hr3. simpl in Hr3. destruct Hr3 as (B1 & B2 & B3).
    eapply (store_inv_replace_last s _ init r r3'); try exact I; try exact Hi;
      try reflexivity.
    + exact Hi4.
    + exact Hv4.
    + rewrite B1, B2. eapply sorted_nth; [exact D2| |exact Zs|exact Zh]. lia.
    + right. rewrite B1. split.
      * intros j z Hj Hz. eapply sorted_nth; [exact D2| |exact Zs|exact Hz]. lia.
      * intros a Ha. apply (J a (Z.to_nat (start s)) (to_i4 d0)); [|lia|exact Zs].
        rewrite Hi. apply in_app_iff. auto.
  - apply update_open_record_last in H; [|exact Hv|exact Hn].
    destruct H as (init & r & r1 & Hi & Hr1 & Hi2 & -> & Hv2 & Hn2).
    inversion Hr1; subst r1; clear Hr1.
    eapply (store_inv_replace_last s _ init r); try exact I; try exact Hi;
      try reflexivity.
    + exact Hi2.
    + exact Hv2.
    + simpl. apply (J r (Z.to_nat (here s)) (to_i4 d)); [|lia|exact Zh].
      rewrite Hi. apply in_app_iff. simpl. auto.
    + left. reflexivity.
Qed.

Lemma starts_ordered_same_start init r r' :
  starts_ordered (init ++ [r]) -> seg_start r' = seg_start r ->
  starts_ordered (init ++ [r']).
Proof.
  intros R5 E. eapply starts_ordered_last; [exact R5|].
  destruct (Z.eq_dec (seg_start r) 0) as [Z0|NZ]; [left; congruence|].
  right. intros a Ha. apply In_nth_error in Ha. destruct Ha as (i & Ha).
  assert (Li : (i < length init)%nat) by (apply nth_error_Some; congruence).
  destruct (R5 i (length init) a r Li) as [E0|E1].
  - rewrite nth_error_app1 by lia. exact Ha.
  - rewrite nth_error_app2, Nat.sub_diag by lia. reflexivity.
  - contradiction.
  - rewrite E. exact E1.
Qed.

Lemma monitor_step_inv L s s' :
  store_inv s -> monitoring s = true -> monitor L s = Ok s' ->
  store_inv (incr_here s').
Proof.
  intros I M H. pose proof I as (T1 & T2 & Hv & Hn & R3 & R4 & R5 & J & S0 & C & D1 & D2).
  specialize (C M).
  apply monitor_cases in H. destruct H as [->|(d & r & rs & Hd & Hg & Hs & ->)].
  - eapply store_inv_cursor; try exact I; try reflexivity; simpl; auto; lia.
  - destruct (open_record_last _ _ _ Hn Hg) as (init & Hi & Hset).
    rewrite Hset in Hs. inversion Hs; subst rs; clear Hs.
    pose proof (getitem2_idate _ _ _ Hd ltac:(lia)) as Zd.
    assert (Z1 : 1 <= to_i4 d).
    { rewrite Forall_forall in D1. apply D1. eapply nth_error_In; eauto. }
    rewrite Hi in *.
    match goal with |- store_inv (incr_here ?t) => set (s' := t) end.
    assert (TR : the_record (incr_here s')
                 = (init ++ [set_seg_break (to_i4 d) r]) ++ [record_template (cfg s)]).
    { unfold the_record. simpl. unfold load. rewrite nth_middle. reflexivity. }
    unfold store_inv. rewrite TR. simpl.
    split; [exact T1|]. split; [exact T2|].
    split; [rewrite length_app; simpl; lia|].
    split; [rewrite Hn; unfold len; rewrite !length_app; simpl; lia|].
    split.
    { intros x Hx. apply in_app_iff in Hx. destruct Hx as [Hx|[<-|[]]]; [|lia].
      apply in_app_iff in Hx. destruct Hx as [Hx|[<-|[]]].
      - apply R3. apply in_app_iff. auto.
      - simpl. apply R3. apply in_app_iff. simpl. auto. }
    split; [eapply all_but_last_closed_snoc; eauto|].
    split.
    { apply starts_ordered_snoc; [|exact T1].
      eapply starts_ordered_same_start; [exact R5 | reflexivity]. }
    split.
    { intros x j z Hx Hj Hz. apply in_app_iff in Hx. destruct Hx as [Hx|[<-|[]]].
      - apply in_app_iff in Hx. destruct Hx as [Hx|[<-|[]]].
        + apply (J x j z); [apply in_app_iff; auto | lia | exact Hz].
        + simpl. apply (J r j z); [apply in_app_iff; simpl; auto | lia | exact Hz].
      - rewrite T1. rewrite Forall_forall in D1.
        assert (1 <= z) by (apply D1; eapply nth_error_In; eauto). lia. }
    split; [lia|]. split; [discriminate|]. auto.
Qed.

Lemma train_step_inv L s s' :
  store_inv s -> monitoring s = false -> train L s = Ok s' ->
  store_inv (incr_here s').
Proof.
  intros I M H. pose proof I as (_ & _ & _ & _ & _ & _ & _ & _ & S0 & _).
  apply train_cases in H. destruct H as [->|H].
  - eapply store_inv_cursor; try exact I; try reflexivity; simpl; auto;
      try lia; congruence.
  - destruct H as (span & mask & index & window & mX & mY & _ & _ & _ & _ & _ & H).
    simpl in H. destruct H as (_ & HX & _ & [->|[->| ->]]).
    + eapply store_inv_cursor; try exact I; try reflexivity; simpl; auto;
        try lia; congruence.
    + eapply store_inv_cursor; try exact I; try reflexivity; simpl; auto;
        try lia; congruence.
    + pose proof (count_true_bounds (slice_to_neg window (consecutive (cfg s)))).
      eapply store_inv_cursor; try exact I; try reflexivity; simpl; eauto;
        try lia.
Qed.

Lemma step_inv L c s c' s' :
  store_inv s -> step L c s = Ok (c', s') -> store_inv s'.
Proof.
  intros I H. pose proof I as (_ & _ & _ & _ & _ & _ & _ & _ & S0 & C & _).
  destruct c; simpl in H.
  - destruct (running s); inversion H; subst; [exact I|].
    eapply store_inv_cursor; try exact I; try reflexivity; simpl; auto; lia.
  - destruct (negb (monitoring s) && can_monitor s) eqn:G.
    + apply andb_true_iff in G. destruct G as [G _]. apply negb_true_iff in G.
      bind_inv H. inversion H; subst. eapply train_step_inv; eauto.
    + inversion H; subst. exact I.
  - destruct (monitoring s && can_monitor s) eqn:G.
    + apply andb_true_iff in G. destruct G as [G _].
      bind_inv H. bind_inv H. inversion H; subst.
      pose proof (update_model_inv _ _ _ I G E) as I1.
      apply update_model_frame in E. destruct E as (_ & _ & _ & _ & _ & Tm & _).
      eapply monitor_step_inv; [exact I1 | congruence | exact E0].
    + inversion H; subst. exact I.
  - inversion H; subst.
    eapply store_inv_cursor; try exact I; try reflexivity; simpl; auto; try lia.
    intros M. specialize (C M). lia.
  - inversion H; subst. exact I.
Qed.

Lemma steps_inv L n c s c' s' :
  store_inv s -> steps L n c s = (c', s') -> store_inv s'.
Proof.
  revert c s. induction n as [|n IH]; simpl; intros c s I H.
  - inversion H; subst. exact I.
  - destruct (step L c s) as [[c1 s1]|e] eqn:S.
    + eapply IH; [|exact H]. eapply step_inv; eauto.
    + inversion H; subst. exact I.
Qed.

Lemma run_from_steps L fuel c s s' :
  run_from L fuel c s = Some (Ok s') ->
  exists n, steps L n c s = (Returned, s').
Proof.
  revert c s. induction fuel as [|fuel IH]; intros c s H.
  - destruct c; try discriminate. inversion H; subst. exists 0%nat. reflexivity.
  - destruct c; try (inversion H; subst; exists 0%nat; reflexivity);
      (cbn [run_from] in H;
       match type of H with context [step L ?c s] =>
         destruct (step L c s) as [[c1 s1]|e] eqn:St; [|discriminate];
         destruct (IH _ _ H) as (n & Hn); exists (S n);
         cbn [steps]; rewrite St; exact Hn
       end).
Qed.

Lemma init_store_inv a vX vY s :
  init a vX vY = Ok s -> dates_ok vX ->
  store_inv (set_trained_date (of_int 0) s).
Proof.
  intros H D. apply dates_ok_idates in D. destruct D as [D1 D2].
  unfold init in H. bind_inv H. bind_inv H. bind_inv H.
  destruct (_ <? _); [discriminate|]. inversion H; subst s; clear H.
  unfold store_inv, the_record. simpl.
  repeat split; auto; try lia; try discriminate.
  - intros r [<-|[]]. simpl. lia.
  - intros i r Hi Hl. simpl in Hl. lia.
  - intros i j x y Hij Hi Hj. destruct j as [|[|j]]; simpl in Hj; try discriminate; lia.
  - intros r j z [<-|[]] _ Hz. simpl. rewrite Forall_forall in D1.
    assert (1 <= z) by (apply D1; eapply nth_error_In; eauto). lia.
Qed.

Lemma store_inv_ok s : store_inv s -> store_ok (the_record s).
Proof.
  intros (_ & _ & _ & _ & R3 & R4 & R5 & _). repeat split; auto.
  intros i r Hi Hb.
  assert (Li : (i < length (the_record s))%nat) by (apply nth_error_Some; congruence).
  destruct (Nat.eq_dec (S i) (length (the_record s))) as [E|N]; [exact E|].
  assert (1 <= seg_break r) by (apply (R4 i r Hi); lia). lia.
Qed.

Lemma example_dates_ok : dates_ok (example_X 15).
Proof.
  split.
  - repeat constructor; vm_compute; reflexivity.
  - repeat constructor; vm_compute; reflexivity.
Qed.

(** C3, as the program has it.  On an instance constructed from
    observations in chronological order with valid ordinal dates, at
    every point of [run] and after it: every record has
    [start <= end]; every record but the last has a break date, so that
    at most the last has [break == 0]; and the starts are ordered as far
    as they have been written: a record's start is 0 (the record appended
    at a break stays empty until its segment is first fitted) or at least
    the start of every earlier record. *)
Theorem record_store_invariant (L : numlib) (a : args) (vX vY : matrix)
    (s0 : yatsm) :
  init a vX vY = Ok s0 -> dates_ok vX ->
  (forall n c s,
     steps L n AtRunning (set_trained_date (of_int 0) s0) = (c, s) ->
     store_ok (the_record s)) /\
  (forall fuel s, run L fuel s0 = Some (Ok s) -> store_ok (the_record s)).
Proof.
  intros H D. pose proof (init_store_inv _ _ _ _ H D) as I.
  assert (A : forall n c s,
             steps L n AtRunning (set_trained_date (of_int 0) s0) = (c, s) ->
             store_ok (the_record s)).
  { intros n c s Hs. apply store_inv_ok. eapply steps_inv; eauto. }
  split; [exact A|].
  intros fuel s Hr. unfold run in Hr. apply run_from_steps in Hr.
  destruct Hr as (n & Hn). eapply A; eauto.
Qed.

Lemma record_store_invariant_witness :
  init default_args (example_X 15) (example_Y 15 8) = Ok example_init /\
  dates_ok (example_X 15) /\
  map (fun r => (seg_start r, seg_end r, seg_break r)) (the_record (example_at 9))
  = [(730000, 730800, 730900); (0, 0, 0)] /\
  (forall n c s,
     steps reference_lib n AtRunning (set_trained_date (of_int 0) example_init) = (c, s) ->
     store_ok (the_record s)) /\
  (forall fuel s, run reference_lib fuel example_init = Some (Ok s) ->
                  store_ok (the_record s)).
Proof.
  assert (H : init default_args (example_X 15) (example_Y 15 8) = Ok example_init)
    by (vm_compute; reflexivity).
  split; [exact H|]. split; [exact example_dates_ok|].
  split; [vm_compute; reflexivity|].
  exact (record_store_invariant reference_lib default_args (example_X 15)
           (example_Y 15 8) example_init H example_dates_ok).
Defined.

(** C3 as stated fails: when the break of the example is declared, the
    store holds the closed record, which starts on day 730000, followed by
    the empty record, which starts on day 0. *)
Lemma record_starts_not_sorted :
  ~ (forall (L : numlib) (a : args) (vX vY : matrix) (s0 : yatsm)
            (n : nat) (c : control) (s : yatsm),
        init a vX vY = Ok s0 -> dates_ok vX ->
        steps L n AtRunning (set_trained_date (of_int 0) s0) = (c, s) ->
        starts_sorted (the_record s)).
Proof.
  intros H.
  specialize (H reference_lib default_args (example_X 15) (example_Y 15 8)
                example_init 9%nat AtMonitor (example_at 9)).
  assert (S : starts_sorted (the_record (example_at 9))).
  { apply H; [vm_compute; reflexivity | exact example_dates_ok|].
    vm_compute. reflexivity. }
  assert (E : exists r1 r2,
             nth_error (the_record (example_at 9)) 0 = Some r1 /\
             nth_error (the_record (example_at 9)) 1 = Some r2 /\
             seg_start r1 = 730000 /\ seg_start r2 = 0).
  { vm_compute. do 2 eexists. repeat split. }
  destruct E as (r1 & r2 & E1 & E2 & S1 & S2).
  specialize (S 0%nat 1%nat r1 r2 ltac:(lia) E1 E2). lia.
Qed.

(** The same store is what a complete run of the example leaves. *)
Example run_leaves_empty_record :
  exists s, run reference_lib 60 example_init = Some (Ok s) /\
            map (fun r => (seg_start r, seg_end r, seg_break r)) (the_record s)
            = [(730000, 730800, 730900); (0, 0, 0)].
Proof. eexists. split; vm_compute; reflexivity. Qed.

(** * Further properties of the program *)

(** ** The design matrix *)

Lemma stack_harmonics_rows L w x freq (M : matrix) :
  M <> [] -> rows_of_length (len x) M ->
  stack_harmonics L w x freq (Matrix M)
  = Ok (Matrix (M ++ flat_map (harmonic_rows L w x) freq)).
Proof.
  revert M. induction freq as [|f freq IH]; intros M HM HR; simpl.
  - rewrite app_nil_r. reflexivity.
  - unfold vstack. simpl atleast_2d.
    assert (S1 : shape1 M = len x).
    { destruct M as [|r M]; [congruence|]. inversion HR; subst. assumption. }
    assert (S2 : shape1 (harmonic_rows L w x f) = len x).
    { unfold harmonic_rows, shape1, len. rewrite length_map. reflexivity. }
    rewrite S1, S2, Z.eqb_refl. simpl.
    rewrite IH.
    + rewrite <- app_assoc. reflexivity.
    + destruct M; [congruence | discriminate].
    + apply Forall_app. split; [exact HR|].
      unfold harmonic_rows. repeat constructor; unfold len; rewrite length_map; reflexivity.
Qed.


(** ** Fitted models *)

Lemma binary_round_aux_not_negative p em mx ex lx :
  flt (binary_round_aux p em false mx ex lx) f0 = false.
Proof.
  unfold binary_round_aux.
  destruct (shr_fexp p em mx ex lx) as [mrs' e'].
  destruct (shr_fexp p em _ e' loc_Exact) as [mrs'' e''].
  destruct (shr_m mrs''); try reflexivity.
  destruct (e'' <=? em - p); reflexivity.
Qed.

(** A square root is never below zero. *)
Lemma fsqrt_not_negative x : flt (fsqrt x) f0 = false.
Proof.
  unfold fsqrt, SFsqrt. destruct x as [[|]|[|]| |[|] m e]; try reflexivity.
  destruct (SFsqrt_core_binary prec emax (Z.pos m) e) as [[mz ez] lz].
  apply binary_round_aux_not_negative.
Qed.

Lemma setitem_nth_error {A : Type} (l : list A) i v l' :
  setitem l i v = Ok l' ->
  length l' = length l /\
  nth_error l' (index_pos l i) = Some v /\
  forall k, k <> index_pos l i -> nth_error l' k = nth_error l k.
Proof.
  intros H. apply setitem_pos in H. destruct H as [-> Hp].
  split; [apply length_replace_nth|]. split.
  - apply nth_error_replace_nth_same. exact Hp.
  - intros k Hk. apply nth_error_replace_nth_other. congruence.
Qed.

Lemma finish_fit_model L c_ i_ vX y m :
  finish_fit L c_ i_ vX y = Ok m ->
  coef_ m = c_ /\ intercept_ m = i_ /\ intercept_folded m /\
  nobs m = len y /\ length (fittedvalues m) = length vX /\
  flt (rmse m) f0 = false.
Proof.
  unfold finish_fit. intros H. bind_inv H. rename v into c0.
  bind_inv H. rename v into c. bind_inv H. rename v into r.
  inversion H; subst m; clear H.
  cbn [coef coef_ intercept_ nobs fittedvalues rmse].
  split; [reflexivity|]. split; [reflexivity|].
  apply getitem_pos in E. apply setitem_nth_error in E0.
  destruct E0 as (Hl & Hs & Ho). change (index_pos c_ 0) with 0%nat in *.
  split.
  { unfold intercept_folded. cbn [coef coef_ intercept_].
    split; [exact Hl|]. split.
    - rewrite Hs, E. reflexivity.
    - intros k Hk. apply Ho. lia. }
  split; [reflexivity|]. split; [apply length_map|].
  unfold math_sqrt in E1. destruct (flt _ f0); [discriminate|].
  inversion E1; subst r. apply fsqrt_not_negative.
Qed.

(** [fit_models] returns one model per requested band, each fitted on the
    [here - start + 1] observations from the segment start to the cursor,
    with as many fitted values; in each model [coef] is [coef_] with the
    intercept added to coefficient 0 and nothing else changed, and the
    RMSE is never negative. *)
Theorem fit_models_models (L : numlib) (s : yatsm) (vX vY : matrix)
    (bands : list Z) (ms : list lasso) :
  fit_models L s vX vY bands = Ok ms ->
  length ms = length bands /\
  Forall (fun m =>
            nobs m = Z.max 0 (here s + 1 - start s) /\
            len (fittedvalues m) = nobs m /\
            intercept_folded m /\
            flt (rmse m) f0 = false) ms.
Proof.
  intros H.
  assert (A : forall b m,
             (Xi <- take vX (arange (start s) (here s + 1)) ;;
              yb <- getitem vY b ;;
              yi <- take yb (arange (start s) (here s + 1)) ;;
              (if lassocv (cfg s) then LassoLarsIC_fit L Xi yi
               else GLMLasso_fit L Xi yi (of_int 20))) = Ok m ->
             nobs m = Z.max 0 (here s + 1 - start s) /\
             len (fittedvalues m) = nobs m /\ intercept_folded m /\
             flt (rmse m) f0 = false).
  { intros b m Hm. bind_inv Hm. rename v into Xi. bind_inv Hm. bind_inv Hm.
    rename v0 into yi. apply mapM_length in E, E1. rewrite length_arange in E, E1.
    assert (F : nobs m = len yi /\ length (fittedvalues m) = length Xi /\
                intercept_folded m /\ flt (rmse m) f0 = false).
    { unfold LassoLarsIC_fit, GLMLasso_fit in Hm.
      destruct (lassocv (cfg s)); apply finish_fit_model in Hm; tauto. }
    destruct F as (Hn & Hl & Hf & Hr).
    unfold len in *. rewrite Hn, Hl, E, E1.
    split; [lia|]. split; [reflexivity|]. split; [exact Hf | exact Hr]. }
  unfold fit_models, fit_models_LassoCV, fit_models_GLMnet in H.
  destruct (lassocv (cfg s)) eqn:C.
  - split; [eapply mapM_length; eauto|].
    eapply mapM_Forall; [exact H|]. intros b m _ Hm. apply (A b m). exact Hm.
  - split; [eapply mapM_length; eauto|].
    eapply mapM_Forall; [exact H|]. intros b m _ Hm. apply (A b m). exact Hm.
Qed.

Lemma fit_models_models_witness :
  let s := example_at 5 in
  let ms := match fit_models reference_lib s (X s) (Y s) [0; 1] with
            | Ok r => r
            | Raise _ => []
            end in
  fit_models reference_lib s (X s) (Y s) [0; 1] = Ok ms /\
  map nobs ms = [6; 6] /\
  length ms = length [0; 1] /\
  Forall (fun m =>
            nobs m = Z.max 0 (here s + 1 - start s) /\
            len (fittedvalues m) = nobs m /\
            intercept_folded m /\
            flt (rmse m) f0 = false) ms.
Proof.
  intros s ms.
  assert (H : fit_models reference_lib s (X s) (Y s) [0; 1] = Ok ms)
    by (vm_compute; reflexivity).
  split; [exact H|]. split; [vm_compute; reflexivity|].
  exact (fit_models_models reference_lib s (X s) (Y s) [0; 1] ms H).
Defined.

(** ** Errors of construction *)

Lemma effective_min_obs_no_index_error a vX :
  effective_min_obs a vX <> Raise IndexError.
Proof.
  unfold effective_min_obs, py_int. destruct (arg_min_obs a); [discriminate|].
  destruct (f_trunc _); discriminate.
Qed.

(** Construction raises the index error exactly when [fit_indices] is
    given, not empty, and its maximum is not below the number of bands,
    or [fit_indices] passes and the same holds of [test_indices]; an empty
    index set raises the value error of [max] instead, and [fit_indices] is
    looked at first. *)
Theorem init_index_errors (a : args) (vX vY : matrix) :
  (init a vX vY = Raise IndexError <->
   (exists fi m, arg_fit_indices a = Some fi /\ max_of fi = Ok m /\ shape0 vY <= m) \/
   ((exists fit, check_indices (arg_fit_indices a) (shape0 vY) = Ok fit) /\
    exists ti m, arg_test_indices a = Some ti /\ max_of ti = Ok m /\ shape0 vY <= m)) /\
  (arg_fit_indices a = Some [] -> init a vX vY = Raise ValueError) /\
  ((exists fit, check_indices (arg_fit_indices a) (shape0 vY) = Ok fit) ->
   arg_test_indices a = Some [] -> init a vX vY = Raise ValueError).
Proof.
  assert (C : forall g e, check_indices g (shape0 vY) = Raise e ->
              (e = IndexError /\ exists l m, g = Some l /\ max_of l = Ok m /\ shape0 vY <= m)
              \/ (e = ValueError /\ g = Some [])).
  { intros g e H. unfold check_indices in H. destruct g as [l|]; [|discriminate].
    destruct l as [|x l]; simpl in H.
    - inversion H. right. auto.
    - destruct (_ <? _) eqn:B; [discriminate|]. apply Z.ltb_ge in B.
      inversion H. left. split; [reflexivity|]. exists (x :: l). eexists.
      split; [reflexivity|]. split; [reflexivity | exact B]. }
  assert (D : forall l m, max_of l = Ok m -> shape0 vY <= m ->
              check_indices (Some l) (shape0 vY) = Raise IndexError).
  { intros l m Hm Hb. unfold check_indices. rewrite Hm. simpl.
    apply Z.ltb_ge in Hb. rewrite Hb. reflexivity. }
  split; [split|split].
  - intros H. unfold init in H.
    destruct (check_indices (arg_fit_indices a) (shape0 vY)) as [fit|e] eqn:F.
    + simpl in H.
      destruct (check_indices (arg_test_indices a) (shape0 vY)) as [test|e] eqn:T.
      * simpl in H. exfalso.
        destruct (effective_min_obs a vX) as [m|e] eqn:M; simpl in H.
        -- destruct (_ <? _); discriminate.
        -- inversion H; subst. eapply effective_min_obs_no_index_error; eauto.
      * simpl in H. inversion H; subst. right. split; [eauto|].
        destruct (C _ _ T) as [[_ (l & m & ? & ? & ?)]|[? _]]; [eauto|discriminate].
    + simpl in H. inversion H; subst. left.
      destruct (C _ _ F) as [[_ (l & m & ? & ? & ?)]|[? _]]; [eauto|discriminate].
  - intros [(fi & m & Hf & Hm & Hb)|((fit & Hf) & ti & m & Ht & Hm & Hb)]; unfold init.
    + rewrite Hf, (D _ _ Hm Hb). reflexivity.
    + rewrite Hf, Ht, (D _ _ Hm Hb). reflexivity.
  - intros Hf. unfold init. rewrite Hf. reflexivity.
  - intros (fit & Hf) Ht. unfold init. rewrite Hf, Ht. reflexivity.
Qed.

(** An index set that reaches past the last band, and an empty one. *)
Example init_index_error_examples :
  init bands_3_4_args (example_X 15) (repeat (repeat f0 15) 4) = Raise IndexError /\
  init {| arg_consecutive := 5; arg_threshold := f0; arg_min_obs := None;
          arg_min_rmse := None; arg_fit_indices := Some [];
          arg_test_indices := Some [9]; arg_lassocv := false |}
       (example_X 15) (example_Y 15 8) = Raise ValueError.
Proof. split; vm_compute; reflexivity. Qed.

(** ** The floor of the denominators *)

Lemma flt_trans a b c : flt a b = true -> flt b c = true -> flt a c = true.
Proof. intros H1 H2. eapply flt_fle_trans; [exact H1 | apply flt_fle; exact H2]. Qed.

(** When [min_rmse] is not given, or is given as zero, the instance keeps
    [sys.float_info.min], and the denominator of a normalized residual is
    then strictly positive for every model, whatever its RMSE (zero and
    NaN included): no residual is divided by zero. *)
Theorem default_denominator_positive (a : args) (vX vY : matrix) (s : yatsm)
    (m : lasso) :
  init a vX vY = Ok s ->
  truthy (arg_min_rmse a) = false ->
  min_rmse (cfg s) = float_info_min /\
  flt f0 (denominator s m) = true /\
  fle float_info_min (denominator s m) = true.
Proof.
  intros H Ht.
  assert (Hm : min_rmse (cfg s) = float_info_min).
  { unfold init in H. bind_inv H. bind_inv H. bind_inv H.
    destruct (_ <? _); [discriminate|]. inversion H; subst s. simpl.
    unfold effective_min_rmse. rewrite Ht. destruct (arg_min_rmse a); reflexivity. }
  split; [exact Hm|]. unfold denominator. rewrite Hm.
  assert (P : flt f0 float_info_min = true) by reflexivity.
  split.
  - unfold pymax. destruct (fgt (rmse m) float_info_min) eqn:G; [|exact P].
    eapply flt_trans; [exact P | exact G].
  - apply pymax_floor. discriminate.
Qed.

Lemma default_denominator_positive_witness :
  let a := {| arg_consecutive := 5; arg_threshold := arg_threshold default_args;
              arg_min_obs := None; arg_min_rmse := Some (S754_zero true);
              arg_fit_indices := None; arg_test_indices := None;
              arg_lassocv := false |} in
  let s := value_of (init a (example_X 15) (example_Y 15 8)) in
  let m := {| coef_ := []; intercept_ := f0; coef := []; nobs := 0;
              fittedvalues := []; rss := f0; rmse := S754_nan |} in
  init a (example_X 15) (example_Y 15 8) = Ok s /\
  truthy (arg_min_rmse a) = false /\
  min_rmse (cfg s) = float_info_min /\
  flt f0 (denominator s m) = true /\
  fle float_info_min (denominator s m) = true.
Proof.
  intros a s m.
  assert (H1 : init a (example_X 15) (example_Y 15 8) = Ok s) by (vm_compute; reflexivity).
  assert (H2 : truthy (arg_min_rmse a) = false) by reflexivity.
  split; [exact H1|]. split; [exact H2|].
  exact (default_denominator_positive a (example_X 15) (example_Y 15 8) s m H1 H2).
Defined.

(** A negative [min_rmse] is kept, and with it a model of RMSE zero gets
    the denominator zero. *)
Example negative_min_rmse_no_floor :
  let a := {| arg_consecutive := 5; arg_threshold := arg_threshold default_args;
              arg_min_obs := None; arg_min_rmse := Some (of_int (-1));
              arg_fit_indices := None; arg_test_indices := None;
              arg_lassocv := false |} in
  pymax (min_rmse (cfg (value_of (init a (example_X 15) (example_Y 15 8))))) f0 = f0.
Proof. vm_compute. reflexivity. Qed.

(** ** What [train] leaves alone *)

(** [train] never writes to the record store and keeps none of the models
    it fits: the heap, the record array, the record count, [models],
    [trained_date], the [ran] flag and the configuration are as before,
    and the segment start is where it was or one observation further. *)
Theorem train_leaves_store (L : numlib) (s s' : yatsm) :
  train L s = Ok s' ->
  heap s' = heap s /\ record s' = record s /\ n_record s' = n_record s /\
  models s' = models s /\ trained_date s' = trained_date s /\
  ran s' = ran s /\ cfg s' = cfg s /\
  (start s' = start s \/ start s' = start s + 1 /\ monitoring s' = monitoring s).
Proof.
  intros H. apply train_cases in H. destruct H as [->|H].
  - repeat split; auto.
  - destruct H as (span & mask & index & window & mX & mY & _ & _ & _ & _ & _ & H).
    simpl in H. destruct H as (_ & _ & _ & [->|[->| ->]]); simpl;
      repeat split; auto.
Qed.

Lemma train_leaves_store_witness :
  let s := noisy_at 4 in
  let s' := value_of (train reference_lib s) in
  train reference_lib s = Ok s' /\
  heap s' = heap s /\ record s' = record s /\ n_record s' = n_record s /\
  models s' = models s /\ trained_date s' = trained_date s /\
  ran s' = ran s /\ cfg s' = cfg s /\
  (start s' = start s \/ start s' = start s + 1 /\ monitoring s' = monitoring s).
Proof.
  intros s s'.
  assert (H : train reference_lib s = Ok s') by (vm_compute; reflexivity).
  split; [exact H|].
  exact (train_leaves_store reference_lib s s' H).
Defined.

(** When [train] switches to monitoring, the segment start is unchanged,
    the cursor is strictly before where it was, the segment from the start
    to the cursor holds at least [min_obs] observations, the position
    before the call is kept in [_here], and [X] and [Y] are the arrays just
    stored in [_X] and [_Y], with no more observations than before. *)
Theorem train_stable_cursor (L : numlib) (s s' : yatsm) :
  train L s = Ok s' -> monitoring s = false -> monitoring s' = true ->
  0 <= n_coef (cfg s) ->
  start s' = start s /\ here s' < here s /\
  min_obs (cfg s) <= here s' - start s' + 1 /\
  _here s' = here s /\ X s' = _X s' /\ Y s' = _Y s' /\
  shape0 (X s') <= shape0 (X s).
Proof.
  intros H M0 M1 Hn. apply train_cases in H. destruct H as [->|H]; [congruence|].
  destruct H as (span & mask & index & window & mX & mY & _ & _ & Hsp
                 & Hmask & Htake & H).
  simpl in H. destruct H as (Hmin & HX & _ & H).
  assert (Hsi : 0 <= span_index s) by lia.
  pose proof (train_window_count _ _ _ _ _ _ Hmask Htake Hsi) as [S1 S2].
  unfold span_index in *. apply compress_length in HX.
  destruct H as [->|[->| ->]]; simpl in *; try congruence.
  unfold shape0. repeat split; auto; lia.
Qed.

Lemma train_stable_cursor_witness :
  let s := noisy_at 4 in
  let s' := value_of (train reference_lib s) in
  train reference_lib s = Ok s' /\ monitoring s = false /\ monitoring s' = true /\
  0 <= n_coef (cfg s) /\
  (here s, here s', shape0 (X s), shape0 (X s')) = (6, 4, 15, 14) /\
  start s' = start s /\ here s' < here s /\
  min_obs (cfg s) <= here s' - start s' + 1 /\
  _here s' = here s /\ X s' = _X s' /\ Y s' = _Y s' /\
  shape0 (X s') <= shape0 (X s).
Proof.
  intros s s'.
  assert (H1 : train reference_lib s = Ok s') by (vm_compute; reflexivity).
  assert (H2 : monitoring s = false) by (vm_compute; reflexivity).
  assert (H3 : monitoring s' = true) by (vm_compute; reflexivity).
  assert (H4 : 0 <= n_coef (cfg s)) by (vm_compute; discriminate).
  split; [exact H1|]. split; [exact H2|]. split; [exact H3|]. split; [exact H4|].
  split; [vm_compute; reflexivity|].
  exact (train_stable_cursor reference_lib s s' H1 H2 H3 H4).
Defined.

(** ** Bands needed by the mask *)

Lemma getitem_bound {A : Type} (l : list A) i a :
  getitem l i = Ok a -> - len l <= i < len l.
Proof.
  intros H. pose proof (getitem_pos _ _ _ H) as P.
  assert (B : (index_pos l i < length l)%nat) by (apply nth_error_Some; congruence).
  unfold getitem in H. unfold index_pos, len in *.
  destruct (i <? 0) eqn:N.
  - apply Z.ltb_lt in N. destruct (i + _ <? 0) eqn:M; [discriminate|].
    apply Z.ltb_ge in M. lia.
  - apply Z.ltb_ge in N. lia.
Qed.

Lemma train_mask_five_bands L s span r :
  train_mask L s span = Ok r -> 5 <= shape0 (Y s).
Proof.
  unfold train_mask. intros H. bind_inv H. bind_inv H. bind_inv H. rename v1 into Yw.
  bind_inv H. unfold multitemp_mask in E2. bind_inv E2. bind_inv E2.
  apply getitem_bound in E4. unfold take_columns in E1. apply mapM_length in E1.
  unfold shape0, len in *. unfold swir1_band in E4. lia.
Qed.

(** With fewer than five bands the mask cannot read the shortwave-infrared
    band: [train] returns only from its first test, changing nothing, and
    a run from construction never monitors; the record store stays the one
    empty record and the observations stay as given. *)
Theorem few_bands_never_monitor (L : numlib) (a : args) (vX vY : matrix)
    (s0 : yatsm) :
  init a vX vY = Ok s0 -> shape0 vY < 5 ->
  forall n c s,
    steps L n AtRunning (set_trained_date (of_int 0) s0) = (c, s) ->
    monitoring s = false /\ the_record s = [record_template (cfg s0)] /\
    X s = vX /\ Y s = vY /\
    (forall s', train L s = Ok s' -> s' = s).
Proof.
  intros Hi Hb.
  assert (T : forall s s', shape0 (Y s) < 5 -> train L s = Ok s' -> s' = s).
  { intros s s' Hs H. apply train_cases in H. destruct H as [H|H]; [exact H|].
    destruct H as (span & mask & index & window & mX & mY & _ & _ & _ & Hm & _).
    apply train_mask_five_bands in Hm. lia. }
  assert (Q : forall n c s c' t,
             monitoring s = false /\ heap s = heap s0 /\ record s = record s0 /\
             X s = vX /\ Y s = vY ->
             steps L n c s = (c', t) ->
             monitoring t = false /\ heap t = heap s0 /\ record t = record s0 /\
             X t = vX /\ Y t = vY).
  { induction n as [|n IH]; intros c s c' t I H; simpl in H.
    - inversion H; subst. exact I.
    - destruct (step L c s) as [[c1 s1]|e] eqn:St; [|inversion H; subst; exact I].
      apply (IH c1 s1 c' t); [|exact H].
      destruct I as (M & Hh & Hr & HX & HY). destruct c; simpl in St.
      + destruct (running s); injection St as <- <-; simpl; auto.
      + destruct (negb (monitoring s) && can_monitor s).
        * bind_inv St. injection St as <- <-.
          apply T in E; [|rewrite HY; exact Hb]. subst v. simpl. auto.
        * injection St as <- <-. auto.
      + rewrite M in St. simpl in St. injection St as <- <-. auto.
      + injection St as <- <-. simpl. auto.
      + injection St as <- <-. auto. }
  intros n c s H.
  assert (I0 : monitoring (set_trained_date (of_int 0) s0) = false /\
               heap (set_trained_date (of_int 0) s0) = heap s0 /\
               record (set_trained_date (of_int 0) s0) = record s0 /\
               X (set_trained_date (of_int 0) s0) = vX /\
               Y (set_trained_date (of_int 0) s0) = vY /\
               the_record s0 = [record_template (cfg s0)]).
  { unfold init in Hi. bind_inv Hi. bind_inv Hi. bind_inv Hi.
    destruct (_ <? _); [discriminate|]. inversion Hi; subst s0. simpl.
    repeat split; reflexivity. }
  destruct I0 as (A1 & A2 & A3 & A4 & A5 & A6).
  destruct (Q n AtRunning _ c s (conj A1 (conj A2 (conj A3 (conj A4 A5)))) H)
    as (M & Hh & Hr & HX & HY).
  split; [exact M|]. split; [unfold the_record in *; rewrite Hh, Hr; exact A6|].
  split; [exact HX|]. split; [exact HY|].
  intros s' Ht. apply (T s s'); [rewrite HY; exact Hb | exact Ht].
Qed.

Lemma few_bands_never_monitor_witness :
  let s0 := value_of (init default_args (example_X 15) three_band_Y) in
  let cs := steps reference_lib 6 AtRunning (set_trained_date (of_int 0) s0) in
  init default_args (example_X 15) three_band_Y = Ok s0 /\
  shape0 three_band_Y < 5 /\
  here (snd cs) = 4 /\
  monitoring (snd cs) = false /\
  the_record (snd cs) = [record_template (cfg s0)] /\
  X (snd cs) = example_X 15 /\ Y (snd cs) = three_band_Y /\
  (forall s', train reference_lib (snd cs) = Ok s' -> s' = snd cs).
Proof.
  intros s0 cs.
  assert (H1 : init default_args (example_X 15) three_band_Y = Ok s0)
    by (vm_compute; reflexivity).
  assert (H2 : shape0 three_band_Y < 5) by (vm_compute; reflexivity).
  split; [exact H1|]. split; [exact H2|]. split; [vm_compute; reflexivity|].
  exact (few_bands_never_monitor reference_lib default_args (example_X 15)
           three_band_Y s0 H1 H2 6%nat (fst cs) (snd cs)
           (surjective_pairing cs)).
Defined.

(** ** What [update_model] writes *)

Lemma nth_error_combine {A B : Type} (l : list A) (l' : list B) n a b :
  nth_error (combine l l') n = Some (a, b) ->
  nth_error l n = Some a /\ nth_error l' n = Some b.
Proof.
  revert l' n. induction l as [|x l IH]; intros [|y l'] [|n]; simpl; intros H;
    try discriminate.
  - inversion H; subst. auto.
  - apply IH. exact H.
Qed.

Lemma broadcast_length {A : Type} (v : list A) n v' :
  broadcast v n = Ok v' -> length v' = n.
Proof.
  unfold broadcast. destruct v as [|a [|b v]].
  - destruct (Nat.eqb _ n) eqn:E; intros H; inversion H; subst.
    apply Nat.eqb_eq in E. exact E.
  - intros H; inversion H; subst. apply repeat_length.
  - destruct (Nat.eqb _ n) eqn:E; intros H; inversion H; subst.
    apply Nat.eqb_eq in E. exact E.
Qed.

(** [coef[:, i] = v]: column [i] of every row takes the float32 value of
    the entry of [v] for that row; the rest of the row is kept. *)
Lemma set_column_entries (M : matrix) i v M' :
  0 <= i -> set_column M i v = Ok M' ->
  exists v', broadcast v (length M) = Ok v' /\ length M' = length M /\
    forall j row, nth_error M j = Some row ->
      exists row' x, nth_error M' j = Some row' /\ nth_error v' j = Some x /\
        length row' = length row /\
        nth_error row' (Z.to_nat i) = Some (f32 x) /\
        forall k, k <> Z.to_nat i -> nth_error row' k = nth_error row k.
Proof.
  intros Hi H. unfold set_column in H. bind_inv H. rename v0 into v'.
  exists v'. split; [exact E|].
  pose proof (broadcast_length _ _ _ E) as Lv.
  pose proof (mapM_length _ _ _ H) as LM. rewrite length_combine, Lv, Nat.min_id in LM.
  split; [exact LM|]. intros j row Hj.
  assert (Hlt : (j < length M')%nat).
  { rewrite LM. apply nth_error_Some. congruence. }
  destruct (nth_error M' j) as [row'|] eqn:Hj'; [|apply nth_error_None in Hj'; lia].
  destruct (mapM_nth _ _ _ _ _ H Hj') as ([row0 x] & Hc & Hs).
  apply nth_error_combine in Hc. destruct Hc as [Hr Hx]. simpl in Hs.
  unfold matrix, float in *. rewrite Hj in Hr. inversion Hr; subst row0.
  apply setitem_nth_error in Hs. destruct Hs as (Ll & Hw & Ho).
  replace (index_pos row i) with (Z.to_nat i) in *
    by (unfold index_pos; destruct (i <? 0) eqn:N;
        [apply Z.ltb_lt in N; lia | reflexivity]).
  exists row', x. auto.
Qed.

(** The loop that copies the models into a record writes the columns
    [i], [i + 1], ... and leaves the columns before [i]. *)
Lemma store_models_entries ms : forall i r r',
  0 <= i -> store_models i ms r = Ok r' ->
  length (seg_rmse r') = length (seg_rmse r) /\
  length (seg_coef r') = length (seg_coef r) /\
  (forall j row, nth_error (seg_coef r) j = Some row ->
     exists row', nth_error (seg_coef r') j = Some row' /\
                  length row' = length row) /\
  (forall p, (p < Z.to_nat i)%nat ->
     nth_error (seg_rmse r') p = nth_error (seg_rmse r) p) /\
  (forall j row p, nth_error (seg_coef r) j = Some row -> (p < Z.to_nat i)%nat ->
     exists row', nth_error (seg_coef r') j = Some row' /\
                  nth_error row' p = nth_error row p) /\
  (forall k m, nth_error ms k = Some m ->
     nth_error (seg_rmse r') (Z.to_nat i + k) = Some (f32 (rmse m)) /\
     exists v, broadcast (coef m) (length (seg_coef r)) = Ok v /\
       forall j x, nth_error v j = Some x ->
         exists row', nth_error (seg_coef r') j = Some row' /\
                      nth_error row' (Z.to_nat i + k) = Some (f32 x)).
Proof.
  induction ms as [|m ms IH]; simpl; intros i r r' Hi H.
  - inversion H; subst r'. repeat split; auto.
    + intros j row Hj. eauto.
    + intros j row p Hj _. eauto.
    + destruct k; discriminate.
    + destruct k; discriminate.
  - bind_inv H. rename v into c. bind_inv H. rename v into e.
    apply IH in H; [|lia]. simpl in H.
    destruct H as (L1 & L2 & P0 & P1 & P2 & P3).
    apply set_column_entries in E; [|exact Hi].
    destruct E as (v' & Hb & Lc & Hc).
    apply setitem_nth_error in E0. destruct E0 as (Le & He & Ho).
    replace (index_pos (seg_rmse r) i) with (Z.to_nat i) in *
      by (unfold index_pos; destruct (i <? 0) eqn:N;
          [apply Z.ltb_lt in N; lia | reflexivity]).
    replace (Z.to_nat (i + 1)) with (S (Z.to_nat i)) in * by lia.
    split; [congruence|]. split; [congruence|]. split; [|split; [|split]].
    + intros j row Hj. destruct (Hc j row Hj) as (row1 & x & Hj1 & _ & Lr & _).
      destruct (P0 j row1 Hj1) as (row' & Hj' & Lr').
      exists row'. split; [exact Hj' | congruence].
    + intros p Hp. rewrite P1 by lia. apply Ho. lia.
    + intros j row p Hj Hp. destruct (Hc j row Hj) as (row1 & x & Hj1 & _ & _ & _ & Hk).
      destruct (P2 j row1 p Hj1 ltac:(lia)) as (row' & Hj' & Hp').
      exists row'. split; [exact Hj'|]. rewrite Hp'. apply Hk. lia.
    + intros [|k] m' Hk; simpl in Hk.
      * inversion Hk; subst m'. rewrite Nat.add_0_r. split.
        { rewrite P1 by lia. exact He. }
        exists v'. split; [exact Hb|]. intros j x Hx.
        assert (Hlt : (j < length (seg_coef r))%nat).
        { rewrite <- (broadcast_length _ _ _ Hb). apply nth_error_Some. congruence. }
        destruct (nth_error (seg_coef r) j) as [row|] eqn:Hj;
          [|apply nth_error_None in Hj; lia].
        destruct (Hc j row Hj) as (row1 & x1 & Hj1 & Hx1 & _ & Hw & _).
        rewrite Hx in Hx1. inversion Hx1; subst x1.
        destruct (P2 j row1 (Z.to_nat i) Hj1 ltac:(lia)) as (row' & Hj' & Hp').
        exists row'. split; [exact Hj'|]. rewrite Hp'. exact Hw.
      * replace (Z.to_nat i + S k)%nat with (S (Z.to_nat i) + k)%nat by lia.
        destruct (P3 k m' Hk) as (R1 & v & Hv & R2). split; [exact R1|].
        exists v. rewrite <- Lc. split; [exact Hv|]. exact R2.
Qed.

(** The two branches of [update_model] on a store whose open record is the
    last one. *)
Lemma update_model_cases L s s' :
  (record s < length (heap s))%nat ->
  n_record s = len (the_record s) - 1 ->
  update_model L s = Ok s' ->
  exists d init r r',
    getitem2 (X s) (here s) 1 = Ok d /\
    the_record s = init ++ [r] /\ the_record s' = init ++ [r'] /\
    (record s' < length (heap s'))%nat /\
    n_record s' = len (the_record s') - 1 /\
    ((fgt (fabs (fsub d (trained_date s))) ndays = false /\
      r' = set_seg_end (to_i4 d) r /\
      models s' = models s /\ trained_date s' = trained_date s) \/
     (fgt (fabs (fsub d (trained_date s))) ndays = true /\
      exists d0,
        getitem2 (X s) (start s) 1 = Ok d0 /\
        fit_models L s (X s) (Y s) (fit_indices (cfg s)) = Ok (models s') /\
        store_models 0 (models s')
          (set_seg_end (to_i4 d) (set_seg_start (to_i4 d0) r)) = Ok r' /\
        trained_date s' = d)).
Proof.
  intros Hv Hn H. unfold update_model in H. bind_inv H. rename v into d.
  destruct (fgt _ ndays) eqn:G.
  - bind_inv H. rename v into ms. bind_inv H. rename v into d0. simpl in E1.
    bind_inv H. rename v into s2. bind_inv H. rename v into s3.
    bind_inv H. rename v into s4. inversion H; subst s'; clear H.
    apply update_open_record_last in E2; [|exact Hv|exact Hn].
    destruct E2 as (init & r & r1 & Hi & Hr1 & Hi2 & -> & Hv2 & Hn2).
    change (the_record s = init ++ [r]) in Hi.
    inversion Hr1; subst r1; clear Hr1.
    apply update_open_record_last in E3; [|exact Hv2|exact Hn2].
    destruct E3 as (init2 & r2 & r2' & Hj & Hr2 & Hi3 & -> & Hv3 & Hn3).
    rewrite Hi2 in Hj. apply app_inj_tail in Hj. destruct Hj as [<- <-].
    inversion Hr2; subst r2'; clear Hr2.
    apply update_open_record_last in E4; [|exact Hv3|exact Hn3].
    destruct E4 as (init3 & r3 & r3' & Hk & Hr3 & Hi4 & -> & Hv4 & Hn4).
    rewrite Hi3 in Hk. apply app_inj_tail in Hk. destruct Hk as [<- <-].
    simpl in Hr3.
    exists d, init, r, r3'. split; [exact E|]. split; [exact Hi|].
    split; [unfold the_record in Hi4 |- *; simpl in Hi4 |- *; exact Hi4|].
    split; [simpl in Hv4 |- *; exact Hv4|].
    split; [unfold the_record in Hn4 |- *; simpl in Hn4 |- *; exact Hn4|].
    right. split; [exact G|].
    exists d0. simpl. auto.
  - apply update_open_record_last in H; [|exact Hv|exact Hn].
    destruct H as (init & r & r1 & Hi & Hr1 & Hi2 & -> & Hv2 & Hn2).
    inversion Hr1; subst r1; clear Hr1.
    exists d, init, r, (set_seg_end (to_i4 d) r).
    split; [exact E|]. split; [exact Hi|]. split; [exact Hi2|].
    split; [exact Hv2|]. split; [exact Hn2|].
    left. simpl. split; [exact G|]. auto.
Qed.

(** On a store whose open record is the last one, [update_model] rewrites
    that record only: its end becomes the date under the cursor and its
    break is kept.  When that date is more than 365.25 days from
    [trained_date] the models are refitted on the fit bands, the start
    becomes the date at [start] and [trained_date] the date under the
    cursor; otherwise the start, the coefficients, the RMSEs, the models
    and [trained_date] are as before. *)
Theorem update_model_effect (L : numlib) (s s' : yatsm) :
  (record s < length (heap s))%nat ->
  n_record s = len (the_record s) - 1 ->
  update_model L s = Ok s' ->
  exists d init r r',
    getitem2 (X s) (here s) 1 = Ok d /\
    the_record s = init ++ [r] /\ the_record s' = init ++ [r'] /\
    seg_end r' = to_i4 d /\ seg_break r' = seg_break r /\
    if fgt (fabs (fsub d (trained_date s))) ndays then
      (exists d0, getitem2 (X s) (start s) 1 = Ok d0 /\ seg_start r' = to_i4 d0) /\
      fit_models L s (X s) (Y s) (fit_indices (cfg s)) = Ok (models s') /\
      trained_date s' = d
    else
      seg_start r' = seg_start r /\ seg_coef r' = seg_coef r /\
      seg_rmse r' = seg_rmse r /\
      models s' = models s /\ trained_date s' = trained_date s.
Proof.
  intros Hv Hn H.
  destruct (update_model_cases L s s' Hv Hn H)
    as (d & init & r & r' & Hd & Hi & Hi' & _ & _
        & [(G & -> & Hm & Ht)|(G & d0 & Hd0 & Hf & Hs & Ht)]);
    exists d, init, r; eexists; (split; [exact Hd|]); (split; [exact Hi|]);
    (split; [exact Hi'|]); rewrite G.
  - simpl. repeat split; assumption.
  - apply store_models_dates in Hs. simpl in Hs. destruct Hs as (S1 & S2 & S3).
    split; [exact S2|]. split; [exact S3|]. split; [eauto|]. auto.
Qed.

Lemma update_model_effect_witness :
  let s := example_at 5 in
  let s' := value_of (update_model reference_lib s) in
  (record s < length (heap s))%nat /\
  n_record s = len (the_record s) - 1 /\
  update_model reference_lib s = Ok s' /\
  exists d init r r',
    getitem2 (X s) (here s) 1 = Ok d /\
    the_record s = init ++ [r] /\ the_record s' = init ++ [r'] /\
    seg_end r' = to_i4 d /\ seg_break r' = seg_break r /\
    if fgt (fabs (fsub d (trained_date s))) ndays then
      (exists d0, getitem2 (X s) (start s) 1 = Ok d0 /\ seg_start r' = to_i4 d0) /\
      fit_models reference_lib s (X s) (Y s) (fit_indices (cfg s)) = Ok (models s') /\
      trained_date s' = d
    else
      seg_start r' = seg_start r /\ seg_coef r' = seg_coef r /\
      seg_rmse r' = seg_rmse r /\
      models s' = models s /\ trained_date s' = trained_date s.
Proof.
  intros s s'.
  assert (H1 : (record s < length (heap s))%nat) by (vm_compute; lia).
  assert (H2 : n_record s = len (the_record s) - 1) by (vm_compute; reflexivity).
  assert (H3 : update_model reference_lib s = Ok s') by (vm_compute; reflexivity).
  split; [exact H1|]. split; [exact H2|]. split; [exact H3|].
  exact (update_model_effect reference_lib s s' H1 H2 H3).
Defined.

Example update_model_within_a_year :
  let s := example_at 6 in
  let s' := value_of (update_model reference_lib s) in
  update_model reference_lib s = Ok s' /\
  map (fun r => (seg_start r, seg_end r)) (the_record s) = [(730000, 730500)] /\
  map (fun r => (seg_start r, seg_end r)) (the_record s') = [(730000, 730600)] /\
  models s' = models s /\ trained_date s' = of_int 730500.
Proof. vm_compute. repeat split; reflexivity. Qed.

(** When [update_model] refits, the open record holds the refitted models
    as float32 values: entry [k] of its [rmse] is the RMSE of model [k] and
    column [k] of its [coef] the coefficients of model [k], one per row;
    the two arrays keep their shapes. *)
Theorem update_model_stores_models (L : numlib) (s s' : yatsm) (d : float) :
  (record s < length (heap s))%nat ->
  n_record s = len (the_record s) - 1 ->
  update_model L s = Ok s' ->
  getitem2 (X s) (here s) 1 = Ok d ->
  fgt (fabs (fsub d (trained_date s))) ndays = true ->
  exists init r r',
    the_record s = init ++ [r] /\ the_record s' = init ++ [r'] /\
    length (seg_rmse r') = length (seg_rmse r) /\
    length (seg_coef r') = length (seg_coef r) /\
    (forall j row, nth_error (seg_coef r) j = Some row ->
       exists row', nth_error (seg_coef r') j = Some row' /\
                    length row' = length row) /\
    forall k m, nth_error (models s') k = Some m ->
      nth_error (seg_rmse r') k = Some (f32 (rmse m)) /\
      exists v, broadcast (coef m) (length (seg_coef r)) = Ok v /\
        forall j x, nth_error v j = Some x ->
          exists row, nth_error (seg_coef r') j = Some row /\
                      nth_error row k = Some (f32 x).
Proof.
  intros Hv Hn H Hd G.
  destruct (update_model_cases L s s' Hv Hn H)
    as (d' & init & r & r' & Hd' & Hi & Hi' & _ & _ & C).
  rewrite Hd in Hd'. inversion Hd'; subst d'; clear Hd'.
  destruct C as [(G' & _)|(_ & d0 & Hd0 & Hf & Hs & Ht)]; [congruence|].
  apply store_models_entries in Hs; [|lia]. simpl in Hs.
  destruct Hs as (L1 & L2 & P0 & _ & _ & P).
  exists init, r, r'. repeat (split; [assumption|]). exact P.
Qed.

Lemma update_model_stores_models_witness :
  let s := example_at 5 in
  let s' := value_of (update_model reference_lib s) in
  let d := of_int 730500 in
  (record s < length (heap s))%nat /\
  n_record s = len (the_record s) - 1 /\
  update_model reference_lib s = Ok s' /\
  getitem2 (X s) (here s) 1 = Ok d /\
  fgt (fabs (fsub d (trained_date s))) ndays = true /\
  length (models s') = 5%nat /\
  exists init r r',
    the_record s = init ++ [r] /\ the_record s' = init ++ [r'] /\
    length (seg_rmse r') = length (seg_rmse r) /\
    length (seg_coef r') = length (seg_coef r) /\
    (forall j row, nth_error (seg_coef r) j = Some row ->
       exists row', nth_error (seg_coef r') j = Some row' /\
                    length row' = length row) /\
    forall k m, nth_error (models s') k = Some m ->
      nth_error (seg_rmse r') k = Some (f32 (rmse m)) /\
      exists v, broadcast (coef m) (length (seg_coef r)) = Ok v /\
        forall j x, nth_error v j = Some x ->
          exists row, nth_error (seg_coef r') j = Some row /\
                      nth_error row k = Some (f32 x).
Proof.
  intros s s' d.
  assert (H1 : (record s < length (heap s))%nat) by (vm_compute; lia).
  assert (H2 : n_record s = len (the_record s) - 1) by (vm_compute; reflexivity).
  assert (H3 : update_model reference_lib s = Ok s') by (vm_compute; reflexivity).
  assert (H4 : getitem2 (X s) (here s) 1 = Ok d) by (vm_compute; reflexivity).
  assert (H5 : fgt (fabs (fsub d (trained_date s))) ndays = true)
    by (vm_compute; reflexivity).
  split; [exact H1|]. split; [exact H2|]. split; [exact H3|]. split; [exact H4|].
  split; [exact H5|]. split; [vm_compute; reflexivity|].
  exact (update_model_stores_models reference_lib s s' d H1 H2 H3 H4 H5).
Defined.

Example few_bands_run_raises :
  run reference_lib 200
    (value_of (init default_args (example_X 15) three_band_Y))
  = Some (Raise IndexError).
Proof. vm_compute. reflexivity. Qed.

(** ** [consecutive = 0] *)

(** With [consecutive = 0] the slice [[:-consecutive]] of the window mask
    is empty, so [train] counts no observation and, for a positive
    [min_obs], returns without doing anything; and [monitor] computes no
    score, so that the test on all magnitudes holds and it declares a break
    whenever it returns. *)
Theorem consecutive_zero_degenerate (L : numlib) (s : yatsm) :
  consecutive (cfg s) = 0 ->
  (0 < min_obs (cfg s) -> forall s', train L s = Ok s' -> s' = s) /\
  (forall s', monitor L s = Ok s' ->
     monitoring s' = false /\ n_record s' = n_record s + 1 /\
     start s' = here s + 1).
Proof.
  intros Hc. split.
  - intros Hm s' H. apply train_cases in H. destruct H as [H|H]; [exact H|].
    destruct H as (span & mask & index & window & mX & mY & _ & _ & _ & _ & _ & H).
    simpl in H. destruct H as (Hmin & _). rewrite Hc in Hmin.
    unfold slice_to_neg in Hmin. simpl in Hmin. unfold count_true, len in Hmin.
    simpl in Hmin. lia.
  - intros s' H. unfold monitor, magnitudes, scores in H. rewrite Hc in H.
    simpl in H. bind_inv H. bind_inv H.
    apply update_open_record_heap in E0.
    destruct E0 as (? & ? & ? & _ & _ & _ & ->).
    inversion H; subst s'. simpl. auto.
Qed.

Lemma consecutive_zero_degenerate_witness :
  let s := set_here 5 (value_of (init consecutive_0_args (example_X 15)
                                   (example_Y 15 8))) in
  consecutive (cfg s) = 0 /\
  0 < min_obs (cfg s) /\ train reference_lib s = Ok s /\
  (exists s', monitor reference_lib s = Ok s') /\
  (0 < min_obs (cfg s) -> forall s', train reference_lib s = Ok s' -> s' = s) /\
  (forall s', monitor reference_lib s = Ok s' ->
     monitoring s' = false /\ n_record s' = n_record s + 1 /\
     start s' = here s + 1).
Proof.
  intros s.
  assert (H : consecutive (cfg s) = 0) by (vm_compute; reflexivity).
  split; [exact H|]. split; [vm_compute; reflexivity|].
  split; [vm_compute; reflexivity|].
  split; [eexists; vm_compute; reflexivity|].
  exact (consecutive_zero_degenerate reference_lib s H).
Defined.

(** ** The models read by [monitor] *)

Lemma mapM_each {A B : Type} (f : A -> result B) (l : list A) (r : list B) a :
  mapM f l = Ok r -> In a l -> exists b, f a = Ok b.
Proof.
  revert r. induction l as [|x l IH]; simpl; intros r H Hin; [destruct Hin|].
  bind_inv H. bind_inv H. destruct Hin as [->|Hin]; eauto.
Qed.

(** [monitor] takes the model of a test band [b] from position [b] of
    [models], the array fitted by [update_model] with one model per entry
    of [fit_indices]: when it returns, with [consecutive] positive, every
    test band is a valid index into [models] and a row of [Y]. *)
Theorem monitor_models_by_band (L : numlib) (s s' : yatsm) :
  0 < consecutive (cfg s) -> monitor L s = Ok s' ->
  Forall (fun b => (- len (models s) <= b < len (models s)) /\
                   (- shape0 (Y s) <= b < shape0 (Y s)))
         (test_indices (cfg s)).
Proof.
  intros Hc H. unfold monitor, magnitudes in H. bind_inv H. bind_inv E.
  clear H E. unfold scores in E0.
  destruct (consecutive (cfg s) <? 0); [discriminate|].
  assert (Hin : In 0 (arange 0 (consecutive (cfg s)))).
  { unfold arange. apply in_map_iff. exists 0%nat. split; [reflexivity|].
    apply in_seq. lia. }
  destruct (mapM_each _ _ _ _ E0 Hin) as (row & Hrow).
  apply Forall_forall. intros b Hb.
  destruct (mapM_each _ _ _ _ Hrow Hb) as (x & Hx).
  apply bind_ok in Hx. destruct Hx as (m & Hm & Hx).
  apply bind_ok in Hx. destruct Hx as (res & Hres & _).
  unfold normalized_residual in Hres.
  apply bind_ok in Hres. destruct Hres as (y & Hy & _).
  unfold getitem2 in Hy. apply bind_ok in Hy. destruct Hy as (yrow & Hyrow & _).
  apply getitem_bound in Hm, Hyrow. unfold shape0. auto.
Qed.

Lemma monitor_models_by_band_witness :
  let s := value_of (update_model reference_lib (example_at 5)) in
  let s' := value_of (monitor reference_lib s) in
  0 < consecutive (cfg s) /\ monitor reference_lib s = Ok s' /\
  Forall (fun b => (- len (models s) <= b < len (models s)) /\
                   (- shape0 (Y s) <= b < shape0 (Y s)))
         (test_indices (cfg s)).
Proof.
  intros s s'.
  assert (H1 : 0 < consecutive (cfg s)) by (vm_compute; reflexivity).
  assert (H2 : monitor reference_lib s = Ok s') by (vm_compute; reflexivity).
  split; [exact H1|]. split; [exact H2|].
  exact (monitor_models_by_band reference_lib s s' H1 H2).
Defined.

Example monitor_fit_bands_3_4 :
  let s0 := value_of (init bands_3_4_args (example_X 15) (example_Y 15 8)) in
  init bands_3_4_args (example_X 15) (example_Y 15 8) = Ok s0 /\
  run reference_lib 100 s0 = Some (Raise IndexError).
Proof. vm_compute. split; reflexivity. Qed.

(** ** Closed records are never rewritten *)

Lemma continues_refl rs : rs <> [] -> continues rs rs.
Proof.
  intros H. exists [last rs (zero_segment 0 0)]. split; [discriminate|].
  apply app_removelast_last. exact H.
Qed.

Lemma continues_trans rs1 rs2 rs3 :
  continues rs1 rs2 -> continues rs2 rs3 -> continues rs1 rs3.
Proof.
  intros (m1 & N1 & ->) (m2 & N2 & ->).
  exists (removelast m1 ++ m2). split.
  - intros H. apply app_eq_nil in H. tauto.
  - rewrite removelast_app by exact N1. rewrite app_assoc. reflexivity.
Qed.

Lemma open_last_nonempty s : open_last s -> the_record s <> [].
Proof.
  intros (_ & H0 & Hn) E. rewrite E in Hn. unfold len in Hn. simpl in Hn. lia.
Qed.

Lemma train_store L s s' :
  train L s = Ok s' ->
  heap s' = heap s /\ record s' = record s /\ n_record s' = n_record s.
Proof.
  intros H. apply train_cases in H. destruct H as [->|H]; [auto|].
  destruct H as (span & mask & index & window & mX & mY & _ & _ & _ & _ & _ & H).
  simpl in H. destruct H as (_ & _ & _ & [->|[->| ->]]); simpl; auto.
Qed.

Lemma update_model_open_last L s s' :
  open_last s -> update_model L s = Ok s' ->
  open_last s' /\ continues (the_record s) (the_record s').
Proof.
  intros (Hv & H0 & Hn) H.
  pose proof (update_model_frame _ _ _ H) as F.
  destruct (update_model_cases L s s' Hv Hn H)
    as (d & init & r & r' & _ & Hi & Hi' & Hv' & Hn' & _).
  split.
  - split; [exact Hv'|]. split; [|exact Hn'].
    replace (n_record s') with (n_record s) by (symmetry; tauto). exact H0.
  - rewrite Hi, Hi'. exists [r']. split; [discriminate|].
    rewrite removelast_last. reflexivity.
Qed.

Lemma monitor_open_last L s s' :
  open_last s -> monitor L s = Ok s' ->
  open_last s' /\ continues (the_record s) (the_record s').
Proof.
  intros O H. pose proof O as (Hv & H0 & Hn).
  apply monitor_cases in H. destruct H as [->|H].
  - split; [exact O|]. apply continues_refl. apply open_last_nonempty. exact O.
  - destruct H as (d & r & rs & _ & Hg & Hs & ->).
    destruct (open_record_last _ _ _ Hn Hg) as (init & Hi & Hset).
    rewrite Hset in Hs. inversion Hs; subst rs; clear Hs.
    assert (T : the_record
                  (set_monitoring false
                     (set_start (here s + 1)
                        (set_n_record (n_record s + 1)
                           (bind_record
                              ((init ++ [set_seg_break (to_i4 d) r])
                               ++ [record_template (cfg s)])
                              (set_heap
                                 (write (heap s) (record s)
                                    (init ++ [set_seg_break (to_i4 d) r])) s)))))
                = (init ++ [set_seg_break (to_i4 d) r])
                  ++ [record_template (cfg s)]).
    { unfold the_record, bind_record, alloc, load. simpl. apply nth_middle. }
    split.
    + split; [|split].
      * unfold bind_record, alloc. simpl. rewrite length_app. simpl. lia.
      * simpl. lia.
      * rewrite T. simpl. rewrite Hn, Hi. unfold len. rewrite !length_app.
        simpl. lia.
    + rewrite T, Hi.
      exists ([set_seg_break (to_i4 d) r] ++ [record_template (cfg s)]).
      split; [discriminate|]. rewrite removelast_last, app_assoc. reflexivity.
Qed.

Lemma same_store_open_last s s' :
  open_last s -> heap s' = heap s -> record s' = record s ->
  n_record s' = n_record s ->
  open_last s' /\ continues (the_record s) (the_record s').
Proof.
  intros O Hh Hr Hn.
  assert (T : the_record s' = the_record s) by (unfold the_record; congruence).
  split.
  - unfold open_last. rewrite T, Hh, Hr, Hn. exact O.
  - rewrite T. apply continues_refl. apply open_last_nonempty. exact O.
Qed.

Lemma step_open_last L c s c' s' :
  open_last s -> step L c s = Ok (c', s') ->
  open_last s' /\ continues (the_record s) (the_record s').
Proof.
  intros O H. destruct c; simpl in H.
  - destruct (running s); injection H as <- <-;
      apply same_store_open_last; auto.
  - destruct (negb (monitoring s) && can_monitor s).
    + bind_inv H. injection H as <- <-. apply train_store in E.
      apply same_store_open_last; simpl; tauto.
    + injection H as <- <-. apply same_store_open_last; auto.
  - destruct (monitoring s && can_monitor s).
    + bind_inv H. bind_inv H. injection H as <- <-.
      destruct (update_model_open_last _ _ _ O E) as (O1 & C1).
      destruct (monitor_open_last _ _ _ O1 E0) as (O2 & C2).
      destruct (same_store_open_last v0 (incr_here v0) O2 eq_refl eq_refl eq_refl)
        as (O3 & C3).
      split; [exact O3|].
      eapply continues_trans; [exact C1|]. eapply continues_trans; eauto.
    + injection H as <- <-. apply same_store_open_last; auto.
  - injection H as <- <-. apply same_store_open_last; auto.
  - injection H as <- <-. apply same_store_open_last; auto.
Qed.

Lemma steps_open_last L n : forall c s c' s',
  open_last s -> steps L n c s = (c', s') ->
  open_last s' /\ continues (the_record s) (the_record s').
Proof.
  induction n as [|n IH]; intros c s c' s' O H; simpl in H.
  - injection H as <- <-. apply same_store_open_last; auto.
  - destruct (step L c s) as [[c1 s1]|e] eqn:St.
    + destruct (step_open_last _ _ _ _ _ O St) as (O1 & C1).
      destruct (IH _ _ _ _ O1 H) as (O2 & C2).
      split; [exact O2|]. eapply continues_trans; eauto.
    + injection H as <- <-. apply same_store_open_last; auto.
Qed.

Lemma init_open_last a vX vY s0 :
  init a vX vY = Ok s0 -> open_last (set_trained_date (of_int 0) s0).
Proof.
  intros Hi. unfold init in Hi. bind_inv Hi. bind_inv Hi. bind_inv Hi.
  destruct (_ <? _); [discriminate|]. inversion Hi; subst s0.
  unfold open_last, the_record, load, len. simpl. lia.
Qed.

(** The record store only grows at its end during a run: from
    construction on, [n_record] indexes the last record, and whatever the
    run does later, the records before that one stay where they are with
    every field as it is; only the last record is rewritten or followed by
    new ones. *)
Theorem closed_records_kept (L : numlib) (a : args) (vX vY : matrix)
    (s0 : yatsm) :
  init a vX vY = Ok s0 ->
  forall n c s m c' s',
    steps L n AtRunning (set_trained_date (of_int 0) s0) = (c, s) ->
    steps L m c s = (c', s') ->
    n_record s = len (the_record s) - 1 /\
    continues (the_record s) (the_record s').
Proof.
  intros Hi n c s m c' s' H1 H2.
  destruct (steps_open_last _ _ _ _ _ _ (init_open_last _ _ _ _ Hi) H1) as (O & _).
  destruct (steps_open_last _ _ _ _ _ _ O H2) as (_ & C).
  split; [apply O | exact C].
Qed.

Lemma closed_records_kept_witness :
  let s0 := example_init in
  let cs := steps reference_lib 11 AtRunning (set_trained_date (of_int 0) s0) in
  let cs' := steps reference_lib 100 (fst cs) (snd cs) in
  init default_args (example_X 15) (example_Y 15 8) = Ok s0 /\
  map seg_break (the_record (snd cs)) = [730900; 0] /\
  n_record (snd cs) = len (the_record (snd cs)) - 1 /\
  continues (the_record (snd cs)) (the_record (snd cs')).
Proof.
  intros s0 cs cs'.
  assert (H : init default_args (example_X 15) (example_Y 15 8) = Ok s0)
    by (vm_compute; reflexivity).
  split; [exact H|]. split; [vm_compute; reflexivity|].
  exact (closed_records_kept reference_lib default_args _ _ s0 H 11%nat
           (fst cs) (snd cs) 100%nat (fst cs') (snd cs')
           (surjective_pairing cs) (surjective_pairing cs')).
Defined.

(** ** The instance after [run] *)

Lemma control_eq_Returned (c : control) : c = Returned \/ c <> Returned.
Proof. destruct c; auto; right; discriminate. Qed.

Lemma run_from_result L fuel : forall c s s',
  run_from L fuel c s = Some (Ok s') -> c <> Returned ->
  ran s' = true /\ running s' = false.
Proof.
  induction fuel as [|fuel IH]; intros c s s' H Hc.
  - destruct c; try discriminate. congruence.
  - destruct c; try congruence; cbn [run_from] in H;
      match type of H with context [step L ?c s] =>
        destruct (step L c s) as [[c1 s1]|e] eqn:St; [|discriminate]
      end;
      (destruct (control_eq_Returned c1) as [->|N]; [|exact (IH _ _ _ H N)]);
      simpl in St.
    + destruct (running s) eqn:R; [discriminate|]. injection St as <-.
      destruct fuel; simpl in H; injection H as <-; simpl; auto.
    + destruct (negb (monitoring s) && can_monitor s); [|discriminate].
      bind_inv St. discriminate.
    + destruct (monitoring s && can_monitor s); [|discriminate].
      bind_inv St. bind_inv St. discriminate.
    + discriminate.
Qed.

Lemma operations_first L s t u :
  operation L s t -> operations L t u -> operations L s u.
Proof.
  intros O H. induction H as [t|t u w _ IHo Hop].
  - eapply ops_more; [constructor | exact O].
  - eapply ops_more; [apply IHo; exact O | exact Hop].
Qed.

Lemma run_from_reduction L fuel : forall c s s',
  run_from L fuel c s = Some (Ok s') ->
  cfg s' = cfg s /\ reduction (X s) (Y s) (X s') (Y s').
Proof.
  intros c s s' H. apply run_from_steps in H. destruct H as (n & H).
  apply operations_reduction with (L := L).
  revert c s H. induction n as [|n IH]; intros c s H; simpl in H.
  - injection H as _ <-. constructor.
  - destruct (step L c s) as [[c1 s1]|e] eqn:St.
    + apply IH in H. eapply operations_first; [|exact H].
      eapply op_run_step; eauto.
    + injection H as _ <-. constructor.
Qed.

(** When [run] returns, the instance is marked as run and the cursor is
    at or past the end of the observations it then holds; the
    configuration is the one of construction and the observations are
    those given, less the ones masked by [train]. *)
Theorem run_result (L : numlib) (fuel : nat) (s s' : yatsm) :
  run L fuel s = Some (Ok s') ->
  ran s' = true /\ shape0 (X s') <= here s' /\
  cfg s' = cfg s /\ reduction (X s) (Y s) (X s') (Y s').
Proof.
  intros H. unfold run in H.
  destruct (run_from_result _ _ _ _ _ H ltac:(discriminate)) as (R1 & R2).
  destruct (run_from_reduction _ _ _ _ _ H) as (C & R).
  unfold running in R2. apply Z.ltb_ge in R2. simpl in C, R. auto.
Qed.

Lemma run_result_witness :
  let s := value_of (init default_args (example_X 15) noisy_Y) in
  let s' := match run reference_lib 100 s with
            | Some (Ok t) => t
            | _ => blank
            end in
  run reference_lib 100 s = Some (Ok s') /\
  (shape0 (X s), shape0 (X s'), here s') = (15, 14, 14) /\
  ran s' = true /\ shape0 (X s') <= here s' /\
  cfg s' = cfg s /\ reduction (X s) (Y s) (X s') (Y s').
Proof.
  intros s s'.
  assert (H : run reference_lib 100 s = Some (Ok s')) by (vm_compute; reflexivity).
  split; [exact H|]. split; [vm_compute; reflexivity|].
  exact (run_result reference_lib 100 s s' H).
Defined.

(** ** The observations [train] can remove *)

Lemma put_outside {A : Type} (index : list Z) : forall (l : list A) vals l',
  put l index vals = Ok l' ->
  length l' = length l /\
  forall p, (forall i, In i index -> 0 <= i /\ Z.to_nat i <> p) ->
            nth_error l' p = nth_error l p.
Proof.
  induction index as [|i index IH]; intros l [|v vals] l' H; simpl in H;
    try discriminate.
  - inversion H; subst. auto.
  - bind_inv H. apply IH in H. destruct H as (Hl & Hp).
    apply setitem_nth_error in E. destruct E as (Ll & _ & Ho).
    split; [congruence|]. intros p Hi.
    rewrite Hp by (intros j Hj; apply Hi; right; exact Hj).
    apply Ho. destruct (Hi i (or_introl eq_refl)) as (H0 & Hne).
    unfold index_pos. destruct (i <? 0) eqn:N; [apply Z.ltb_lt in N; lia|].
    congruence.
Qed.

Lemma arange_uint16_In a b i :
  0 <= a -> b <= 65536 -> In i (arange_uint16 a b) -> a <= i < b.
Proof.
  intros Ha Hb H. unfold arange_uint16, arange in H.
  apply in_map_iff in H. destruct H as (j & <- & H).
  apply in_map_iff in H. destruct H as (k & <- & H). apply in_seq in H.
  rewrite Z.mod_small by lia. lia.
Qed.

(** The mask of [train] is true outside the window. *)
Lemma train_mask_outside L s span mask index :
  train_mask L s span = Ok (mask, index) ->
  0 <= start s -> here s + consecutive (cfg s) <= 65536 ->
  length mask = Z.to_nat (shape0 (X s)) /\
  forall p, (p < length mask)%nat ->
            Z.of_nat p < start s \/ here s + consecutive (cfg s) <= Z.of_nat p ->
            nth_error mask p = Some true.
Proof.
  intros H H0 Hb. unfold train_mask in H.
  bind_inv H. bind_inv H. bind_inv H. bind_inv H. bind_inv H. bind_inv H.
  injection H as <- <-. apply put_outside in E4. destruct E4 as (Hl & Hp).
  rewrite repeat_length in Hl. split; [exact Hl|].
  intros p Hlt Hout. rewrite Hp.
  - apply nth_error_repeat. lia.
  - intros i Hi. apply arange_uint16_In in Hi; lia.
Qed.

Lemma compress_aux_firstn {A : Type} k : forall mask (l : list A),
  length mask = length l ->
  (forall p, (p < k)%nat -> (p < length mask)%nat -> nth_error mask p = Some true) ->
  firstn k (compress_aux mask l) = firstn k l.
Proof.
  induction k as [|k IH]; intros mask l Hl Hp; [reflexivity|].
  destruct mask as [|b mask], l as [|a l]; simpl in Hl; try discriminate;
    [reflexivity|].
  assert (Hb : b = true).
  { specialize (Hp 0%nat ltac:(lia) ltac:(simpl; lia)). simpl in Hp. congruence. }
  subst b. simpl. f_equal. apply IH; [lia|].
  intros p Hk Hlt. apply (Hp (S p)); simpl; lia.
Qed.

Lemma mapM_Forall2 {A B : Type} (f : A -> result B) l : forall r,
  mapM f l = Ok r -> Forall2 (fun a b => f a = Ok b) l r.
Proof.
  induction l as [|a l IH]; simpl; intros r H.
  - inversion H; subst. constructor.
  - bind_inv H. bind_inv H. inversion H; subst. constructor; auto.
Qed.

(** [train] removes observations inside its window only: with the window
    indices within the range of [uint16], the observations before the
    segment start are in [X] and in every band of [Y] after the call as
    before it, at the same positions. *)
Theorem train_keeps_earlier_observations (L : numlib) (s s' : yatsm) :
  train L s = Ok s' ->
  0 <= start s -> here s + consecutive (cfg s) <= 65536 ->
  firstn (Z.to_nat (start s)) (X s') = firstn (Z.to_nat (start s)) (X s) /\
  Forall2 (fun row row' =>
             firstn (Z.to_nat (start s)) row' = firstn (Z.to_nat (start s)) row)
          (Y s) (Y s').
Proof.
  intros H H0 Hb. apply train_frame in H.
  destruct H as [_ [(-> & -> & _)|(_ & span & mask & index & _ & Hm & HX & HY)]].
  - split; [reflexivity|]. induction (Y s); constructor; auto.
  - destruct (train_mask_outside _ _ _ _ _ Hm H0 Hb) as (Hl & Hp).
    assert (K : forall (A : Type) (l l' : list A),
              compress mask l = Ok l' ->
              firstn (Z.to_nat (start s)) l' = firstn (Z.to_nat (start s)) l).
    { intros A l l' Hc. unfold compress in Hc.
      destruct (Nat.eqb _ _) eqn:E; [|discriminate]. apply Nat.eqb_eq in E.
      inversion Hc; subst l'. apply compress_aux_firstn; [exact E|].
      intros p Hk Hlt. apply Hp; [exact Hlt | lia]. }
    split; [apply K; exact HX|].
    unfold compress_columns in HY. apply mapM_Forall2 in HY.
    eapply Forall2_impl; [|exact HY]. intros row row' Hc. apply K. exact Hc.
Qed.

Lemma train_keeps_earlier_observations_witness :
  let s := set_here 8 (set_start 1 (noisy_at 4)) in
  let s' := value_of (train reference_lib s) in
  train reference_lib s = Ok s' /\
  0 <= start s /\ here s + consecutive (cfg s) <= 65536 /\
  (start s, shape0 (X s), shape0 (X s')) = (1, 15, 14) /\
  firstn (Z.to_nat (start s)) (X s') = firstn (Z.to_nat (start s)) (X s) /\
  Forall2 (fun row row' =>
             firstn (Z.to_nat (start s)) row' = firstn (Z.to_nat (start s)) row)
          (Y s) (Y s').
Proof.
  intros s s'.
  assert (H1 : train reference_lib s = Ok s') by (vm_compute; reflexivity).
  assert (H2 : 0 <= start s) by (vm_compute; discriminate).
  assert (H3 : here s + consecutive (cfg s) <= 65536) by (vm_compute; discriminate).
  split; [exact H1|]. split; [exact H2|]. split; [exact H3|].
  split; [vm_compute; reflexivity|].
  exact (train_keeps_earlier_observations reference_lib s s' H1 H2 H3).
Defined.

(** [run] does not rewind the cursor: called again on an instance it has
    returned from, it finds the cursor past the observations and returns
    at the first test of the outer loop, having done nothing but set
    [trained_date] to 0; the record store, the models and the observations
    are those of the first run. *)
Theorem rerun_returns_at_once (L : numlib) (fuel : nat) (s s' : yatsm) :
  run L fuel s = Some (Ok s') ->
  forall fuel', run L (S fuel') s' = Some (Ok (set_trained_date (of_int 0) s')).
Proof.
  intros H fuel'. unfold run in H.
  destruct (run_from_result _ _ _ _ _ H ltac:(discriminate)) as (R1 & R2).
  unfold run. cbn [run_from step].
  replace (running (set_trained_date (of_int 0) s')) with false
    by (symmetry; exact R2).
  destruct fuel'; cbn [run_from]; destruct s'; simpl in R1; subst; reflexivity.
Qed.

Lemma rerun_returns_at_once_witness :
  let s := example_init in
  let s' := match run reference_lib 100 s with
            | Some (Ok t) => t
            | _ => blank
            end in
  run reference_lib 100 s = Some (Ok s') /\
  length (the_record s') = 2%nat /\
  forall fuel', run reference_lib (S fuel') s'
                = Some (Ok (set_trained_date (of_int 0) s')).
Proof.
  intros s s'.
  assert (H : run reference_lib 100 s = Some (Ok s')) by (vm_compute; reflexivity).
  split; [exact H|]. split; [vm_compute; reflexivity|].
  exact (rerun_returns_at_once reference_lib 100 s s' H).
Defined.

(** ** When [monitor] returns *)

Lemma getitem_ok {A : Type} (l : list A) i :
  - len l <= i < len l -> exists a, getitem l i = Ok a.
Proof.
  unfold getitem, len. intros H.
  destruct (i <? 0) eqn:N; [apply Z.ltb_lt in N | apply Z.ltb_ge in N].
  - destruct (i + Z.of_nat (length l) <? 0) eqn:N2; [apply Z.ltb_lt in N2; lia|].
    destruct (nth_error l (Z.to_nat (i + Z.of_nat (length l)))) eqn:E;
      [eexists; reflexivity|].
    apply nth_error_None in E. lia.
  - destruct (i <? 0) eqn:N2; [apply Z.ltb_lt in N2; lia|].
    destruct (nth_error l (Z.to_nat i)) eqn:E; [eexists; reflexivity|].
    apply nth_error_None in E. lia.
Qed.

Lemma setitem_ok {A : Type} (l : list A) i v :
  - len l <= i < len l -> exists l', setitem l i v = Ok l'.
Proof.
  unfold setitem, len. intros H.
  destruct (i <? 0) eqn:N; [apply Z.ltb_lt in N | apply Z.ltb_ge in N].
  - destruct ((i + Z.of_nat (length l) <? 0)
              || (Z.of_nat (length l) <=? i + Z.of_nat (length l))) eqn:O;
      [|eexists; reflexivity].
    apply orb_true_iff in O. destruct O as [O|O];
      [apply Z.ltb_lt in O | apply Z.leb_le in O]; lia.
  - destruct (i <? 0) eqn:N2; [apply Z.ltb_lt in N2; lia|].
    destruct (Z.of_nat (length l) <=? i) eqn:O; [|eexists; reflexivity].
    apply Z.leb_le in O. lia.
Qed.

Lemma mapM_ok {A B : Type} (f : A -> result B) (l : list A) :
  (forall a, In a l -> exists b, f a = Ok b) -> exists r, mapM f l = Ok r.
Proof.
  induction l as [|a l IH]; intros H; simpl; [eauto|].
  destruct (H a (or_introl eq_refl)) as (b & ->).
  destruct IH as (r & ->); [intros x Hx; apply H; right; exact Hx|].
  simpl. eauto.
Qed.

Lemma arange_In a b i : In i (arange a b) -> a <= i < b.
Proof.
  unfold arange. intros H. apply in_map_iff in H. destruct H as (k & <- & H).
  apply in_seq in H. lia.
Qed.

(** [monitor] raises nothing of its own when the instance is well formed:
    the cursor is not negative and leaves room for the [consecutive]
    observations ahead, every row of [X] has a date column, every band of
    [Y] has an observation for each row of [X], every test band is a valid
    index into [models] and into the bands of [Y], and the open record is
    the last one of the store. *)
Theorem monitor_returns (L : numlib) (s : yatsm) :
  0 <= here s -> 0 <= consecutive (cfg s) -> can_monitor s = true ->
  Forall (fun row => 2 <= len row) (X s) ->
  Forall (fun row => shape0 (X s) <= len row) (Y s) ->
  Forall (fun b => (- len (models s) <= b < len (models s)) /\
                   (- shape0 (Y s) <= b < shape0 (Y s)))
         (test_indices (cfg s)) ->
  open_last s ->
  exists s', monitor L s = Ok s'.
Proof.
  intros Hh Hc Hm HX HY Hb (Hv & H0 & Hn).
  unfold can_monitor in Hm. apply Z.ltb_lt in Hm.
  rewrite Forall_forall in HX, HY, Hb.
  assert (Sc : exists sc, scores L s = Ok sc).
  { unfold scores. destruct (consecutive (cfg s) <? 0) eqn:N;
      [apply Z.ltb_lt in N; lia|].
    apply mapM_ok. intros i Hi. apply arange_In in Hi.
    apply mapM_ok. intros b Hin. destruct (Hb b Hin) as (B1 & B2).
    destruct (getitem_ok (models s) b B1) as (m & ->). simpl.
    unfold normalized_residual, getitem2.
    destruct (getitem_ok (Y s) b B2) as (yrow & Hy). rewrite Hy. simpl.
    pose proof (HY yrow (getitem_In _ _ _ Hy)) as Ly.
    destruct (getitem_ok yrow (here s + i)) as (y & ->); [lia|]. simpl.
    destruct (getitem_ok (X s) (here s + i)) as (x & ->);
      [unfold shape0 in *; lia|].
    simpl. eauto. }
  destruct Sc as (sc & Hsc). unfold monitor, magnitudes. rewrite Hsc. simpl.
  destruct (all_exceed _ _); [|eauto].
  unfold getitem2.
  destruct (getitem_ok (X s) (here s + 1)) as (xrow & Hx);
    [unfold shape0 in *; lia|].
  rewrite Hx. simpl. pose proof (HX xrow (getitem_In _ _ _ Hx)) as Lx.
  destruct (getitem_ok xrow 1) as (d & ->); [lia|]. simpl.
  unfold update_open_record.
  destruct (getitem_ok (the_record s) (n_record s)) as (r & ->); [lia|]. simpl.
  destruct (setitem_ok (the_record s) (n_record s) (set_seg_break (to_i4 d) r))
    as (rs & ->); [lia|].
  simpl. eauto.
Qed.

Lemma monitor_returns_witness :
  let s := value_of (update_model reference_lib (example_at 5)) in
  0 <= here s /\ 0 <= consecutive (cfg s) /\ can_monitor s = true /\
  Forall (fun row => 2 <= len row) (X s) /\
  Forall (fun row => shape0 (X s) <= len row) (Y s) /\
  Forall (fun b => (- len (models s) <= b < len (models s)) /\
                   (- shape0 (Y s) <= b < shape0 (Y s)))
         (test_indices (cfg s)) /\
  open_last s /\
  exists s', monitor reference_lib s = Ok s'.
Proof.
  intros s.
  assert (H7 : open_last s).
  { unfold open_last. vm_compute. repeat split; try discriminate.
    repeat constructor. }
  assert (H1 : 0 <= here s) by (vm_compute; discriminate).
  assert (H2 : 0 <= consecutive (cfg s)) by (vm_compute; discriminate).
  assert (H3 : can_monitor s = true) by (vm_compute; reflexivity).
  assert (H4 : Forall (fun row => 2 <= len row) (X s)).
  { vm_compute. repeat (constructor; [discriminate|]). constructor. }
  assert (H5 : Forall (fun row => shape0 (X s) <= len row) (Y s)).
  { vm_compute. repeat (constructor; [discriminate|]). constructor. }
  assert (H6 : Forall (fun b => (- len (models s) <= b < len (models s)) /\
                                (- shape0 (Y s) <= b < shape0 (Y s)))
                      (test_indices (cfg s))).
  { vm_compute. repeat (constructor; [repeat split; discriminate|]). constructor. }
  split; [exact H1|]. split; [exact H2|]. split; [exact H3|]. split; [exact H4|].
  split; [exact H5|]. split; [exact H6|]. split; [exact H7|].
  exact (monitor_returns reference_lib s H1 H2 H3 H4 H5 H6 H7).
Defined.
